(** * Kurt: the Scratch 1.4 user-object records and the plugin registry

    A shallow embedding of [kurt/scratch14/user_objects.py] (the generic
    [UserObject] record and the class catalog built on it) and of
    [kurt/plugin.py] (the [Kurt] registry, the [Feature] table and the two
    feature workarounds), with the properties the specification states about
    them (C1 to C10) and further properties of the same code: its behaviour
    at the edges, the invariants it keeps, its round trips and how its
    operations compose.

    The source is Python 2: [map] and [filter] are eager, [dict.items()]
    returns a list, [sorted] is stable and calls its key function on every
    element, and a plain [dict] iterates in an order the program does not
    control.  Plain dicts are therefore finite maps ([gmap]); only
    [Kurt.plugins], an [OrderedDict], keeps its order and is an association
    list. *)

From Stdlib Require Import ZArith String Ascii DecimalString DecimalNat DecimalFacts.
From stdpp Require Import gmap strings list fin_maps sorting.

Local Open Scope string_scope.
Set Warnings "-register-all".

(** ** Python values and exceptions *)

Module Py.

(** The values a field or a variable can hold.  Objects of the fixed-format
    classes ([Color], [Point], [Rectangle], [Symbol], [OrderedCollection], ...)
    are kept as their class name and constructor arguments; a user-class
    object is kept as its class name, field store and instance attributes. *)
Inductive value : Type :=
| VNone
| VBool (b : bool)
| VInt (z : Z)
| VFloat (digits : Z) (exp10 : Z)  (* a float literal, digits * 10^exp10 *)
| VStr (s : string)
| VList (l : list value)
| VDict (items : list (string * value))
| VFixed (cls : string) (args : list value)
| VUser (cls : string) (fields attrs : list (string * value)).

(** The exceptions the modelled code raises. *)
Inductive exn : Type :=
| KeyError (key : string)
| IndexError
| ValueError (msg : string)
| AttributeError (name : string).

Inductive result (A : Type) : Type :=
| Ok (a : A)
| Raise (e : exn).
Arguments Ok {A} a.
Arguments Raise {A} e.

Definition bind {A B} (r : result A) (k : A → result B) : result B :=
  match r with
  | Ok a => k a
  | Raise e => Raise e
  end.

Definition is_ok {A} (r : result A) : bool :=
  match r with Ok _ => true | Raise _ => false end.

(** *** Strings *)

(** [s.split(sep)] for a one-character separator: never the empty list. *)
Fixpoint split (sep : ascii) (s : string) : list string :=
  match s with
  | EmptyString => [EmptyString]
  | String c s' =>
      if Ascii.eqb c sep then EmptyString :: split sep s'
      else match split sep s' with
           | p :: ps => String c p :: ps
           | [] => [String c EmptyString]
           end
  end.

(** [isspace] of the C locale: space, \t, \n, \v, \f, \r. *)
Definition isspace (c : ascii) : bool :=
  let n := nat_of_ascii c in
  (n =? 32)%nat || ((9 <=? n)%nat && (n <=? 13)%nat).

Definition isdigit (c : ascii) : bool :=
  let n := nat_of_ascii c in (48 <=? n)%nat && (n <=? 57)%nat.

Fixpoint lstrip (s : string) : string :=
  match s with
  | String c s' => if isspace c then lstrip s' else s
  | EmptyString => EmptyString
  end.

Fixpoint rstrip (s : string) : string :=
  match s with
  | String c s' =>
      match rstrip s' with
      | EmptyString => if isspace c then EmptyString else String c EmptyString
      | r => String c r
      end
  | EmptyString => EmptyString
  end.

(** [int(s)] on a byte string, base 10: optional blanks, an optional sign,
    optional blanks again (Python 2 accepts them), at least one digit,
    optional blanks.  Anything else is a [ValueError]. *)
Definition py_int (s : string) : option Z :=
  let s1 := lstrip s in
  let '(neg, s2) :=
    match s1 with
    | String "+" r => (false, r)
    | String "-" r => (true, r)
    | _ => (false, s1)
    end in
  match NilZero.uint_of_string (rstrip (lstrip s2)) with
  | Some d =>
      let n := Z.of_nat (Nat.of_uint d) in Some (if neg then (- n)%Z else n)
  | None => None
  end.

(** [s.lower()] on a byte string: only A-Z change. *)
Definition lower_char (c : ascii) : ascii :=
  let n := nat_of_ascii c in
  if (65 <=? n)%nat && (n <=? 90)%nat then ascii_of_nat (n + 32) else c.

Fixpoint lower (s : string) : string :=
  match s with
  | EmptyString => EmptyString
  | String c s' => String (lower_char c) (lower s')
  end.

(** ["%i" % n] for a natural number. *)
Definition fmt_i (n : nat) : string := NilZero.string_of_uint (Nat.to_uint n).

(** *** Lists *)

(** [range(a, b)] *)
Definition range (a b : nat) : list nat := seq a (b - a).

(** [sorted(l, key=...)] once every key has been computed: a stable sort on
    integer keys. *)
Fixpoint insert_by_key {A} (x : Z * A) (l : list (Z * A)) : list (Z * A) :=
  match l with
  | [] => [x]
  | y :: l' => if (x.1 <=? y.1)%Z then x :: l else y :: insert_by_key x l'
  end.

Fixpoint sort_by_key {A} (l : list (Z * A)) : list (Z * A) :=
  match l with
  | [] => []
  | x :: l' => insert_by_key x (sort_by_key l')
  end.

(** Calls [key] on every element, in list order; the first exception wins. *)
Fixpoint keyed {A} (key : A → result Z) (l : list A) : result (list (Z * A)) :=
  match l with
  | [] => Ok []
  | x :: l' =>
      bind (key x) (λ k, bind (keyed key l') (λ kl, Ok ((k, x) :: kl)))
  end.

Definition sorted {A} (key : A → result Z) (l : list A) : result (list A) :=
  bind (keyed key l) (λ kl, Ok ((sort_by_key kl).*2)).

(** *** Dicts *)

(** [d.update(pairs)]: the pairs are stored one after the other, so a later
    pair wins over an earlier one with the same key. *)
Definition update (d : gmap string value) (pairs : list (string * value))
  : gmap string value :=
  foldl (λ m kv, <[kv.1 := kv.2]> m) d pairs.

(** [zip(a, b)] stops at the shorter list. *)
Definition zip {A B} (a : list A) (b : list B) : list (A * B) := combine a b.

(** *** Notions used in the statements about [int] and [sorted] *)

(** A string of decimal digits. *)
Fixpoint all_digits (s : string) : bool :=
  match s with
  | EmptyString => true
  | String c s' => isdigit c && all_digits s'
  end.

(** The order [sort_by_key] sorts by. *)
Definition key_le {A} : relation (Z * A) := λ a b, (a.1 ≤ b.1)%Z.

End Py.

(** ** [kurt/scratch14/user_objects.py] *)

Module UserObjects.
Import Py.

(** A user class: what the [class] statement fixes.  [set_defaults] is, in
    every class of the file, a straight sequence of assignments [self.n = v]
    (after the parent's), kept here as that sequence. *)
Record pyclass : Type := {
  __name__ : string;
  classID : option Z;
  _fields : list string;
  _version : Z;
  set_defaults_body : list (string * value);
}.

(** An instance: its class, the [fields] dict, and the rest of the instance
    [__dict__] ([version], and whatever else was assigned to a name the class
    does not declare).  The attribute [fields] itself is the [fields]
    component: assigning to the names [fields] or [_fields] is outside this
    model. *)
Record UserObject : Type := {
  cls : pyclass;
  fields : gmap string value;
  attrs : gmap string value;
}.

(** [self.fields] and the rest of [self.__dict__], replaced. *)
Definition set_fields (self : UserObject) (d : gmap string value) : UserObject :=
  {| cls := cls self; fields := d; attrs := attrs self |}.

Definition set_attrs (self : UserObject) (d : gmap string value) : UserObject :=
  {| cls := cls self; fields := fields self; attrs := d |}.

(** [self.name = value] *)
Definition __setattr__ (self : UserObject) (name : string) (v : value)
  : UserObject :=
  if bool_decide (name ∈ _fields (cls self))
  then set_fields self (<[name := v]> (fields self))
  else set_attrs self (<[name := v]> (attrs self)).

(** The fallback of an attribute read. *)
Definition __getattr__ (self : UserObject) (name : string) : result value :=
  match fields self !! name with
  | Some v => Ok v
  | None => Raise (AttributeError name)
  end.

(** [self.name]: the instance [__dict__] first, then [__getattr__] (no field
    of the catalog carries the name of a class attribute or method). *)
Definition getattr (self : UserObject) (name : string) : result value :=
  match attrs self !! name with
  | Some v => Ok v
  | None => __getattr__ self name
  end.

(** [del self.name] *)
Definition __delattr__ (self : UserObject) (name : string) : result UserObject :=
  match fields self !! name with
  | Some _ => Ok (set_fields self (delete name (fields self)))
  | None =>
      match attrs self !! name with
      | Some _ => Ok (set_attrs self (delete name (attrs self)))
      | None => Raise (AttributeError name)
      end
  end.

(** [len(self)] *)
Definition __len__ (self : UserObject) : nat := size (fields self).

(** [self.set_defaults()], resolved on the class of [self]. *)
Definition set_defaults (self : UserObject) : UserObject :=
  foldl (λ o a, __setattr__ o a.1 a.2) self (set_defaults_body (cls self)).

(** ["undefined-%i" % i] *)
Definition undefined_name (i : nat) : string := "undefined-" +:+ fmt_i i.

(** The truth value of the [field_values] argument: [None] and the empty list
    are false. *)
Definition truthy_list (l : option (list value)) : bool :=
  match l with
  | Some (_ :: _) => true
  | _ => false
  end.

(** [cls(field_values, **args)] *)
Definition __init__ (c : pyclass) (field_values : option (list value))
    (args : gmap string value) : UserObject :=
  let self :=
    {| cls := c;
       fields := update ∅ (zip (_fields c) (replicate (length (_fields c)) VNone));
       attrs := ∅ |} in
  let self := __setattr__ self "version" (VInt (_version c)) in
  let '(self, args) :=
    match args !! "version" with
    | Some v => (__setattr__ self "version" v, delete "version" args)
    | None => (self, args)
    end in
  let self := set_defaults self in
  let self :=
    if truthy_list field_values then
      let field_values := default [] field_values in
      let defined_fields :=
        (_fields c ++
         (undefined_name <$> range (length (_fields c)) (length field_values)))%list in
      set_fields self (update (fields self) (zip defined_fields field_values))
    else self in
  let self := set_fields self (args ∪ fields self) in
  match fields self !! "name" with
  | Some name =>
      __setattr__ (set_fields self (delete "name" (fields self))) "name" name
  | None => self
  end.

(** The first loop of [ordered_fields]: membership is tested on [self.fields],
    the value is popped from the copy. *)
Fixpoint declared_loop (self_fields : gmap string value) (names : list string)
    (fields : gmap string value)
  : result (list (string * value) * gmap string value) :=
  match names with
  | [] => Ok ([], fields)
  | field_name :: names' =>
      bind
        (match self_fields !! field_name with
         | Some _ =>
             match fields !! field_name with
             | Some v => Ok (v, delete field_name fields)
             | None => Raise (KeyError field_name)
             end
         | None => Ok (VNone, fields)
         end)
        (λ vf, bind (declared_loop self_fields names' vf.2)
                 (λ rl, Ok ((field_name, vf.1) :: rl.1, rl.2)))
  end.

(** [lambda (field, value): int(field.split('-')[1])].  The [ValueError] of
    [int] is kept without the literal that Python appends to its message. *)
Definition suffix_key (item : string * value) : result Z :=
  match split "-" item.1 with
  | _ :: p :: _ =>
      match py_int p with
      | Some z => Ok z
      | None => Raise (ValueError "invalid literal for int() with base 10")
      end
  | _ => Raise IndexError
  end.

(** The property [ordered_fields]: the declared fields in the order of
    [_fields] ([None] for one that is not in the store), then what is left of
    the copy, sorted by the number in the name. *)
Definition ordered_fields (self : UserObject) : result (list (string * value)) :=
  bind (declared_loop (fields self) (_fields (cls self)) (fields self))
    (λ dl, bind (sorted suffix_key (map_to_list dl.2))
             (λ extras, Ok (dl.1 ++ extras)%list)).

(** The property [field_values] *)
Definition field_values (self : UserObject) : result (list value) :=
  bind (ordered_fields self) (λ l, Ok (l.*2)).

(** The hooks of the base class; no class of the file overrides them. *)
Definition _encode_field (self : UserObject) (name : string) (v : value) : value := v.
Definition _decode_field (self : UserObject) (name : string) (v : value) : value := v.

(** What [to_construct] hands to the codec. *)
Record Container : Type := {
  c_classID : string;
  c_field_values : list value;
  c_length : nat;
  c_version : value;
}.

(** The loop of [to_construct]: position [i] is encoded while
    [i < len(self._fields)]. *)
Fixpoint encode_loop (self : UserObject) (names : list string) (vs : list value)
  : list value :=
  match vs, names with
  | v :: vs', field :: names' =>
      _encode_field self field v :: encode_loop self names' vs'
  | _, _ => vs
  end.

(** [self.to_construct(context)]; the context is not used. *)
Definition to_construct (self : UserObject) : result Container :=
  bind (field_values self) (λ vs,
    let vs := encode_loop self (_fields (cls self)) vs in
    bind (getattr self "version") (λ version,
      Ok {| c_classID := __name__ (cls self);
            c_field_values := vs;
            c_length := length vs;
            c_version := version |})).

(** [cls.from_construct(obj, context)] *)
Definition from_construct (c : pyclass) (obj : Container) : UserObject :=
  __init__ c (Some (c_field_values obj)) {[ "version" := c_version obj ]}.

(** [self.built()]: the decode hook on every declared field in the store. *)
Definition built (self : UserObject) : UserObject :=
  foldl (λ o field,
           match fields o !! field with
           | Some v => set_fields o (<[field := _decode_field o field v]> (fields o))
           | None => o
           end)
        self (_fields (cls self)).

(** A user-class object stored as a value. *)
Definition as_value (o : UserObject) : value :=
  VUser (__name__ (cls o)) (map_to_list (fields o)) (map_to_list (attrs o)).

(** *** The classes

    A [class] statement inherits every class attribute it does not rebind,
    [classID] included. *)

Definition Color (r g b : Z) : value := VFixed "Color" [VInt r; VInt g; VInt b].
Definition Rectangle (l : list Z) : value := VFixed "Rectangle" [VList (VInt <$> l)].
Definition Point (x y : value) : value := VFixed "Point" [x; y].
Definition Symbol (s : string) : value := VFixed "Symbol" [VStr s].
Definition OrderedCollection : value := VFixed "OrderedCollection" [].

Definition subclass (name : string) (base : pyclass) : pyclass :=
  {| __name__ := name; classID := classID base; _fields := _fields base;
     _version := _version base; set_defaults_body := set_defaults_body base |}.

Definition with_classID (id : Z) (c : pyclass) : pyclass :=
  {| __name__ := __name__ c; classID := Some id; _fields := _fields c;
     _version := _version c; set_defaults_body := set_defaults_body c |}.

Definition with_fields (fs : list string) (c : pyclass) : pyclass :=
  {| __name__ := __name__ c; classID := classID c; _fields := fs;
     _version := _version c; set_defaults_body := set_defaults_body c |}.

Definition with_version (v : Z) (c : pyclass) : pyclass :=
  {| __name__ := __name__ c; classID := classID c; _fields := _fields c;
     _version := v; set_defaults_body := set_defaults_body c |}.

Definition with_set_defaults (body : list (string * value)) (c : pyclass) : pyclass :=
  {| __name__ := __name__ c; classID := classID c; _fields := _fields c;
     _version := _version c; set_defaults_body := body |}.

Definition UserObject_class : pyclass :=
  {| __name__ := "UserObject"; classID := None; _fields := []; _version := 1;
     set_defaults_body := [] |}.

(** Squeak and Morphic classes *)

Definition BaseMorph : pyclass :=
  with_set_defaults
    [("flags", VInt 0); ("submorphs", VList []);
     ("color", Color 1023 1023 1023); ("bounds", Rectangle [0; 0; 1; 1])%Z]
    (with_fields
       ["bounds"; "owner"; "submorphs"; "color"; "flags"; "properties"]
       (subclass "BaseMorph" UserObject_class)).

Definition Morph : pyclass := with_classID 100 (subclass "Morph" BaseMorph).

Definition BorderedMorph : pyclass :=
  with_set_defaults
    (set_defaults_body BaseMorph ++
     [("borderWidth", VInt 1); ("borderColor", Color 0 0 0)])%list
    (with_fields (_fields Morph ++ ["borderWidth"; "borderColor"])%list
       (with_classID 101 (subclass "BorderedMorph" BaseMorph))).

Definition RectangleMorph : pyclass :=
  with_classID 102 (subclass "RectangleMorph" BorderedMorph).

Definition EllipseMorph : pyclass :=
  with_classID 103 (subclass "EllipseMorph" BorderedMorph).

Definition AlignmentMorph : pyclass :=
  with_set_defaults
    (set_defaults_body RectangleMorph ++ [("inset", VInt 0)])%list
    (with_fields
       (_fields RectangleMorph ++
        ["orientation"; "centering"; "hResizing"; "vResizing"; "inset"])%list
       (with_classID 104 (subclass "AlignmentMorph" RectangleMorph))).

Definition StringMorph : pyclass :=
  with_fields (_fields Morph ++ ["font_with_size"; "emphasis"; "contents"])%list
    (with_classID 105 (subclass "StringMorph" BaseMorph)).

Definition UpdatingStringMorph : pyclass :=
  with_fields
    (_fields StringMorph ++
     ["format"; "target"; "getSelector"; "putSelector"; "parameter";
      "floatPrecision"; "growable"; "stepTime"])%list
    (with_classID 106 (subclass "UpdatingStringMorph" StringMorph)).

Definition SimpleSliderMorph : pyclass :=
  with_fields
    (_fields BorderedMorph ++
     ["slider"; "value"; "setValueSelector"; "sliderShadow"; "sliderColor";
      "descending"; "model"; "target"; "arguments"; "minVal"; "maxVal";
      "truncate"; "sliderThickness"])%list
    (with_classID 107 (subclass "SimpleSliderMorph" BorderedMorph)).

Definition SimpleButtonMorph : pyclass :=
  with_fields
    (_fields RectangleMorph ++
     ["target"; "actionSelector"; "arguments"; "actWhen"])%list
    (with_classID 108 (subclass "SimpleButtonMorph" RectangleMorph)).

Definition SampledSound : pyclass :=
  with_set_defaults [("envelopes", VList []); ("scaledVol", VInt 32768)]
    (with_fields
       ["envelopes"; "scaledVol"; "initialCount"; "samples";
        "originalSamplingRate"; "samplesSize"; "scaledIncrement";
        "scaledInitialIndex"]
       (with_classID 109 (subclass "SampledSound" UserObject_class))).

Definition ImageMorph : pyclass :=
  with_fields (_fields Morph ++ ["form"; "transparency"])%list
    (with_classID 110 (subclass "ImageMorph" BaseMorph)).

Definition SketchMorph : pyclass :=
  with_fields
    (_fields Morph ++
     ["originalForm"; "rotationCenter"; "rotationDegrees"; "rotationStyle";
      "scalePoint"; "offsetWhenRotated"])%list
    (with_classID 111 (subclass "SketchMorph" BaseMorph)).

(** Scratch-specific classes *)

Definition ScriptableScratchMorph : pyclass :=
  with_set_defaults
    (set_defaults_body BaseMorph ++
     [("scripts", VList []); ("media", VList []); ("variables", VDict []);
      ("lists", VDict []); ("isClone", VBool false); ("volume", VInt 100);
      ("tempoBPM", VInt 60)])%list
    (with_fields
       (_fields Morph ++
        ["name"; "variables"; "scripts"; "isClone"; "media"; "costume"])%list
       (subclass "ScriptableScratchMorph" BaseMorph)).

Definition SensorBoardMorph : pyclass :=
  with_fields (_fields BaseMorph ++ ["unknown"])%list
    (with_classID 123 (subclass "SensorBoardMorph" BaseMorph)).

Definition ScratchSpriteMorph : pyclass :=
  with_set_defaults
    (set_defaults_body ScriptableScratchMorph ++
     [("name", VStr "Sprite1"); ("color", Color 0 0 1023);
      ("visibility", VInt 100); ("scalePoint", Point (VFloat 1 0) (VFloat 1 0));
      ("rotationDegrees", VFloat 0 0); ("rotationStyle", Symbol "normal");
      ("draggable", VBool false); ("sceneStates", VDict [])])%list
    (with_version 3
       (with_fields
          (_fields ScriptableScratchMorph ++
           ["visibility"; "scalePoint"; "rotationDegrees"; "rotationStyle";
            "volume"; "tempoBPM"; "draggable"; "sceneStates"; "lists"])%list
          (with_classID 124 (subclass "ScratchSpriteMorph" ScriptableScratchMorph)))).

Definition ScratchStageMorph : pyclass :=
  with_set_defaults
    (set_defaults_body ScriptableScratchMorph ++
     [("name", VStr "Stage"); ("bounds", Rectangle [0; 0; 480; 360]%Z);
      ("zoom", VFloat 1 0); ("hPan", VInt 0); ("vPan", VInt 0);
      ("sprites", OrderedCollection); ("sceneStates", VDict [])])%list
    (with_version 5
       (with_fields
          (_fields ScriptableScratchMorph ++
           ["zoom"; "hPan"; "vPan"; "obsoleteSavedState"; "sprites"; "volume";
            "tempoBPM"; "sceneStates"; "lists"])%list
          (with_classID 125 (subclass "ScratchStageMorph" ScriptableScratchMorph)))).

Definition ChoiceArgMorph : pyclass :=
  with_classID 140 (subclass "ChoiceArgMorph" BaseMorph).
Definition ColorArgMorph : pyclass :=
  with_classID 141 (subclass "ColorArgMorph" BaseMorph).
Definition ExpressionArgMorph : pyclass :=
  with_classID 142 (subclass "ExpressionArgMorph" BaseMorph).
Definition SpriteArgMorph : pyclass :=
  with_classID 145 (subclass "SpriteArgMorph" BaseMorph).

Definition BlockMorph : pyclass :=
  with_fields (_fields Morph ++ ["isSpecialForm"; "oldColor"])%list
    (with_classID 147 (subclass "BlockMorph" BaseMorph)).

Definition CommandBlockMorph : pyclass :=
  with_fields
    (_fields BlockMorph ++
     ["commandSpec"; "argMorphs"; "titleMorph"; "receiver"; "selector";
      "isReporter"; "isTimed"; "wantsName"; "wantsPossession"])%list
    (with_classID 148 (subclass "CommandBlockMorph" BlockMorph)).

Definition CBlockMorph : pyclass :=
  with_classID 149 (subclass "CBlockMorph" BaseMorph).
Definition HatBlockMorph : pyclass :=
  with_classID 151 (subclass "HatBlockMorph" BaseMorph).
Definition ScratchScriptsMorph : pyclass :=
  with_classID 153 (subclass "ScratchScriptsMorph" BorderedMorph).
Definition ScratchSliderMorph : pyclass :=
  with_classID 154 (subclass "ScratchSliderMorph" BaseMorph).
Definition SetterBlockMorph : pyclass :=
  with_classID 157 (subclass "SetterBlockMorph" BaseMorph).
Definition EventHatMorph : pyclass :=
  with_classID 158 (subclass "EventHatMorph" BaseMorph).

Definition VariableBlockMorph : pyclass :=
  with_fields (_fields CommandBlockMorph ++ ["isBoolean"])%list
    (with_classID 160 (subclass "VariableBlockMorph" CommandBlockMorph)).

Definition ScratchMedia : pyclass :=
  with_fields ["name"] (subclass "ScratchMedia" UserObject_class).

Definition ImageMedia : pyclass :=
  with_set_defaults
    (set_defaults_body ScratchMedia ++
     [("rotationCenter", Point (VInt 0) (VInt 0))])%list
    (with_version 4
       (with_fields
          (_fields ScratchMedia ++
           ["form"; "rotationCenter"; "textBox"; "jpegBytes"; "compositeForm"])%list
          (with_classID 162 (subclass "ImageMedia" ScratchMedia)))).

Definition MovieMedia : pyclass :=
  with_fields
    (_fields ScratchMedia ++
     ["fileName"; "fade"; "fadeColor"; "zoom"; "hPan"; "vPan"; "msecsPerFrame";
      "currentFrame"; "moviePlaying"])%list
    (with_classID 163 (subclass "MovieMedia" ScratchMedia)).

Definition SoundMedia : pyclass :=
  with_set_defaults
    [("name", VStr EmptyString); ("balance", VInt 50); ("volume", VInt 100)]
    (with_fields
       (_fields ScratchMedia ++
        ["originalSound"; "volume"; "balance"; "compressedSampleRate";
         "compressedBitsPerSample"; "compressedData"])%list
       (with_classID 164 (subclass "SoundMedia" ScratchMedia))).

Definition KeyEventHatMorph : pyclass :=
  with_classID 165 (subclass "KeyEventHatMorph" BaseMorph).
Definition BooleanArgMorph : pyclass :=
  with_classID 166 (subclass "BooleanArgMorph" BaseMorph).
Definition EventTitleMorph : pyclass :=
  with_classID 167 (subclass "EventTitleMorph" BaseMorph).
Definition MouseClickEventHatMorph : pyclass :=
  with_classID 168 (subclass "MouseClickEventHatMorph" BaseMorph).
Definition ExpressionArgMorphWithMenu : pyclass :=
  with_classID 169 (subclass "ExpressionArgMorphWithMenu" BaseMorph).
Definition ReporterBlockMorph : pyclass :=
  with_classID 170 (subclass "ReporterBlockMorph" BaseMorph).

Definition MultilineStringMorph : pyclass :=
  with_fields
    (_fields BorderedMorph ++
     ["font"; "textColor"; "selectionColor"; "lines"])%list
    (with_classID 171 (subclass "MultilineStringMorph" BorderedMorph)).

Definition ToggleButton : pyclass :=
  with_classID 172 (subclass "ToggleButton" SimpleButtonMorph).
Definition WatcherReadoutFrameMorph : pyclass :=
  with_classID 173 (subclass "WatcherReadoutFrameMorph" BorderedMorph).
Definition WatcherSliderMorph : pyclass :=
  with_version 1
    (with_classID 174 (subclass "WatcherSliderMorph" SimpleSliderMorph)).

Definition ScratchListMorph : pyclass :=
  with_set_defaults
    (set_defaults_body BorderedMorph ++
     [("borderColor", Color 594 582 582); ("borderWidth", VInt 2);
      ("color", Color 774 786 798); ("items", VList [])])%list
    (with_version 2
       (with_fields (_fields BorderedMorph ++ ["name"; "items"; "target"])%list
          (with_classID 175 (subclass "ScratchListMorph" BorderedMorph)))).

Definition ScrollingStringMorph : pyclass :=
  with_classID 176 (subclass "ScrollingStringMorph" BaseMorph).

(** [WatcherMorph.set_defaults] builds two other user objects, so the class
    comes after theirs here. *)
Definition WatcherMorph : pyclass :=
  with_set_defaults
    (set_defaults_body AlignmentMorph ++
     [("centering", Symbol "center"); ("isLarge", VBool false);
      ("isSpriteSpecific", VBool false);
      ("readoutFrame",
       as_value
         (__init__ WatcherReadoutFrameMorph None
            {[ "submorphs" :=
                 VList
                   [as_value
                      (__init__ UpdatingStringMorph None
                         {[ "font_with_size" :=
                              VList [Symbol "VerdanaBold"; VInt 10] ]})] ]}))])%list
    (with_version 5
       (with_fields
          (_fields AlignmentMorph ++
           ["titleMorph"; "readout"; "readoutFrame"; "scratchSlider"; "watcher";
            "isSpriteSpecific"; "unused"; "sliderMin"; "sliderMax"; "isLarge"])%list
          (with_classID 155 (subclass "WatcherMorph" AlignmentMorph)))).

(** The classes that carry a [classID] of their own: the ones the codec can
    name on the wire. *)
Definition catalog : list pyclass :=
  [Morph; BorderedMorph; RectangleMorph; EllipseMorph; AlignmentMorph;
   StringMorph; UpdatingStringMorph; SimpleSliderMorph; SimpleButtonMorph;
   SampledSound; ImageMorph; SketchMorph; SensorBoardMorph;
   ScratchSpriteMorph; ScratchStageMorph; ChoiceArgMorph; ColorArgMorph;
   ExpressionArgMorph; SpriteArgMorph; BlockMorph; CommandBlockMorph;
   CBlockMorph; HatBlockMorph; ScratchScriptsMorph; ScratchSliderMorph;
   WatcherMorph; SetterBlockMorph; EventHatMorph; VariableBlockMorph;
   ImageMedia; MovieMedia; SoundMedia; KeyEventHatMorph; BooleanArgMorph;
   EventTitleMorph; MouseClickEventHatMorph; ExpressionArgMorphWithMenu;
   ReporterBlockMorph; MultilineStringMorph; ToggleButton;
   WatcherReadoutFrameMorph; WatcherSliderMorph; ScratchListMorph;
   ScrollingStringMorph].

(** *** Notions used in the statements about user objects *)

(** What the classes of the catalog have in common (see [catalog_wf]): no
    field is declared twice, none is called [version] or looks like a
    synthetic name, and [set_defaults] assigns declared fields only. *)
Definition wf_class (c : pyclass) : Prop :=
  NoDup (_fields c) ∧ ("version" ∉ _fields c) ∧
  Forall (λ n, String.prefix "undefined-" n = false) (_fields c) ∧
  Forall (λ a, a.1 ∈ _fields c) (set_defaults_body c).

#[global] Instance wf_class_dec c : Decision (wf_class c).
Proof. unfold wf_class. apply _. Defined.

(** A run of assignments [o.n = v], in order. *)
Definition assign_all (o : UserObject) (l : list (string * value)) : UserObject :=
  foldl (λ o a, __setattr__ o a.1 a.2) o l.

(** The names [__init__] gives to [m] raw values past the declared ones. *)
Definition extra_names (c : pyclass) (m : nat) : list string :=
  undefined_name <$> seq (length (_fields c)) m.

(** The store of [r] holds, besides declared fields, exactly the [m] extra
    fields that a raw list [m] values too long produces. *)
Definition has_extras (r : UserObject) (m : nat) : Prop :=
  Forall (λ key, key ∈ _fields (cls r) ∨ key ∈ extra_names (cls r) m)
         (map_to_list (fields r)).*1 ∧
  Forall (λ key, is_Some (fields r !! key)) (extra_names (cls r) m).

#[global] Instance has_extras_dec r m : Decision (has_extras r m).
Proof. unfold has_extras. apply _. Defined.

(** What the first loop of [ordered_fields] yields on a store [d]. *)
Definition declared_part (d : gmap string value) (names : list string)
  : list (string * value) :=
  (λ n, (n, default VNone (d !! n))) <$> names.

(** The extra fields of index [idx] of a store [d], with their values. *)
Definition extras_part (d : gmap string value) (idx : list nat)
  : list (string * value) :=
  (λ i, (undefined_name i, default VNone (d !! undefined_name i))) <$> idx.

(** The sort key of an entry whose name has one. *)
Definition key_of (x : string * value) : Z :=
  match suffix_key x with Ok z => z | Raise _ => 0%Z end.

(** The phases of [__init__], named: the object with every declared field
    [None]; after the two assignments to [version]; after [set_defaults];
    the names zipped with the raw values; the store after both [update]s;
    and the last [if], which takes [name] out of the store and assigns it. *)
Definition init_blank (c : pyclass) : UserObject :=
  {| cls := c;
     fields := update ∅ (zip (_fields c) (replicate (length (_fields c)) VNone));
     attrs := ∅ |}.

Definition init_versioned (c : pyclass) (args : gmap string value) : UserObject :=
  let self := __setattr__ (init_blank c) "version" (VInt (_version c)) in
  match args !! "version" with
  | Some v => __setattr__ self "version" v
  | None => self
  end.

Definition init_defaults (c : pyclass) (args : gmap string value) : UserObject :=
  set_defaults (init_versioned c args).

Definition defined_fields (c : pyclass) (raw : list value) : list string :=
  _fields c ++ (undefined_name <$> range (length (_fields c)) (length raw)).

Definition init_store (c : pyclass) (fv : option (list value))
    (args : gmap string value) : gmap string value :=
  delete "version" args ∪
  match fv with
  | Some raw => update (fields (init_defaults c args)) (zip (defined_fields c raw) raw)
  | None => fields (init_defaults c args)
  end.

Definition name_step (self : UserObject) : UserObject :=
  match fields self !! "name" with
  | Some name =>
      __setattr__ (set_fields self (delete "name" (fields self))) "name" name
  | None => self
  end.

(** The store of an object built from at least as many raw values as the
    class declares fields, with no named value other than [version]. *)
Definition raw_store (c : pyclass) (raw : list value) (args : gmap string value)
  : gmap string value :=
  update (fields (init_defaults c args)) (zip (defined_fields c raw) raw).

(** The names bound in the body of [class UserObject], with [fields] and
    [classID].  An instance attribute of such a name would stand in for the
    method, property or class attribute, and an assignment to one of the
    special names ([__class__], [__dict__], ...) changes the object itself:
    this model follows neither, so the statements about assignment and
    deletion are for the other names. *)
Definition class_names : list string :=
  ["_fields"; "_version"; "to_construct"; "_encode_field"; "from_construct";
   "_decode_field"; "set_defaults"; "built"; "ordered_fields"; "field_values";
   "fields"; "classID"].

Definition plain_name (n : string) : Prop :=
  (n ∉ class_names) ∧ String.prefix "__" n = false.

End UserObjects.

(** ** [kurt/plugin.py] *)

Module Plugin.
Import Py.

(** *** The project a workaround works on

    [kurt.Project] and the classes under it live in [kurt/__init__.py]; the
    workarounds read and write only the attributes kept here. *)

Module Image.
(** Modelled from the spec: [kurt.Image].  An image is either the contents of
    an image file in some format (["SVG"] for vector art) or the raster image
    that [kurt.Image.new(size, fill)] makes, [size] pixels of one colour,
    which has no file format. *)
Inductive t : Type :=
| File (format : string) (contents : string)
| New (size : Z * Z) (fill : Z * Z * Z).

Definition format (i : t) : option string :=
  match i with
  | File f _ => Some f
  | New _ _ => None
  end.
End Image.

Module Costume.
(** Modelled from the spec: [kurt.Costume], a named image. *)
Record t : Type := { name : string; image : Image.t }.
End Costume.

Module Scriptable.
(** Modelled from the spec: [kurt.Stage] and [kurt.Sprite], each with a name,
    costumes and namespaces of its own. *)
Record t : Type := {
  name : string;
  costumes : list Costume.t;
  variables : gmap string value;
  lists : gmap string value;
}.
End Scriptable.

Module Project.
(** Modelled from the spec: [kurt.Project], the stage, the sprites in order,
    and the global namespaces. *)
Record t : Type := {
  stage : Scriptable.t;
  sprites : list Scriptable.t;
  variables : gmap string value;
  lists : gmap string value;
}.
End Project.

(** [costume.image = img], for the costume at index [c]. *)
Definition set_costume_image (img : Image.t) (c : nat) (s : Scriptable.t)
  : Scriptable.t :=
  {| Scriptable.name := Scriptable.name s;
     Scriptable.costumes :=
       alter (λ co, {| Costume.name := Costume.name co; Costume.image := img |})
             c (Scriptable.costumes s);
     Scriptable.variables := Scriptable.variables s;
     Scriptable.lists := Scriptable.lists s |}.

(** [[project.stage] + project.sprites] *)
Definition scriptables (p : Project.t) : list Scriptable.t :=
  Project.stage p :: Project.sprites p.

(** The objects of a project are shared and mutable; here the scriptable at
    index [i] of [scriptables] and its costume at index [c] stand for the
    references the loops hold. *)
Definition set_image (img : Image.t) (i c : nat) (p : Project.t) : Project.t :=
  match i with
  | O =>
      {| Project.stage := set_costume_image img c (Project.stage p);
         Project.sprites := Project.sprites p;
         Project.variables := Project.variables p;
         Project.lists := Project.lists p |}
  | S j =>
      {| Project.stage := Project.stage p;
         Project.sprites := alter (set_costume_image img c) j (Project.sprites p);
         Project.variables := Project.variables p;
         Project.lists := Project.lists p |}
  end.

(** The costume at index [c] of the scriptable at index [i], with its owner. *)
Definition costume_at (p : Project.t) (i c : nat) : option (Scriptable.t * Costume.t) :=
  scriptables p !! i ≫= λ s, (λ co, (s, co)) <$> Scriptable.costumes s !! c.

(** [len(scriptable.costumes)] for the scriptable at index [i]. *)
Definition costume_count (p : Project.t) (i : nat) : nat :=
  from_option (λ s, length (Scriptable.costumes s)) 0%nat (scriptables p !! i).

(** *** Generators

    A generator object is the rest of a computation: resumed on the current
    project it runs to its next [yield], handing over a label, or to its end
    ([StopIteration]).  Either way it leaves the project as mutated so far. *)
Inductive gen : Type :=
| Gen (resume : Project.t → step)
with step : Type :=
| Yielded (label : string) (g : gen) (p : Project.t)
| Stopped (p : Project.t).

(** [g.next()] *)
Definition next (g : gen) (p : Project.t) : step :=
  match g with Gen resume => resume p end.

(** What a caller sees who takes every label and does nothing to the project
    in between: each label with the project as it is at that moment, then the
    project left at the end. *)
Fixpoint trace (g : gen) (p : Project.t) : list (string * Project.t) * Project.t :=
  match g with
  | Gen resume =>
      match resume p with
      | Yielded label g' p' => let r := trace g' p' in ((label, p') :: r.1, r.2)
      | Stopped p' => ([], p')
      end
  end.

(** [list(g)]: the labels, and the project afterwards. *)
Definition drain (g : gen) (p : Project.t) : list string * Project.t :=
  let r := trace g p in (r.1.*1, r.2).

(** A caller who stops early: at most [n] calls of [g.next()], the labels
    they return and the project as the last call leaves it. *)
Fixpoint take_labels (n : nat) (g : gen) (p : Project.t)
  : list string * Project.t :=
  match n with
  | O => ([], p)
  | S n' =>
      match next g p with
      | Yielded label g' p' =>
          let r := take_labels n' g' p' in (label :: r.1, r.2)
      | Stopped p' => ([], p')
      end
  end.

(** *** Features *)

Module Feature.
(** A [Feature]: [workaround] is the generator function that [__call__]
    stores, or the one of the class, which yields nothing. *)
Record t : Type := {
  name : string;
  description : string;
  workaround : gen;
}.
End Feature.

(** [def workaround(self, project): if False: yield] *)
Definition default_workaround : gen := Gen (λ p, Stopped p).

(** The two constants of the Vector Images workaround. *)
Definition RED : Z * Z * Z := (255, 0, 0)%Z.
Definition PLACEHOLDER : Image.t := Image.New (32, 32)%Z RED.

(** ["%s - %s" % (scriptable.name, costume.name)] *)
Definition costume_label (s : Scriptable.t) (co : Costume.t) : string :=
  Scriptable.name s +:+ " - " +:+ Costume.name co.

(** The inner loop of the Vector Images workaround, over the indices [cs] of
    the costumes of scriptable [i] still to visit.  The assignment after the
    [yield] runs when the generator is resumed. *)
Fixpoint costume_loop (i : nat) (cs : list nat) (rest : Project.t → step)
    (p : Project.t) : step :=
  match cs with
  | [] => rest p
  | c :: cs' =>
      match costume_at p i c with
      | Some (scriptable, costume) =>
          if bool_decide (Image.format (Costume.image costume) = Some "SVG")
          then Yielded (costume_label scriptable costume)
                 (Gen (λ p', costume_loop i cs' rest (set_image PLACEHOLDER i c p')))
                 p
          else costume_loop i cs' rest p
      | None => costume_loop i cs' rest p
      end
  end.

(** The outer loop, over the indices of [[project.stage] + project.sprites]. *)
Fixpoint scriptable_loop (scs : list nat) (p : Project.t) : step :=
  match scs with
  | [] => Stopped p
  | i :: scs' =>
      costume_loop i (seq 0 (costume_count p i)) (scriptable_loop scs') p
  end.

(** The workaround of ["Vector Images"]. *)
Definition vector_images_workaround : gen :=
  Gen (λ p, scriptable_loop (seq 0 (length (scriptables p))) p).

(** A loop whose body is one [yield]. *)
Fixpoint yield_each (labels : list string) (rest : Project.t → step)
    (p : Project.t) : step :=
  match labels with
  | [] => rest p
  | label :: labels' => Yielded label (Gen (yield_each labels' rest)) p
  end.

(** The four statements after the loops. *)
Definition make_global (p : Project.t) : Project.t :=
  {| Project.stage :=
       {| Scriptable.name := Scriptable.name (Project.stage p);
          Scriptable.costumes := Scriptable.costumes (Project.stage p);
          Scriptable.variables := ∅;
          Scriptable.lists := ∅ |};
     Project.sprites := Project.sprites p;
     Project.variables :=
       Scriptable.variables (Project.stage p) ∪ Project.variables p;
     Project.lists := Scriptable.lists (Project.stage p) ∪ Project.lists p |}.

(** The workaround of ["Stage-specific Variables"]. *)
Definition stage_variables_workaround : gen :=
  Gen (λ p,
    yield_each
      ((λ nv, "variable " +:+ nv.1) <$>
         map_to_list (Scriptable.variables (Project.stage p)))
      (λ p,
         yield_each
           ((λ nl, "list " +:+ nl.1) <$>
              map_to_list (Scriptable.lists (Project.stage p)))
           (λ p, Stopped (make_global p)) p)
      p).

(** The three features the module declares. *)
Definition Vector_Images : Feature.t :=
  {| Feature.name := "Vector Images";
     Feature.description := "Allow vector format (SVG) image files for costumes.";
     Feature.workaround := vector_images_workaround |}.

Definition Stage_specific_Variables : Feature.t :=
  {| Feature.name := "Stage-specific Variables";
     Feature.description :=
       "Can have stage-specific variables and lists, in addition to global
        variables and lists (which are stored on the :class:`Project`).";
     Feature.workaround := stage_variables_workaround |}.

Definition Custom_Blocks : Feature.t :=
  {| Feature.name := "Custom Blocks";
     Feature.description :=
       "Blocks accept :class:`CustomBlockType` objects for
        their :attr:`type`.";
     Feature.workaround := default_workaround |}.

(** [Feature.FEATURES] once the module is loaded. *)
Definition FEATURES0 : gmap string Feature.t :=
  <[Feature.name Custom_Blocks := Custom_Blocks]>
    (<[Feature.name Stage_specific_Variables := Stage_specific_Variables]>
       (<[Feature.name Vector_Images := Vector_Images]> ∅)).

(** *** Blocks *)

Module TranslatedBlockType.
(** Modelled from the spec: [kurt.TranslatedBlockType], one format's
    translation of a block: its command and display text, the command of the
    block it declares itself a translation of ([_match], if any), and the
    name of its format, which [Kurt.register] fills in. *)
Record t : Type := {
  command : string;
  text : string;
  _match : option string;
  format : string;
}.

Definition set_format (name : string) (tbt : t) : t :=
  {| command := command tbt; text := text tbt; _match := _match tbt;
     format := name |}.
End TranslatedBlockType.

Module BlockType.
(** Modelled from the spec: [kurt.BlockType], the canonical block: a mapping
    from format name to that format's translation. *)
Record t : Type := { _translations : gmap string TranslatedBlockType.t }.

(** Modelled from the spec: [BlockType(tbt)] makes a block from one
    definition, filed under the definition's format. *)
Definition new (tbt : TranslatedBlockType.t) : t :=
  {| _translations := {[ TranslatedBlockType.format tbt := tbt ]} |}.

(** Modelled from the spec: whether some translation of the block has this
    command.  The argument is [None] when it is an absent [_match]. *)
Definition has_command (bt : t) (command : option string) : bool :=
  match command with
  | Some c =>
      bool_decide (Exists (λ tbt, TranslatedBlockType.command tbt = c)
                     (map_to_list (_translations bt)).*2)
  | None => false
  end.

(** Modelled from the spec: attach a format's translation to the block. *)
Definition _add_translation (bt : t) (name : string) (tbt : TranslatedBlockType.t) : t :=
  {| _translations := <[name := tbt]> (_translations bt) |}.
End BlockType.

(** *** Plugins and the registry *)

(** An entry of a plugin's [features] list: a name before registration, the
    [Feature] itself afterwards. *)
Inductive feature_ref : Type :=
| FeatureName (name : string)
| FeatureObj (f : Feature.t).

Module KurtPlugin.
Record t : Type := {
  name : string;
  display_name : string;
  extension : string;
  features : list feature_ref;
  blocks : list (option TranslatedBlockType.t);
}.

(** [plugin.features = fs] *)
Definition set_features (fs : list feature_ref) (p : t) : t :=
  {| name := name p; display_name := display_name p; extension := extension p;
     features := fs; blocks := blocks p |}.

(** [tbt.format = plugin.name] for every block that is not [None]: the
    blocks are shared objects, so the plugin's list shows the change. *)
Definition fix_blocks (p : t) : t :=
  {| name := name p; display_name := display_name p; extension := extension p;
     features := features p;
     blocks :=
       List.map (option_map (TranslatedBlockType.set_format (name p))) (blocks p) |}.
End KurtPlugin.

(** The class attributes [Kurt.plugins] (an [OrderedDict]) and [Kurt.blocks],
    with [Feature.FEATURES]. *)
Record Kurt : Type := {
  plugins : list (string * KurtPlugin.t);
  blocks : list BlockType.t;
  FEATURES : gmap string Feature.t;
}.

(** [d[key] = v] on an [OrderedDict]: a key already there keeps its place. *)
Fixpoint odict_set {A} (d : list (string * A)) (key : string) (v : A)
  : list (string * A) :=
  match d with
  | [] => [(key, v)]
  | (k, w) :: d' =>
      if bool_decide (k = key) then (key, v) :: d' else (k, w) :: odict_set d' key v
  end.

(** [Feature.get] *)
Definition Feature_get (table : gmap string Feature.t) (name : feature_ref)
  : result Feature.t :=
  match name with
  | FeatureObj f => Ok f
  | FeatureName s =>
      match table !! s with
      | Some f => Ok f
      | None => Raise (KeyError s)
      end
  end.

(** [map(f, l)] for an [f] that may raise: eager, left to right. *)
Fixpoint map_result {A B} (f : A → result B) (l : list A) : result (list B) :=
  match l with
  | [] => Ok []
  | x :: l' => bind (f x) (λ y, bind (map_result f l') (λ ys, Ok (y :: ys)))
  end.

(** [repr] of a string with no quote, backslash or control character. *)
Definition repr (s : string) : string := "'" +:+ s +:+ "'".

(** The truth value of [tbt._match]. *)
Definition truthy_match (m : option string) : bool :=
  match m with
  | Some (String _ _) => true
  | _ => false
  end.

(** The [for bt in cls.blocks] loop: [Some] is the list after the [break],
    [None] the [else] branch. *)
Fixpoint merge_translation (bs : list BlockType.t) (name : string)
    (tbt : TranslatedBlockType.t) : option (list BlockType.t) :=
  match bs with
  | [] => None
  | bt :: bs' =>
      if BlockType.has_command bt (Some (TranslatedBlockType.command tbt)) ||
         BlockType.has_command bt (TranslatedBlockType._match tbt)
      then Some (BlockType._add_translation bt name tbt :: bs')
      else cons bt <$> merge_translation bs' name tbt
  end.

(** The [for tbt in new_blocks] loop.  An exception leaves [cls.blocks] as
    the blocks before it have made it. *)
Fixpoint add_blocks (bs : list BlockType.t) (name : string)
    (new_blocks : list TranslatedBlockType.t) : list BlockType.t * result () :=
  match new_blocks with
  | [] => (bs, Ok ())
  | tbt :: new_blocks' =>
      match merge_translation bs name tbt with
      | Some bs' => add_blocks bs' name new_blocks'
      | None =>
          if truthy_match (TranslatedBlockType._match tbt)
          then (bs, Raise (ValueError
                  ("Couldn't match " +:+
                   repr (default EmptyString (TranslatedBlockType._match tbt)))))
          else add_blocks (bs ++ [BlockType.new tbt])%list name new_blocks'
      end
  end.

(** [Kurt.register(plugin)]: the state it leaves, and whether it raised. *)
Definition register (plugin : KurtPlugin.t) (st : Kurt) : Kurt * result () :=
  match map_result (Feature_get (FEATURES st)) (KurtPlugin.features plugin) with
  | Raise e =>
      ({| plugins := odict_set (plugins st) (KurtPlugin.name plugin) plugin;
          blocks := blocks st; FEATURES := FEATURES st |}, Raise e)
  | Ok fs =>
      let plugin :=
        KurtPlugin.fix_blocks (KurtPlugin.set_features (FeatureObj <$> fs) plugin) in
      let new_blocks := omap id (KurtPlugin.blocks plugin) in
      let r := add_blocks (blocks st) (KurtPlugin.name plugin) new_blocks in
      ({| plugins := odict_set (plugins st) (KurtPlugin.name plugin) plugin;
          blocks := r.1; FEATURES := FEATURES st |}, r.2)
  end.

(** The first argument of [get_plugin]. *)
Inductive name_arg : Type :=
| NoName
| NameStr (s : string)
| NamePlugin (p : KurtPlugin.t).

(** What [getattr(plugin, name)] gives: a string, or an object that no
    string equals (a list or a bound method). *)
Inductive attr : Type :=
| AStr (s : string)
| AObject.

(** [getattr(plugin, name)] for a plugin that adds no attribute to those of
    [KurtPlugin]; the names every Python object has are left out. *)
Definition plugin_getattr (p : KurtPlugin.t) (name : string) : result attr :=
  if bool_decide (name = "name") then Ok (AStr (KurtPlugin.name p))
  else if bool_decide (name = "display_name") then Ok (AStr (KurtPlugin.display_name p))
  else if bool_decide (name = "extension") then Ok (AStr (KurtPlugin.extension p))
  else if bool_decide (name ∈ ["features"; "blocks"; "make_blocks"; "load"; "save"])
  then Ok AObject
  else Raise (AttributeError name).

(** The [for name in kwargs] loop: [true] is its [else] branch. *)
Fixpoint matches (p : KurtPlugin.t) (criteria : list (string * string))
  : result bool :=
  match criteria with
  | [] => Ok true
  | (name, v) :: criteria' =>
      bind (plugin_getattr p name) (λ a,
        match a with
        | AStr s => if bool_decide (s = v) then matches p criteria' else Ok false
        | AObject => Ok false
        end)
  end.

(** The [for plugin in cls.plugins.values()] loop. *)
Fixpoint scan (ps : list KurtPlugin.t) (criteria : list (string * string))
  : result KurtPlugin.t :=
  match ps with
  | [] => Raise (ValueError "Unknown format")
  | p :: ps' =>
      bind (matches p criteria) (λ b, if b then Ok p else scan ps' criteria)
  end.

(** The criteria as the scan sees them. *)
Definition criteria (name : name_arg) (kwargs : gmap string string)
  : gmap string string :=
  let kwargs :=
    match kwargs !! "extension" with
    | Some e => <["extension" := lower e]> kwargs
    | None => kwargs
    end in
  match name with
  | NameStr (String c s) => <["name" := String c s]> kwargs
  | _ => kwargs
  end.

(** [Kurt.get_plugin(name, **kwargs)] *)
Definition get_plugin (st : Kurt) (name : name_arg) (kwargs : gmap string string)
  : result KurtPlugin.t :=
  match name with
  | NamePlugin p => Ok p
  | _ =>
      let kwargs := criteria name kwargs in
      if bool_decide (kwargs = ∅) then Raise (ValueError "No arguments")
      else scan (plugins st).*2 (map_to_list kwargs)
  end.

(** [Kurt.block_by_command(command)]; [None] when no block has it. *)
Definition block_by_command (st : Kurt) (command : string) : option BlockType.t :=
  list_find (λ bt, BlockType.has_command bt (Some command) = true) (blocks st)
    ≫= λ ib, Some ib.2.

(** [Kurt.blocks_by_text(text)].  [BlockType._strip_text] and the
    [stripped_text] of a translation are defined in [kurt/__init__.py]; the
    two loops are kept here for any such pair of functions. *)

(** The inner loop, over [block._translations.values()]: [true] is its
    [break]. *)
Fixpoint text_loop (stripped_text : TranslatedBlockType.t → string)
    (tbts : list TranslatedBlockType.t) (text : string) : bool :=
  match tbts with
  | [] => false
  | tbt :: tbts' =>
      if bool_decide (stripped_text tbt = text) then true
      else text_loop stripped_text tbts' text
  end.

(** The outer loop, over [cls.blocks]; [matched] is the list [matches]. *)
Fixpoint blocks_loop (stripped_text : TranslatedBlockType.t → string)
    (bs : list BlockType.t) (text : string) (matched : list BlockType.t)
  : list BlockType.t :=
  match bs with
  | [] => matched
  | block :: bs' =>
      blocks_loop stripped_text bs' text
        (if text_loop stripped_text
              (map_to_list (BlockType._translations block)).*2 text
         then (matched ++ [block])%list else matched)
  end.

Definition blocks_by_text (_strip_text : string → string)
    (stripped_text : TranslatedBlockType.t → string) (st : Kurt) (text : string)
  : list BlockType.t :=
  let text := _strip_text text in
  blocks_loop stripped_text (blocks st) text [].

(** The registry before any plugin is registered. *)
Definition Kurt0 : Kurt := {| plugins := []; blocks := []; FEATURES := FEATURES0 |}.

(** *** Notions used in the statements about the registry and the workarounds *)

(** [costume.image.format == "SVG"] for the costume at that position. *)
Definition is_svg (p : Project.t) (i c : nat) : bool :=
  match costume_at p i c with
  | Some (_, co) => bool_decide (Image.format (Costume.image co) = Some "SVG")
  | None => false
  end.

(** The label the Vector Images workaround has for that position. *)
Definition label_at (p : Project.t) (i c : nat) : string :=
  match costume_at p i c with
  | Some (s, co) => costume_label s co
  | None => EmptyString
  end.

(** The positions of the vector costumes of the scriptables [scs], in the
    order the loops visit them. *)
Definition svg_positions_in (p : Project.t) (scs : list nat) : list (nat * nat) :=
  scs ≫= λ i,
    (λ c, (i, c)) <$>
      filter (λ c, is_svg p i c = true) (seq 0 (costume_count p i)).

(** The positions of all vector costumes of a project: stage first. *)
Definition svg_positions (p : Project.t) : list (nat * nat) :=
  svg_positions_in p (seq 0 (length (scriptables p))).

(** The project once the costumes at the given positions are placeholders. *)
Definition replace_all (ps : list (nat * nat)) (p : Project.t) : Project.t :=
  foldl (λ q pos, set_image PLACEHOLDER pos.1 pos.2 q) p ps.

(** The labels for the given positions, each with the project as it is when
    the label is handed over: the costumes before it replaced, its own not. *)
Fixpoint steps (p : Project.t) (ps : list (nat * nat)) : list (string * Project.t) :=
  match ps with
  | [] => []
  | pos :: ps' =>
      (label_at p pos.1 pos.2, p) :: steps (set_image PLACEHOLDER pos.1 pos.2 p) ps'
  end.

(** The labels of the Stage-specific Variables workaround. *)
Definition stage_labels (p : Project.t) : list string :=
  ((λ nv, "variable " +:+ nv.1) <$>
     map_to_list (Scriptable.variables (Project.stage p)))
  ++ ((λ nl, "list " +:+ nl.1) <$>
        map_to_list (Scriptable.lists (Project.stage p))).

(** The attribute names of [KurtPlugin] that [plugin_getattr] knows. *)
Definition plugin_attrs : list string :=
  ["name"; "display_name"; "extension"; "features"; "blocks"; "make_blocks";
   "load"; "save"].

(** [p] has every queried attribute equal to the criterion. *)
Definition satisfies (p : KurtPlugin.t) (crit : gmap string string) : Prop :=
  ∀ k v, crit !! k = Some v → plugin_getattr p k = Ok (AStr v).

(** Every plugin of the registry is filed under its own name, and no name
    is there twice. *)
Definition registry_ok (st : Kurt) : Prop :=
  Forall (λ kp, kp.1 = KurtPlugin.name kp.2) (plugins st) ∧ NoDup (plugins st).*1.

(** The plugin object as [register] leaves it: with its features resolved
    and its blocks stamped when every feature resolves, as it was given when
    the resolution raises. *)
Definition stored_plugin (plugin : KurtPlugin.t) (st : Kurt) : KurtPlugin.t :=
  match map_result (Feature_get (FEATURES st)) (KurtPlugin.features plugin) with
  | Ok fs => KurtPlugin.fix_blocks (KurtPlugin.set_features (FeatureObj <$> fs) plugin)
  | Raise _ => plugin
  end.

(** A project with every vector image replaced by the placeholder. *)
Definition degrade_costume (co : Costume.t) : Costume.t :=
  if bool_decide (Image.format (Costume.image co) = Some "SVG")
  then {| Costume.name := Costume.name co; Costume.image := PLACEHOLDER |}
  else co.

Definition degrade_scriptable (s : Scriptable.t) : Scriptable.t :=
  {| Scriptable.name := Scriptable.name s;
     Scriptable.costumes := degrade_costume <$> Scriptable.costumes s;
     Scriptable.variables := Scriptable.variables s;
     Scriptable.lists := Scriptable.lists s |}.

Definition degrade (p : Project.t) : Project.t :=
  {| Project.stage := degrade_scriptable (Project.stage p);
     Project.sprites := degrade_scriptable <$> Project.sprites p;
     Project.variables := Project.variables p;
     Project.lists := Project.lists p |}.

End Plugin.

(** * Concrete objects

    The inputs at which the statements below are exercised. *)

Module Examples.
Import Py UserObjects Plugin.

(** A [Morph] read from eight raw values, two more than the class declares. *)
Definition morph8 : UserObject :=
  __init__ Morph
    (Some [VInt 1; VInt 2; VInt 3; VInt 4; VInt 5; VInt 6; VStr "x"; VStr "y"]) ∅.

(** Nine raw values for a [Morph], and assignments made afterwards. *)
Definition morph9_raw : list value :=
  [VInt 1; VInt 2; VInt 3; VInt 4; VInt 5; VInt 6; VStr "x"; VStr "y"; VStr "z"].

Definition morph_sets : list (string * value) :=
  [("undefined-8", VInt 0); ("flags", VInt 7); ("undefined-6", VNone);
   ("bounds", VNone)].

(** [Morph(costume=1)]: a named value under a name [Morph] does not declare. *)
Definition morph_named : UserObject := __init__ Morph None {[ "costume" := VInt 1 ]}.

(** [Morph([1, 2])]: fewer raw values than declared fields. *)
Definition morph_short : UserObject := __init__ Morph (Some [VInt 1; VInt 2]) ∅.

Definition move_block : TranslatedBlockType.t :=
  {| TranslatedBlockType.command := "move";
     TranslatedBlockType.text := "move %n steps";
     TranslatedBlockType._match := None;
     TranslatedBlockType.format := EmptyString |}.

Definition forward_block : TranslatedBlockType.t :=
  {| TranslatedBlockType.command := "forward:";
     TranslatedBlockType.text := "forward %n";
     TranslatedBlockType._match := Some "move";
     TranslatedBlockType.format := EmptyString |}.

Definition plugin_a : KurtPlugin.t :=
  {| KurtPlugin.name := "a"; KurtPlugin.display_name := "Format A";
     KurtPlugin.extension := ".a";
     KurtPlugin.features := [FeatureName "Vector Images"];
     KurtPlugin.blocks := [Some move_block] |}.

Definition plugin_b : KurtPlugin.t :=
  {| KurtPlugin.name := "b"; KurtPlugin.display_name := "Format B";
     KurtPlugin.extension := ".b";
     KurtPlugin.features := [];
     KurtPlugin.blocks := [Some forward_block] |}.

(** A plugin whose extension is written in upper case. *)
Definition plugin_upper : KurtPlugin.t :=
  {| KurtPlugin.name := "upper"; KurtPlugin.display_name := "Upper";
     KurtPlugin.extension := ".SB";
     KurtPlugin.features := [];
     KurtPlugin.blocks := [] |}.

(** A plugin that names a feature nobody has declared. *)
Definition plugin_unknown_feature : KurtPlugin.t :=
  {| KurtPlugin.name := "c"; KurtPlugin.display_name := "Format C";
     KurtPlugin.extension := ".c";
     KurtPlugin.features := [FeatureName "Vector Images"; FeatureName "Sound"];
     KurtPlugin.blocks := [Some move_block] |}.

Definition registry_a : Kurt := (register plugin_a Kurt0).1.
Definition registry_ab : Kurt := (register plugin_b registry_a).1.
(** The two plugins as registration leaves them: features resolved, blocks
    stamped with the format name. *)
Definition registered_a : KurtPlugin.t :=
  KurtPlugin.fix_blocks
    (KurtPlugin.set_features [FeatureObj Vector_Images] plugin_a).

Definition registered_b : KurtPlugin.t :=
  KurtPlugin.fix_blocks (KurtPlugin.set_features [] plugin_b).

Definition registry_upper : Kurt := (register plugin_upper Kurt0).1.

Definition backdrop : Costume.t :=
  {| Costume.name := "backdrop1"; Costume.image := Image.File "PNG" "png bytes" |}.

Definition vector_costume : Costume.t :=
  {| Costume.name := "costume1"; Costume.image := Image.File "SVG" "<svg/>" |}.

Definition vector_costume2 : Costume.t :=
  {| Costume.name := "costume2"; Costume.image := Image.File "SVG" "<svg/>" |}.

Definition plain_stage : Scriptable.t :=
  {| Scriptable.name := "Stage"; Scriptable.costumes := [backdrop];
     Scriptable.variables := ∅; Scriptable.lists := ∅ |}.

Definition sprite1 : Scriptable.t :=
  {| Scriptable.name := "Sprite1"; Scriptable.costumes := [vector_costume];
     Scriptable.variables := ∅; Scriptable.lists := ∅ |}.

Definition sprite2 : Scriptable.t :=
  {| Scriptable.name := "Sprite2";
     Scriptable.costumes := [backdrop; vector_costume; vector_costume2];
     Scriptable.variables := ∅; Scriptable.lists := ∅ |}.

(** One sprite with one vector costume. *)
Definition vector_project : Project.t :=
  {| Project.stage := plain_stage; Project.sprites := [sprite1];
     Project.variables := ∅; Project.lists := ∅ |}.

(** One sprite with a raster costume and two vector costumes. *)
Definition vector_project2 : Project.t :=
  {| Project.stage := plain_stage; Project.sprites := [sprite2];
     Project.variables := ∅; Project.lists := ∅ |}.

Definition stage_a (v : value) : Scriptable.t :=
  {| Scriptable.name := "Stage"; Scriptable.costumes := [backdrop];
     Scriptable.variables := {[ "a" := v ]}; Scriptable.lists := ∅ |}.

(** Stage variables [{a: 1}], no global variable. *)
Definition hoist_project : Project.t :=
  {| Project.stage := stage_a (VInt 1); Project.sprites := [];
     Project.variables := ∅; Project.lists := ∅ |}.

(** Stage variables [{a: 1}] and a global [a] that is [5]. *)
Definition clash_project : Project.t :=
  {| Project.stage := stage_a (VInt 1); Project.sprites := [];
     Project.variables := {[ "a" := VInt 5 ]}; Project.lists := ∅ |}.




(** A sprite with variables of its own, and a project that has stage
    variables, stage lists, globals and a vector costume. *)
Definition sprite_with_variables : Scriptable.t :=
  {| Scriptable.name := "Sprite1"; Scriptable.costumes := [vector_costume];
     Scriptable.variables := {[ "speed" := VInt 3 ]}; Scriptable.lists := ∅ |}.

Definition stage_full : Scriptable.t :=
  {| Scriptable.name := "Stage"; Scriptable.costumes := [backdrop; vector_costume2];
     Scriptable.variables := {[ "a" := VInt 1; "b" := VInt 2 ]};
     Scriptable.lists := {[ "scores" := VList [] ]} |}.

Definition full_project : Project.t :=
  {| Project.stage := stage_full; Project.sprites := [sprite_with_variables];
     Project.variables := {[ "a" := VInt 5; "g" := VInt 7 ]};
     Project.lists := ∅ |}.

End Examples.

(** * Properties *)

Local Open Scope list_scope.

(** Settles a decidable statement about concrete objects by running its
    decision procedure. *)
Ltac by_computation := apply (bool_decide_unpack _); vm_compute; exact I.

Module PyFacts.
Import Py.

(** ** Decimal numerals: [int] reads what ["%i"] writes *)

Lemma all_digits_string_of_uint d : all_digits (NilEmpty.string_of_uint d) = true.
Proof. induction d; simpl; auto. Qed.

Lemma all_digits_fmt_i n : all_digits (fmt_i n) = true.
Proof.
  unfold fmt_i, NilZero.string_of_uint.
  destruct (Nat.to_uint n); try reflexivity; apply all_digits_string_of_uint.
Qed.

Lemma isdigit_not_sep c : isdigit c = true → Ascii.eqb c "-" = false.
Proof.
  destruct c as [[|] [|] [|] [|] [|] [|] [|] [|]]; vm_compute; congruence.
Qed.

Lemma isdigit_not_space c : isdigit c = true → isspace c = false.
Proof.
  destruct c as [[|] [|] [|] [|] [|] [|] [|] [|]]; vm_compute; congruence.
Qed.

Lemma split_digits s : all_digits s = true → split "-" s = [s].
Proof.
  induction s as [|c s IH]; simpl; [done|].
  intros [Hc Hs]%andb_prop. rewrite (isdigit_not_sep c Hc), (IH Hs). done.
Qed.

Lemma lstrip_digits s : all_digits s = true → lstrip s = s.
Proof.
  destruct s as [|c s]; simpl; [done|].
  intros [Hc _]%andb_prop. by rewrite (isdigit_not_space c Hc).
Qed.

Lemma rstrip_digits s : all_digits s = true → rstrip s = s.
Proof.
  induction s as [|c s IH]; simpl; [done|].
  intros [Hc Hs]%andb_prop. rewrite (IH Hs), (isdigit_not_space c Hc).
  by destruct s.
Qed.

Lemma to_uint_nonnil n : Nat.to_uint n ≠ Decimal.Nil.
Proof.
  rewrite <- (DecimalNat.Unsigned.of_to n), DecimalNat.Unsigned.to_of.
  apply unorm_nonnil.
Qed.

Lemma py_int_fmt_i n : py_int (fmt_i n) = Some (Z.of_nat n).
Proof.
  pose proof (all_digits_fmt_i n) as Hd.
  unfold py_int. rewrite (lstrip_digits _ Hd).
  assert (match fmt_i n with
          | String "+" r => (false, r)
          | String "-" r => (true, r)
          | _ => (false, fmt_i n)
          end = (false, fmt_i n)) as ->.
  { destruct (fmt_i n) as [|c s]; [done|].
    simpl in Hd. apply andb_prop in Hd as [Hc _].
    destruct c as [[|] [|] [|] [|] [|] [|] [|] [|]]; try done; by vm_compute in Hc. }
  rewrite (lstrip_digits _ Hd), (rstrip_digits _ Hd).
  unfold fmt_i. rewrite NilZero.usu by apply to_uint_nonnil.
  by rewrite DecimalNat.Unsigned.of_to.
Qed.

(** ** The stable sort *)

Lemma insert_by_key_perm {A} (x : Z * A) l : insert_by_key x l ≡ₚ x :: l.
Proof.
  induction l as [|y l IH]; simpl; [done|].
  destruct (x.1 <=? y.1)%Z; [done|].
  rewrite IH. apply Permutation_swap.
Qed.

Lemma sort_by_key_perm {A} (l : list (Z * A)) : sort_by_key l ≡ₚ l.
Proof.
  induction l as [|x l IH]; simpl; [done|].
  by rewrite insert_by_key_perm, IH.
Qed.

Lemma insert_by_key_sorted {A} (x : Z * A) l :
  StronglySorted key_le l → StronglySorted key_le (insert_by_key x l).
Proof.
  induction 1 as [|y l Hl IH Hy]; simpl.
  { repeat constructor. }
  destruct (Z.leb_spec x.1 y.1) as [Hle|Hgt].
  - constructor; [by constructor|].
    constructor; [done|].
    eapply Forall_impl; [exact Hy|]. unfold key_le. intros z Hz. lia.
  - constructor; [done|].
    rewrite insert_by_key_perm. constructor; [|done].
    unfold key_le. lia.
Qed.

Lemma sort_by_key_sorted {A} (l : list (Z * A)) :
  StronglySorted key_le (sort_by_key l).
Proof.
  induction l as [|x l IH]; simpl; [constructor|].
  by apply insert_by_key_sorted.
Qed.

Lemma NoDup_fmap_eq {A B} (f : A → B) (l : list A) x y :
  NoDup (f <$> l) → x ∈ l → y ∈ l → f x = f y → x = y.
Proof.
  induction l as [|a l IH]; simpl; [by intros _ ?%elem_of_nil|].
  intros [Hnotin Hnd]%NoDup_cons Hx Hy Hxy.
  apply elem_of_cons in Hx as [->|Hx]; apply elem_of_cons in Hy as [->|Hy];
    [done| | |by apply IH].
  - destruct Hnotin. rewrite Hxy. by apply list_elem_of_fmap_2.
  - destruct Hnotin. rewrite <- Hxy. by apply list_elem_of_fmap_2.
Qed.

(** With pairwise distinct keys the result of the sort is the one sorted
    arrangement of its input. *)
Lemma sort_by_key_unique {A} (l l' : list (Z * A)) :
  NoDup (l.*1) → l' ≡ₚ l → StronglySorted key_le l' → sort_by_key l = l'.
Proof.
  intros Hnd Hperm Hsorted.
  apply (StronglySorted_unique_strong key_le); [|apply sort_by_key_sorted|done|].
  - intros x1 x2 Hx1 Hx2 H12 H21.
    rewrite sort_by_key_perm in Hx1. rewrite Hperm in Hx2.
    apply (NoDup_fmap_eq fst l); [done..|]. unfold key_le in *. lia.
  - by rewrite sort_by_key_perm.
Qed.

(** ** [sorted] with a key that may raise *)

Lemma keyed_ok {A} (key : A → result Z) (f : A → Z) l :
  (∀ x, x ∈ l → key x = Ok (f x)) →
  keyed key l = Ok ((λ x, (f x, x)) <$> l).
Proof.
  induction l as [|x l IH]; simpl; [done|]. intros H.
  rewrite (H x) by left. simpl.
  rewrite IH by (intros; apply H; by right). done.
Qed.

Lemma keyed_raise {A} (key : A → result Z) l x e :
  x ∈ l → key x = Raise e →
  ∃ y e', y ∈ l ∧ key y = Raise e' ∧ keyed key l = Raise e'.
Proof.
  induction l as [|a l IH]; simpl; [by intros ?%elem_of_nil|].
  intros Hx Hkey. destruct (key a) as [k|e0] eqn:Ha; simpl.
  - apply elem_of_cons in Hx as [->|Hx]; [congruence|].
    destruct (IH Hx Hkey) as (y & e' & Hy & Hy' & ->).
    exists y, e'. split; [by right|done].
  - exists a, e0. split; [by left|done].
Qed.

Lemma sorted_unique {A} (key : A → result Z) (f : A → Z) (l l' : list A) :
  (∀ x, x ∈ l → key x = Ok (f x)) →
  NoDup (f <$> l) → l' ≡ₚ l →
  StronglySorted (λ a b, (f a ≤ f b)%Z) l' →
  sorted key l = Ok l'.
Proof.
  intros Hkey Hnd Hperm Hsorted. unfold sorted.
  rewrite (keyed_ok key f l Hkey). simpl. f_equal.
  rewrite (sort_by_key_unique _ ((λ x, (f x, x)) <$> l')).
  - rewrite <- list_fmap_compose. apply list_fmap_id.
  - by rewrite <- list_fmap_compose.
  - by rewrite Hperm.
  - eapply StronglySorted_fmap; [|exact Hsorted]. by intros x y Hxy.
Qed.

(** ** [dict.update] *)

Lemma update_lookup_notin d pairs (k : string) :
  k ∉ pairs.*1 → update d pairs !! k = d !! k.
Proof.
  unfold update. revert d.
  induction pairs as [|[k' v] pairs IH]; intros d Hk; simpl in *; [done|].
  apply not_elem_of_cons in Hk as [Hne Hk].
  rewrite IH by done. by rewrite lookup_insert_ne.
Qed.

Lemma update_lookup_zip d (ks : list string) vs i k v :
  NoDup ks → ks !! i = Some k → vs !! i = Some v →
  update d (zip ks vs) !! k = Some v.
Proof.
  unfold update, zip. revert d vs i.
  induction ks as [|k0 ks IH]; intros d vs i Hnd Hk Hv; [done|].
  apply NoDup_cons in Hnd as [Hnotin Hnd].
  destruct vs as [|v0 vs]; [done|]. simpl.
  destruct i as [|i]; simpl in *.
  - simplify_eq.
    change (update (<[k:=v]> d) (zip ks vs) !! k = Some v).
    rewrite update_lookup_notin; [by rewrite lookup_insert_eq|].
    intros Hin. apply Hnotin.
    apply list_elem_of_fmap in Hin as ([a b] & -> & Hin).
    by apply elem_of_zip_l in Hin.
  - by eapply IH.
Qed.

Lemma update_is_Some d pairs (k : string) :
  is_Some (d !! k) → is_Some (update d pairs !! k).
Proof.
  unfold update. revert d.
  induction pairs as [|[k' v] pairs IH]; intros d Hk; simpl; [done|].
  apply IH. destruct (decide (k' = k)) as [->|].
  - rewrite lookup_insert_eq. eauto.
  - by rewrite lookup_insert_ne.
Qed.

Lemma update_lookup_Some d pairs (k : string) :
  is_Some (update d pairs !! k) → is_Some (d !! k) ∨ k ∈ pairs.*1.
Proof.
  destruct (decide (k ∈ pairs.*1)); [by right|].
  rewrite update_lookup_notin by done. by left.
Qed.

End PyFacts.

Module UserObjectFacts.
Import Py UserObjects PyFacts.

(** ** The catalog *)

Lemma catalog_wf : Forall wf_class catalog.
Proof. by_computation. Qed.

(** ** Synthetic names *)

Lemma prefix_nil s : String.prefix EmptyString s = true.
Proof. by destruct s. Qed.

Lemma undefined_name_prefix i : String.prefix "undefined-" (undefined_name i) = true.
Proof. unfold undefined_name. simpl. apply prefix_nil. Qed.

Lemma undefined_name_not_declared c i :
  wf_class c → undefined_name i ∉ _fields c.
Proof.
  intros (_ & _ & Hpre & _) Hin. rewrite Forall_forall in Hpre.
  specialize (Hpre _ Hin). by rewrite undefined_name_prefix in Hpre.
Qed.

Lemma suffix_key_undefined i v : suffix_key (undefined_name i, v) = Ok (Z.of_nat i).
Proof.
  unfold suffix_key, undefined_name. simpl.
  change (EmptyString +:+ fmt_i i) with (fmt_i i).
  rewrite (split_digits _ (all_digits_fmt_i i)). simpl.
  by rewrite py_int_fmt_i.
Qed.

#[global] Instance undefined_name_inj : Inj (=) (=) undefined_name.
Proof.
  intros i j Hij.
  pose proof (suffix_key_undefined i VNone) as Hi.
  rewrite Hij, suffix_key_undefined in Hi. simplify_eq. lia.
Qed.

(** ** Attribute assignment *)

Lemma setattr_cls o n v : cls (__setattr__ o n v) = cls o.
Proof. unfold __setattr__. by case_bool_decide. Qed.

Lemma setattr_declared o n v :
  n ∈ _fields (cls o) →
  __setattr__ o n v = set_fields o (<[n := v]> (fields o)).
Proof. intros Hn. unfold __setattr__. by rewrite bool_decide_eq_true_2. Qed.

Lemma setattr_other o n v :
  n ∉ _fields (cls o) →
  __setattr__ o n v = set_attrs o (<[n := v]> (attrs o)).
Proof. intros Hn. unfold __setattr__. by rewrite bool_decide_eq_false_2. Qed.

Lemma setattr_fields_lookup o n v k :
  fields (__setattr__ o n v) !! k =
  if decide (n = k ∧ n ∈ _fields (cls o)) then Some v else fields o !! k.
Proof.
  unfold __setattr__. case_bool_decide; simpl.
  - destruct (decide (n = k)) as [->|Hne].
    + rewrite lookup_insert_eq. by rewrite decide_True.
    + rewrite lookup_insert_ne by done. rewrite decide_False; [done|]. tauto.
  - rewrite decide_False; [done|]. tauto.
Qed.

Lemma setattr_fields_is_Some o n v k :
  is_Some (fields o !! k) → is_Some (fields (__setattr__ o n v) !! k).
Proof. rewrite setattr_fields_lookup. case_decide; eauto. Qed.

Lemma setattr_fields_dom o n v k :
  is_Some (fields (__setattr__ o n v) !! k) →
  is_Some (fields o !! k) ∨ k ∈ _fields (cls o).
Proof.
  rewrite setattr_fields_lookup. case_decide as H; [|by left].
  destruct H as [-> ?]. by right.
Qed.

Lemma assign_all_cls o l : cls (assign_all o l) = cls o.
Proof.
  unfold assign_all. revert o. induction l as [|a l IH]; intros o; simpl; [done|].
  by rewrite IH, setattr_cls.
Qed.

Lemma assign_all_is_Some o l k :
  is_Some (fields o !! k) → is_Some (fields (assign_all o l) !! k).
Proof.
  unfold assign_all. revert o. induction l as [|a l IH]; intros o; simpl; [done|].
  intros H. by apply IH, setattr_fields_is_Some.
Qed.

Lemma assign_all_dom o l k :
  is_Some (fields (assign_all o l) !! k) →
  is_Some (fields o !! k) ∨ k ∈ _fields (cls o).
Proof.
  unfold assign_all. revert o. induction l as [|a l IH]; intros o; simpl; [by left|].
  intros [H|H]%IH.
  - by apply setattr_fields_dom in H.
  - right. by rewrite setattr_cls in H.
Qed.

Lemma assign_all_attrs_version o l :
  "version" ∉ _fields (cls o) → Forall (λ a, a.1 ∈ _fields (cls o)) l →
  attrs (assign_all o l) = attrs o.
Proof.
  unfold assign_all. revert o. induction l as [|a l IH]; intros o Hv Hl; simpl; [done|].
  apply Forall_cons in Hl as [Ha Hl].
  rewrite IH; rewrite ?setattr_cls; [|done..].
  by rewrite setattr_declared.
Qed.

(** ** The first loop of [ordered_fields] *)

Lemma declared_loop_ok sf names f :
  NoDup names → (∀ n, n ∈ names → f !! n = sf !! n) →
  ∃ left, declared_loop sf names f = Ok (declared_part sf names, left) ∧
          (∀ k, k ∈ names → left !! k = None) ∧
          (∀ k, k ∉ names → left !! k = f !! k).
Proof.
  revert f. induction names as [|n names IH]; intros f Hnd Hf.
  { exists f. split; [done|]. split; [by intros k ?%elem_of_nil|done]. }
  apply NoDup_cons in Hnd as [Hn Hnd].
  pose proof (Hf n (list_elem_of_here _ _)) as Hfn.
  cbn [declared_loop declared_part fmap list_fmap].
  destruct (sf !! n) as [v|] eqn:Hsf.
  - rewrite Hfn. cbn [bind snd fst].
    destruct (IH (delete n f) Hnd) as (left & -> & Hin & Hout).
    { intros n' Hn'. rewrite lookup_delete_ne by (intros ->; done).
      apply Hf. by right. }
    exists left. split; [done|]. split.
    + intros k [->|Hk]%elem_of_cons; [|by apply Hin].
      rewrite Hout by done. apply lookup_delete_eq.
    + intros k [Hne Hk]%not_elem_of_cons.
      rewrite Hout by done. by rewrite lookup_delete_ne.
  - cbn [bind snd fst].
    destruct (IH f Hnd) as (left & -> & Hin & Hout).
    { intros n' Hn'. apply Hf. by right. }
    exists left. split; [done|]. split.
    + intros k [->|Hk]%elem_of_cons; [|by apply Hin].
      rewrite Hout by done. by rewrite Hfn.
    + intros k [Hne Hk]%not_elem_of_cons. by apply Hout.
Qed.

(** Without the assumption on the names the loop may stop on a [KeyError],
    but when it ends it leaves every undeclared entry where it was. *)
Lemma declared_loop_left sf names f dl :
  declared_loop sf names f = Ok dl →
  ∀ k, k ∉ names → dl.2 !! k = f !! k.
Proof.
  revert f dl. induction names as [|n names IH]; intros f dl; simpl.
  { by intros [= <-]. }
  intros H k [Hne Hk]%not_elem_of_cons.
  destruct (sf !! n) as [v|]; simpl in H.
  - destruct (f !! n) as [w|] eqn:Hfn; simpl in H; [|done].
    destruct (declared_loop sf names (delete n f)) as [rl|] eqn:Hrec; simpl in H; [|done].
    simplify_eq. simpl. rewrite (IH _ _ Hrec) by done. by rewrite lookup_delete_ne.
  - destruct (declared_loop sf names f) as [rl|] eqn:Hrec; simpl in H; [|done].
    simplify_eq. simpl. by rewrite (IH _ _ Hrec).
Qed.

(** ** [ordered_fields] on a store whose extra fields are synthetic *)

Lemma key_of_undefined i v : key_of (undefined_name i, v) = Z.of_nat i.
Proof. unfold key_of. by rewrite suffix_key_undefined. Qed.

Lemma StronglySorted_lt_NoDup (l : list nat) : StronglySorted lt l → NoDup l.
Proof.
  induction 1 as [|x l Hl IH Hx]; constructor; [|done].
  intros Hin. rewrite Forall_forall in Hx. specialize (Hx _ Hin). lia.
Qed.

Lemma StronglySorted_lt_seq k m : StronglySorted lt (seq k m).
Proof.
  revert k. induction m as [|m IH]; intros k; simpl; constructor; [apply IH|].
  apply Forall_forall. intros i Hi%elem_of_seq. lia.
Qed.

Lemma ordered_fields_synthetic r idx :
  wf_class (cls r) →
  StronglySorted lt idx →
  (∀ k, is_Some (fields r !! k) →
        k ∈ _fields (cls r) ∨ ∃ i, i ∈ idx ∧ k = undefined_name i) →
  (∀ i, i ∈ idx → is_Some (fields r !! undefined_name i)) →
  ordered_fields r =
    Ok (declared_part (fields r) (_fields (cls r)) ++ extras_part (fields r) idx).
Proof.
  intros Hwf Hidx Hdom Hext. unfold ordered_fields.
  destruct (declared_loop_ok (fields r) (_fields (cls r)) (fields r))
    as (left & -> & Hin & Hout); [apply Hwf|done|].
  cbn [bind fst snd].
  assert (map_to_list left ≡ₚ extras_part (fields r) idx) as Hperm.
  { apply NoDup_Permutation.
    - apply NoDup_map_to_list.
    - unfold extras_part. apply (NoDup_fmap_1 fst).
      rewrite <- list_fmap_compose. apply NoDup_fmap; [apply _|].
      by apply StronglySorted_lt_NoDup.
    - intros [k v]. rewrite elem_of_map_to_list. unfold extras_part.
      rewrite list_elem_of_fmap. split.
      + intros Hk. destruct (decide (k ∈ _fields (cls r))) as [Hd|Hd].
        { rewrite (Hin k Hd) in Hk. done. }
        rewrite (Hout k Hd) in Hk.
        destruct (Hdom k) as [?|(i & Hi & ->)]; [by eauto|done|].
        exists i. by rewrite Hk.
      + intros (i & [= -> ->] & Hi).
        rewrite Hout by by apply undefined_name_not_declared.
        destruct (Hext i Hi) as [w ->]. done. }
  rewrite (sorted_unique suffix_key key_of _ (extras_part (fields r) idx)).
  - done.
  - intros [k v] Hk. rewrite Hperm in Hk. unfold extras_part in Hk.
    apply list_elem_of_fmap in Hk as (i & [= -> ->] & _).
    by rewrite key_of_undefined, suffix_key_undefined.
  - rewrite Hperm. unfold extras_part. rewrite <- list_fmap_compose.
    rewrite (list_fmap_ext _ Z.of_nat idx)
      by (intros; simpl; apply key_of_undefined).
    apply NoDup_fmap; [apply _|]. by apply StronglySorted_lt_NoDup.
  - done.
  - unfold extras_part. eapply StronglySorted_fmap; [|exact Hidx].
    intros i j Hij. rewrite !key_of_undefined. lia.
Qed.

(** ** [__init__], phase by phase *)

Lemma zip_nil_r {A B} (l : list A) : zip l (@nil B) = [].
Proof. by destruct l. Qed.

Lemma init_unfold c fv args :
  __init__ c fv args =
  name_step (set_fields (init_defaults c args) (init_store c fv args)).
Proof.
  unfold __init__, init_store, init_defaults, init_versioned, init_blank, defined_fields.
  destruct (args !! "version") as [v|] eqn:Hv.
  - destruct fv as [[|x raw]|]; cbn [truthy_list default]; try done.
    by rewrite zip_nil_r.
  - rewrite (delete_id args) by done.
    destruct fv as [[|x raw]|]; cbn [truthy_list default]; try done.
    by rewrite zip_nil_r.
Qed.

Lemma update_zip_is_Some d (ks : list string) (vs : list value) n :
  n ∈ ks → (length ks ≤ length vs)%nat → is_Some (update d (zip ks vs) !! n).
Proof.
  unfold update, zip. revert d vs.
  induction ks as [|k ks IH]; intros d vs Hn Hlen; [by apply elem_of_nil in Hn|].
  destruct vs as [|v vs]; simpl in *; [lia|].
  destruct (decide (n = k)) as [->|Hne].
  - apply (update_is_Some _ (zip ks vs)). rewrite lookup_insert_eq. eauto.
  - apply elem_of_cons in Hn as [?|Hn]; [done|]. apply IH; [done|lia].
Qed.

Lemma zip_fst_elem {A B} (ks : list A) (vs : list B) k :
  k ∈ (zip ks vs).*1 → k ∈ ks.
Proof.
  intros ([a b] & -> & Hin)%list_elem_of_fmap. by apply elem_of_zip_l in Hin.
Qed.

Lemma init_blank_is_Some c n :
  n ∈ _fields c → is_Some (fields (init_blank c) !! n).
Proof.
  intros Hn. apply update_zip_is_Some; [done|]. by rewrite length_replicate.
Qed.

Lemma init_blank_dom c k :
  is_Some (fields (init_blank c) !! k) → k ∈ _fields c.
Proof.
  intros [H|H]%update_lookup_Some.
  - rewrite lookup_empty in H. by destruct H.
  - by apply zip_fst_elem in H.
Qed.

Lemma init_versioned_cls c args : cls (init_versioned c args) = c.
Proof.
  unfold init_versioned. destruct (args !! "version"); by rewrite !setattr_cls.
Qed.

Lemma init_defaults_cls c args : cls (init_defaults c args) = c.
Proof.
  unfold init_defaults, set_defaults. fold (assign_all (init_versioned c args)
    (set_defaults_body (cls (init_versioned c args)))).
  by rewrite assign_all_cls, init_versioned_cls.
Qed.

Lemma init_defaults_is_Some c args n :
  n ∈ _fields c → is_Some (fields (init_defaults c args) !! n).
Proof.
  intros Hn. apply assign_all_is_Some. unfold init_versioned.
  destruct (args !! "version"); repeat apply setattr_fields_is_Some;
    by apply init_blank_is_Some.
Qed.

Lemma init_defaults_dom c args k :
  is_Some (fields (init_defaults c args) !! k) → k ∈ _fields c.
Proof.
  intros [H|H]%assign_all_dom; [|by rewrite init_versioned_cls in H].
  unfold init_versioned in H.
  destruct (args !! "version");
    repeat (apply setattr_fields_dom in H as [H|H];
            [|by rewrite ?setattr_cls in H]);
    by apply init_blank_dom.
Qed.

Lemma init_defaults_version c args :
  wf_class c →
  attrs (init_defaults c args) !! "version" =
  Some (default (VInt (_version c)) (args !! "version")).
Proof.
  intros (_ & Hv & _ & Hbody).
  unfold init_defaults, set_defaults. fold (assign_all (init_versioned c args)
    (set_defaults_body (cls (init_versioned c args)))).
  rewrite assign_all_attrs_version; rewrite ?init_versioned_cls; [|done..].
  unfold init_versioned.
  destruct (args !! "version"); rewrite !setattr_other by (by rewrite ?setattr_cls);
    simpl; by rewrite lookup_insert_eq.
Qed.

Lemma name_step_cls o : cls (name_step o) = cls o.
Proof. unfold name_step. destruct (fields o !! "name"); [|done]. by rewrite setattr_cls. Qed.

Lemma name_step_fields_lookup o n :
  n ∈ _fields (cls o) → fields (name_step o) !! n = fields o !! n.
Proof.
  intros Hn. unfold name_step. destruct (fields o !! "name") as [v|] eqn:Hname; [|done].
  rewrite setattr_fields_lookup. simpl. case_decide as H.
  - destruct H as [<- _]. done.
  - apply lookup_delete_ne. intros <-. tauto.
Qed.

Lemma name_step_fields o :
  (is_Some (fields o !! "name") → "name" ∈ _fields (cls o)) →
  fields (name_step o) = fields o.
Proof.
  intros H. unfold name_step. destruct (fields o !! "name") as [v|] eqn:Hname; [|done].
  rewrite setattr_declared by (simpl; eauto). simpl.
  rewrite insert_delete_eq. by apply insert_id.
Qed.

Lemma name_step_version o :
  attrs (name_step o) !! "version" = attrs o !! "version".
Proof.
  unfold name_step. destruct (fields o !! "name") as [v|]; [|done].
  unfold __setattr__. case_bool_decide; simpl; [done|].
  by rewrite lookup_insert_ne.
Qed.

(** Every declared field is in the store of a new object. *)
Lemma init_declared_is_Some c fv args n :
  n ∈ _fields c → is_Some (fields (__init__ c fv args) !! n).
Proof.
  intros Hn. rewrite init_unfold.
  rewrite name_step_fields_lookup by (simpl; by rewrite init_defaults_cls).
  simpl. unfold init_store.
  apply lookup_union_is_Some. right.
  destruct fv as [raw|]; [apply update_is_Some|]; by apply init_defaults_is_Some.
Qed.

(** ** Objects built from raw values *)

Lemma has_extras_spec r m :
  has_extras r m ↔
  (∀ k, is_Some (fields r !! k) →
        k ∈ _fields (cls r) ∨
        ∃ i, i ∈ seq (length (_fields (cls r))) m ∧ k = undefined_name i) ∧
  (∀ i, i ∈ seq (length (_fields (cls r))) m →
        is_Some (fields r !! undefined_name i)).
Proof.
  unfold has_extras, extra_names. rewrite !Forall_forall. split.
  - intros [H1 H2]. split.
    + intros k [v Hk]. destruct (H1 k) as [?|Hin]; [|by left|].
      { apply list_elem_of_fmap. exists (k, v). split; [done|].
        by apply elem_of_map_to_list. }
      apply list_elem_of_fmap in Hin as (i & -> & Hi). right. eauto.
    + intros i Hi. apply H2. by apply list_elem_of_fmap_2.
  - intros [H1 H2]. split.
    + intros k ([k' v] & -> & Hk%elem_of_map_to_list)%list_elem_of_fmap. simpl.
      destruct (H1 k') as [?|(i & Hi & ->)]; [by eauto|by left|].
      right. by apply list_elem_of_fmap_2.
    + intros k (i & -> & Hi)%list_elem_of_fmap. by apply H2.
Qed.

Lemma setattr_has_extras r n v m :
  has_extras r m → has_extras (__setattr__ r n v) m.
Proof.
  rewrite !has_extras_spec, setattr_cls. intros [H1 H2]. split.
  - intros k [Hk|Hk]%setattr_fields_dom; [by apply H1|by left].
  - intros i Hi. by apply setattr_fields_is_Some, H2.
Qed.

Lemma assign_all_has_extras r l m :
  has_extras r m → has_extras (assign_all r l) m.
Proof.
  unfold assign_all. revert r. induction l as [|a l IH]; intros r H; simpl; [done|].
  by apply IH, setattr_has_extras.
Qed.

Lemma assign_all_lookup_other r l k :
  k ∉ _fields (cls r) → fields (assign_all r l) !! k = fields r !! k.
Proof.
  unfold assign_all. revert r. induction l as [|a l IH]; intros r Hk; simpl; [done|].
  rewrite IH by by rewrite setattr_cls.
  rewrite setattr_fields_lookup. case_decide as H; [|done].
  destruct H as [-> ?]. done.
Qed.

Lemma defined_fields_length c raw :
  (length (_fields c) ≤ length raw)%nat →
  length (defined_fields c raw) = length raw.
Proof.
  intros H. unfold defined_fields, range.
  rewrite length_app, length_fmap, length_seq. lia.
Qed.

Lemma update_zip_values d (ks : list string) (vs : list value) :
  NoDup ks → length ks = length vs →
  (λ n, default VNone (update d (zip ks vs) !! n)) <$> ks = vs.
Proof.
  intros Hnd Hlen. apply list_eq. intros i. rewrite list_lookup_fmap.
  destruct (ks !! i) as [k|] eqn:Hk; simpl.
  - destruct (lookup_lt_is_Some_2 vs i) as [v Hv].
    { rewrite <- Hlen. by eapply lookup_lt_Some. }
    by rewrite (update_lookup_zip d ks vs i k v), Hv.
  - symmetry. apply lookup_ge_None. rewrite <- Hlen. by apply lookup_ge_None.
Qed.

Lemma raw_store_dom c raw args k :
  is_Some (raw_store c raw args !! k) → k ∈ defined_fields c raw.
Proof.
  intros [H|H]%update_lookup_Some.
  - apply init_defaults_dom in H. unfold defined_fields. set_solver.
  - by apply zip_fst_elem in H.
Qed.

Lemma declared_part_fst d names : (declared_part d names).*1 = names.
Proof.
  unfold declared_part. rewrite <- list_fmap_compose. apply list_fmap_id.
Qed.

Lemma extras_part_fst d idx : (extras_part d idx).*1 = undefined_name <$> idx.
Proof. unfold extras_part. by rewrite <- list_fmap_compose. Qed.

Lemma ordered_fields_has_extras r m :
  wf_class (cls r) → has_extras r m →
  ordered_fields r =
    Ok (declared_part (fields r) (_fields (cls r)) ++
        extras_part (fields r) (seq (length (_fields (cls r))) m)).
Proof.
  intros Hwf [H1 H2]%has_extras_spec.
  apply ordered_fields_synthetic; [done|apply StronglySorted_lt_seq|done..].
Qed.

Lemma name_step_dom o k :
  is_Some (fields (name_step o) !! k) → is_Some (fields o !! k).
Proof.
  unfold name_step. destruct (fields o !! "name") as [v|] eqn:Hname; [|done].
  rewrite setattr_fields_lookup. simpl. case_decide as H.
  - destruct H as [<- _]. eauto.
  - destruct (decide (k = "name")) as [->|Hne].
    + by rewrite lookup_delete_eq.
    + by rewrite lookup_delete_ne.
Qed.

(** An object built from named values for declared fields has no extra
    field. *)
Lemma init_named_has_extras c args :
  (∀ k, is_Some (args !! k) → k = "version" ∨ k ∈ _fields c) →
  has_extras (__init__ c None args) 0.
Proof.
  intros Hargs. apply has_extras_spec. split; [|by intros i ?%elem_of_nil].
  rewrite init_unfold, name_step_cls. simpl. rewrite init_defaults_cls.
  intros k Hk%name_step_dom. left. simpl in Hk. unfold init_store in Hk.
  apply lookup_union_is_Some in Hk as [Hk|Hk].
  - destruct (decide (k = "version")) as [->|Hne].
    + rewrite lookup_delete_eq in Hk. by destruct Hk.
    + rewrite lookup_delete_ne in Hk by done.
      by destruct (Hargs k Hk).
  - by apply init_defaults_dom in Hk.
Qed.

(** The object [cls(raw, version=v)] of a well-formed class, for a raw list
    at least as long as the declared fields. *)
Section raw_construction.
Context (c : pyclass) (Hwf : wf_class c).
Context (raw : list value) (args : gmap string value).

Lemma defined_fields_NoDup : NoDup (defined_fields c raw).
Proof.
  unfold defined_fields. apply NoDup_app. split; [apply Hwf|]. split.
  - intros n Hn (i & -> & _)%list_elem_of_fmap.
    by apply (undefined_name_not_declared c i).
  - apply NoDup_fmap; [apply _|]. apply NoDup_seq.
Qed.

Lemma init_raw m :
  delete "version" args = ∅ →
  length raw = (length (_fields c) + m)%nat →
  let r := __init__ c (Some raw) args in
  cls r = c ∧ fields r = raw_store c raw args ∧ has_extras r m ∧
  attrs r !! "version" = Some (default (VInt (_version c)) (args !! "version")).
Proof.
  intros Hargs Hlen r.
  assert (cls r = c) as Hcls.
  { unfold r. rewrite init_unfold, name_step_cls. apply init_defaults_cls. }
  assert (fields r = raw_store c raw args) as Hfields.
  { unfold r. rewrite init_unfold. rewrite name_step_fields.
    - simpl. unfold init_store. rewrite Hargs. by rewrite (left_id ∅ (∪)).
    - simpl. unfold init_store. rewrite Hargs, (left_id ∅ (∪)).
      rewrite init_defaults_cls. intros Hname%raw_store_dom.
      unfold defined_fields in Hname.
      apply elem_of_app in Hname as [?|(i & Hi & _)%list_elem_of_fmap]; [done|].
      pose proof (undefined_name_prefix i) as Hp. by rewrite <- Hi in Hp. }
  split; [done|]. split; [done|]. split.
  - apply has_extras_spec. rewrite Hcls, Hfields. split.
    + intros k Hk%raw_store_dom. unfold defined_fields, range in Hk.
      apply elem_of_app in Hk as [?|(i & -> & Hi)%list_elem_of_fmap]; [by left|].
      right. exists i. split; [|done].
      by replace m with (length raw - length (_fields c))%nat by lia.
    + intros i Hi. apply update_zip_is_Some.
      * unfold defined_fields, range. apply elem_of_app. right.
        apply list_elem_of_fmap_2.
        by replace (length raw - length (_fields c))%nat with m by lia.
      * rewrite defined_fields_length; lia.
  - unfold r. rewrite init_unfold, name_step_version. simpl.
    by apply init_defaults_version.
Qed.

Lemma raw_store_values :
  (length (_fields c) ≤ length raw)%nat →
  (λ n, default VNone (raw_store c raw args !! n)) <$> defined_fields c raw = raw.
Proof.
  intros Hlen. apply update_zip_values.
  - apply defined_fields_NoDup.
  - by apply defined_fields_length.
Qed.

Lemma ordered_values_raw m :
  length raw = (length (_fields c) + m)%nat →
  (declared_part (raw_store c raw args) (_fields c) ++
   extras_part (raw_store c raw args) (seq (length (_fields c)) m)).*2 = raw.
Proof.
  intros Hlen.
  rewrite <- raw_store_values at 3 by lia.
  unfold defined_fields, range, declared_part, extras_part.
  replace (length raw - length (_fields c))%nat with m by lia.
  rewrite !fmap_app, <- !list_fmap_compose. done.
Qed.

End raw_construction.

(** ** The hooks *)

Lemma encode_loop_id self names vs : encode_loop self names vs = vs.
Proof.
  revert names. induction vs as [|v vs IH]; intros [|n names]; simpl; try done.
  unfold _encode_field. by rewrite IH.
Qed.

Lemma built_id o : built o = o.
Proof.
  unfold built. generalize (_fields (cls o)) as names.
  induction names as [|n names IH]; simpl; [done|].
  destruct (fields o !! n) as [v|] eqn:Hn; [|done].
  unfold _decode_field. rewrite insert_id by done.
  by destruct o.
Qed.

(** ** Fields the raw values do not reach *)

Lemma assign_all_lookup_congr o1 o2 l n :
  cls o1 = cls o2 → fields o1 !! n = fields o2 !! n →
  fields (assign_all o1 l) !! n = fields (assign_all o2 l) !! n.
Proof.
  unfold assign_all. revert o1 o2.
  induction l as [|a l IH]; intros o1 o2 Hcls Hn; simpl; [done|].
  apply IH; [by rewrite !setattr_cls|].
  by rewrite !setattr_fields_lookup, Hcls, Hn.
Qed.

Lemma init_defaults_lookup_args c args n :
  args !! n = None →
  fields (init_defaults c args) !! n = fields (init_defaults c ∅) !! n.
Proof.
  intros Hn. unfold init_defaults, set_defaults.
  rewrite !init_versioned_cls.
  apply (assign_all_lookup_congr _ _ (set_defaults_body c)).
  { by rewrite !init_versioned_cls. }
  unfold init_versioned. rewrite lookup_empty.
  destruct (args !! "version") as [v|] eqn:Hv; [|done].
  rewrite setattr_fields_lookup. case_decide as H; [|done].
  destruct H as [<- _]. congruence.
Qed.

Lemma zip_fst_take {A B} (ks : list A) (vs : list B) k :
  k ∈ (zip ks vs).*1 → k ∈ take (length vs) ks.
Proof.
  unfold zip. revert vs. induction ks as [|k0 ks IH]; intros [|v vs]; simpl;
    try by intros ?%elem_of_nil.
  intros [->|H]%elem_of_cons; [by left|]. right. by apply IH.
Qed.

End UserObjectFacts.

Module UserObjectClaims.
Import Py UserObjects PyFacts UserObjectFacts.

(** C1.  Round trip through the wire form.  For every class of the catalog
    and every object [r] of it whose store holds, besides declared fields,
    exactly [N] extra fields [undefined-k .. undefined-(k+N-1)] ([N] may be
    0), [to_construct] succeeds, and [from_construct] on what it returns
    gives an object with the same ordered field values and the same version;
    [built], with the identity decode hook, changes nothing.  (The objects
    that [__init__] builds from raw values, or from named values for declared
    fields, and what assignments make of them, are of this kind: [init_raw],
    [init_named_has_extras], [assign_all_has_extras].) *)
Theorem from_construct_to_construct (c : pyclass) (r : UserObject) (N : nat) :
  c ∈ catalog → cls r = c → has_extras r N →
  is_Some (attrs r !! "version") →
  ∃ w, to_construct r = Ok w ∧
       c_classID w = __name__ c ∧
       c_length w = (length (_fields c) + N)%nat ∧
       field_values r = Ok (c_field_values w) ∧
       field_values (from_construct c w) = Ok (c_field_values w) ∧
       field_values (built (from_construct c w)) = Ok (c_field_values w) ∧
       getattr (from_construct c w) "version" = Ok (c_version w) ∧
       getattr r "version" = Ok (c_version w).
Proof.
  intros Hc <- Hext [ver Hver].
  assert (wf_class (cls r)) as Hwf.
  { pose proof catalog_wf as H. rewrite Forall_forall in H. by apply H. }
  pose proof (ordered_fields_has_extras r N Hwf Hext) as Hof.
  set (l := declared_part (fields r) (_fields (cls r)) ++
            extras_part (fields r) (seq (length (_fields (cls r))) N)) in Hof.
  assert (length (l.*2) = (length (_fields (cls r)) + N)%nat) as Hlen.
  { unfold l, declared_part, extras_part.
    rewrite length_fmap, length_app, !length_fmap, length_seq. done. }
  assert (getattr r "version" = Ok ver) as Hget.
  { unfold getattr. by rewrite Hver. }
  assert (field_values r = Ok (l.*2)) as Hfv.
  { unfold field_values. by rewrite Hof. }
  set (r' := __init__ (cls r) (Some (l.*2)) {[ "version" := ver ]}).
  destruct (init_raw (cls r) Hwf (l.*2) {[ "version" := ver ]} N)
    as (Hcls' & Hfields' & Hext' & Hver'); [apply delete_singleton_eq|done|].
  fold r' in Hcls', Hfields', Hext', Hver'.
  rewrite lookup_singleton_eq in Hver'. simpl in Hver'.
  assert (ordered_fields r' = Ok (declared_part (raw_store (cls r) (l.*2) {[ "version" := ver ]}) (_fields (cls r)) ++
        extras_part (raw_store (cls r) (l.*2) {[ "version" := ver ]}) (seq (length (_fields (cls r))) N))) as Hof'.
  { rewrite (ordered_fields_has_extras r' N); [|rewrite Hcls'; exact Hwf|exact Hext'].
    by rewrite Hcls', Hfields'. }
  assert (field_values r' = Ok (l.*2)) as Hfv'.
  { unfold field_values. rewrite Hof'. cbn [bind]. f_equal.
    by apply ordered_values_raw. }
  exists {| c_classID := __name__ (cls r); c_field_values := l.*2;
            c_length := length (l.*2); c_version := ver |}.
  cbn [c_classID c_field_values c_length c_version].
  change (from_construct (cls r) _) with r'.
  split_and!; try done.
  - unfold to_construct. rewrite Hfv. cbn [bind].
    rewrite encode_loop_id, Hget. done.
  - by rewrite built_id.
  - unfold getattr. by rewrite Hver'.
Qed.

Lemma from_construct_to_construct_witness :
  Morph ∈ catalog ∧ cls Examples.morph8 = Morph ∧ has_extras Examples.morph8 2 ∧
  is_Some (attrs Examples.morph8 !! "version") ∧
  ∃ w, to_construct Examples.morph8 = Ok w ∧
       field_values (from_construct Morph w) = field_values Examples.morph8.
Proof.
  assert (Morph ∈ catalog) as H1 by (unfold catalog; apply list_elem_of_here).
  assert (cls Examples.morph8 = Morph) as H2 by reflexivity.
  assert (has_extras Examples.morph8 2) as H3
    by by_computation.
  assert (is_Some (attrs Examples.morph8 !! "version")) as H4
    by (exists (VInt 1); reflexivity).
  split_and!; try assumption.
  destruct (from_construct_to_construct Morph Examples.morph8 2 H1 H2 H3 H4)
    as (w & Hw & _ & _ & Hr & Hr' & _).
  exists w. split; [exact Hw|]. by rewrite Hr, Hr'.
Defined.

(** C2.  Field ordering.  An object of a catalog class built from raw values
    for the declared fields [f1..fk] and three more has [ordered_fields] =
    [f1..fk] in declaration order, then the three extra fields by ascending
    index, whatever assignments to those fields follow, in whatever order;
    the extra values are the three last raw values. *)
Theorem ordered_fields_after_sets (c : pyclass) (raw : list value)
    (sets : list (string * value)) :
  c ∈ catalog →
  length raw = (length (_fields c) + 3)%nat →
  Forall (λ a, a.1 ∈ _fields c ++ extra_names c 3) sets →
  ∃ l, ordered_fields (assign_all (__init__ c (Some raw) ∅) sets) = Ok l ∧
       l.*1 = _fields c ++ extra_names c 3 ∧
       drop (length (_fields c)) (l.*2) = drop (length (_fields c)) raw.
Proof.
  intros Hc Hlen _.
  assert (wf_class c) as Hwf.
  { pose proof catalog_wf as H. rewrite Forall_forall in H. by apply H. }
  destruct (init_raw c Hwf raw ∅ 3) as (Hcls & Hfields & Hext & _);
    [apply delete_empty|done|].
  set (r0 := __init__ c (Some raw) ∅) in *.
  set (r := assign_all r0 sets).
  assert (cls r = c) as Hclsr by (unfold r; by rewrite assign_all_cls).
  assert (has_extras r 3) as Hextr by by apply assign_all_has_extras.
  eexists. split.
  { apply (ordered_fields_has_extras r 3); [by rewrite Hclsr|done]. }
  rewrite Hclsr. split.
  - by rewrite fmap_app, declared_part_fst, extras_part_fst.
  - rewrite fmap_app, drop_app_length'
      by (unfold declared_part; by rewrite !length_fmap).
    assert (drop (length (_fields c)) raw =
            (extras_part (raw_store c raw ∅) (seq (length (_fields c)) 3)).*2) as ->.
    { rewrite <- (ordered_values_raw c Hwf raw ∅ 3 Hlen) at 1.
      by rewrite fmap_app, drop_app_length'
        by (unfold declared_part; by rewrite !length_fmap). }
    unfold extras_part. rewrite <- !list_fmap_compose.
    apply list_fmap_ext. intros i j _. simpl.
    unfold r. rewrite assign_all_lookup_other, Hfields; [done|].
    rewrite Hcls. by apply undefined_name_not_declared.
Qed.

Lemma ordered_fields_after_sets_witness :
  Morph ∈ catalog ∧
  length Examples.morph9_raw = (length (_fields Morph) + 3)%nat ∧
  Forall (λ a, a.1 ∈ _fields Morph ++ extra_names Morph 3) Examples.morph_sets ∧
  ∃ l, ordered_fields
         (assign_all (__init__ Morph (Some Examples.morph9_raw) ∅)
            Examples.morph_sets) = Ok l ∧
       l.*1 = _fields Morph ++ extra_names Morph 3 ∧
       drop (length (_fields Morph)) (l.*2) =
       drop (length (_fields Morph)) Examples.morph9_raw.
Proof.
  assert (Morph ∈ catalog) as H1 by (unfold catalog; apply list_elem_of_here).
  assert (length Examples.morph9_raw = (length (_fields Morph) + 3)%nat) as H2
    by reflexivity.
  assert (Forall (λ a, a.1 ∈ _fields Morph ++ extra_names Morph 3)
            Examples.morph_sets) as H3
    by by_computation.
  split_and!; try assumption.
  exact (ordered_fields_after_sets Morph Examples.morph9_raw Examples.morph_sets
           H1 H2 H3).
Defined.

(** C9.  Malformed extra names.  For an object whose class declares no field
    twice: if the store holds an undeclared field whose name has no integer
    after its first ['-'], [ordered_fields] raises the [IndexError] or
    [ValueError] of the key function; if every undeclared field of the store
    is named [undefined-i], [ordered_fields] returns. *)
Theorem ordered_fields_malformed (r : UserObject) :
  NoDup (_fields (cls r)) →
  ((∃ n v e, fields r !! n = Some v ∧ (n ∉ _fields (cls r)) ∧
             suffix_key (n, v) = Raise e) →
   ∃ e, ordered_fields r = Raise e ∧ (e = IndexError ∨ ∃ msg, e = ValueError msg)) ∧
  ((∀ n, is_Some (fields r !! n) →
         n ∈ _fields (cls r) ∨ ∃ i, n = undefined_name i) →
   ∃ l, ordered_fields r = Ok l).
Proof.
  intros Hnd.
  destruct (declared_loop_ok (fields r) (_fields (cls r)) (fields r))
    as (left & Hloop & Hin & Hout); [done..|].
  unfold ordered_fields. rewrite Hloop. cbn [bind fst snd]. split.
  - intros (n & v & e & Hn & Hdecl & Hkey).
    destruct (keyed_raise suffix_key (map_to_list left) (n, v) e)
      as ([n' v'] & e' & _ & Hkey' & Hk); [|done|].
    { apply elem_of_map_to_list. by rewrite Hout. }
    exists e'. unfold sorted. rewrite Hk. split; [done|].
    unfold suffix_key in Hkey'.
    destruct (split "-" (n', v').1) as [|? [|p ?]]; simplify_eq; [by left..|].
    destruct (py_int p); simplify_eq. right. eauto.
  - intros Hsyn. unfold sorted.
    rewrite (keyed_ok suffix_key key_of).
    { cbn [bind]. eauto. }
    intros [n v] Hnv%elem_of_map_to_list.
    destruct (decide (n ∈ _fields (cls r))) as [Hd|Hd].
    { by rewrite Hin in Hnv. }
    rewrite Hout in Hnv by done.
    destruct (Hsyn n) as [?|[i ->]]; [by eauto|done|].
    by rewrite key_of_undefined, suffix_key_undefined.
Qed.

Lemma ordered_fields_malformed_witness :
  NoDup (_fields (cls Examples.morph_named)) ∧
  NoDup (_fields (cls Examples.morph8)) ∧
  (∃ e, ordered_fields Examples.morph_named = Raise e ∧
        (e = IndexError ∨ ∃ msg, e = ValueError msg)) ∧
  (∃ l, ordered_fields Examples.morph8 = Ok l).
Proof.
  assert (NoDup (_fields (cls Examples.morph_named))) as H1
    by by_computation.
  assert (NoDup (_fields (cls Examples.morph8))) as H2
    by by_computation.
  split_and!; try assumption.
  - apply (proj1 (ordered_fields_malformed Examples.morph_named H1)).
    exists "costume", (VInt 1), IndexError. split_and!.
    + reflexivity.
    + by_computation.
    + reflexivity.
  - apply (proj2 (ordered_fields_malformed Examples.morph8 H2)).
    assert (has_extras Examples.morph8 2) as Hext
      by by_computation.
    apply has_extras_spec in Hext as [Hdom _].
    intros n Hn. destruct (Hdom n Hn) as [?|(i & _ & ->)]; [by left|].
    right. by exists i.
Defined.

(** C10.  Declared fields are always there.  Whatever the class, the raw
    values and the named values, every declared field name is a key of the
    store of a new object, so reading it does not fail; and a declared field
    that a raw list no longer than the declared list does not reach, and that
    no named value sets, holds what it holds in an object built from nothing:
    [None], or what [set_defaults] assigns. *)
Theorem init_declared_fields (c : pyclass) (fv : option (list value))
    (args : gmap string value) (n : string) :
  n ∈ _fields c →
  is_Some (fields (__init__ c fv args) !! n) ∧
  is_ok (__getattr__ (__init__ c fv args) n) = true ∧
  is_ok (getattr (__init__ c fv args) n) = true ∧
  (∀ raw, fv = Some raw →
          (length raw ≤ length (_fields c))%nat →
          n ∉ take (length raw) (_fields c) →
          args !! n = None →
          fields (__init__ c fv args) !! n = fields (__init__ c None ∅) !! n).
Proof.
  intros Hn.
  pose proof (init_declared_is_Some c fv args n Hn) as [v Hv].
  split_and!.
  - eauto.
  - unfold __getattr__. by rewrite Hv.
  - unfold getattr, __getattr__. rewrite Hv. by destruct (attrs _ !! n).
  - intros raw -> Hlen Hcov Hargs.
    rewrite !init_unfold.
    rewrite !name_step_fields_lookup by (simpl; by rewrite init_defaults_cls).
    simpl. unfold init_store.
    rewrite !lookup_union_r.
    + rewrite update_lookup_notin; [by apply init_defaults_lookup_args|].
      intros Hin%zip_fst_take. apply Hcov.
      unfold defined_fields, range in Hin.
      replace (length raw - length (_fields c))%nat with 0%nat in Hin by lia.
      simpl in Hin. by rewrite app_nil_r in Hin.
    + by rewrite delete_empty.
    + by apply lookup_delete_None; right.
Qed.

Lemma init_declared_fields_witness :
  "flags" ∈ _fields Morph ∧
  is_Some (fields Examples.morph_short !! "flags") ∧
  is_ok (getattr Examples.morph_short "flags") = true ∧
  fields Examples.morph_short !! "flags" = fields (__init__ Morph None ∅) !! "flags" ∧
  fields Examples.morph_short !! "flags" = Some (VInt 0).
Proof.
  assert ("flags" ∈ _fields Morph) as H1
    by by_computation.
  destruct (init_declared_fields Morph (Some [VInt 1; VInt 2]) ∅ "flags" H1)
    as (Hsome & _ & Hget & Hdefault).
  split_and!; try assumption.
  - apply (Hdefault [VInt 1; VInt 2]).
    + reflexivity.
    + vm_compute. lia.
    + by_computation.
    + reflexivity.
  - reflexivity.
Defined.

End UserObjectClaims.

Module PluginFacts.
Import Py Plugin.

(** ** Resolving features *)

Lemma map_result_raise {A B} (f : A → result B) l x e :
  x ∈ l → f x = Raise e →
  ∃ y e', y ∈ l ∧ f y = Raise e' ∧ map_result f l = Raise e'.
Proof.
  induction l as [|a l IH]; simpl; [by intros ?%elem_of_nil|].
  intros Hx Hf. destruct (f a) as [b|e0] eqn:Ha; simpl.
  - apply elem_of_cons in Hx as [->|Hx]; [congruence|].
    destruct (IH Hx Hf) as (y & e' & Hy & Hy' & ->).
    exists y, e'. split; [by right|done].
  - exists a, e0. split; [by left|done].
Qed.

Lemma map_result_ok {A B} (f : A → result B) l :
  Forall (λ x, is_ok (f x) = true) l → ∃ ys, map_result f l = Ok ys.
Proof.
  induction 1 as [|x l Hx _ [ys IH]]; simpl; [by eauto|].
  destruct (f x); [|done]. simpl. rewrite IH. simpl. eauto.
Qed.

(** ** Blocks *)

Lemma has_command_new tbt c :
  BlockType.has_command (BlockType.new tbt) (Some c) =
  bool_decide (TranslatedBlockType.command tbt = c).
Proof.
  unfold BlockType.has_command, BlockType.new. simpl.
  rewrite map_to_list_singleton. simpl.
  apply bool_decide_ext. rewrite Exists_cons, Exists_nil. tauto.
Qed.

(** ** The scan of [get_plugin] *)

Lemma plugin_getattr_attr p k :
  k ∈ plugin_attrs → ∃ a, plugin_getattr p k = Ok a.
Proof.
  unfold plugin_attrs, plugin_getattr. intros Hk.
  repeat (apply elem_of_cons in Hk as [->|Hk]; [simpl; by eauto|]).
  by apply elem_of_nil in Hk.
Qed.

Lemma matches_spec p (l : list (string * string)) :
  Forall (λ kv, kv.1 ∈ plugin_attrs) l →
  (matches p l = Ok true ∧
   Forall (λ kv, plugin_getattr p kv.1 = Ok (AStr kv.2)) l) ∨
  (matches p l = Ok false ∧
   ¬ Forall (λ kv, plugin_getattr p kv.1 = Ok (AStr kv.2)) l).
Proof.
  induction 1 as [|[k v] l Hk _ IH]; simpl; [by left|].
  destruct (plugin_getattr_attr p k Hk) as [[s|] Ha]; rewrite Ha; simpl.
  - case_bool_decide as Hs.
    + subst s. destruct IH as [[-> Hall]|[-> Hnot]].
      * left. split; [done|]. by constructor.
      * right. split; [done|]. intros [_ ?]%Forall_cons. done.
    + right. split; [done|]. intros [Heq _]%Forall_cons. simpl in Heq.
      rewrite Ha in Heq. congruence.
  - right. split; [done|]. intros [Heq _]%Forall_cons. simpl in Heq.
    rewrite Ha in Heq. congruence.
Qed.

Lemma satisfies_list p crit :
  satisfies p crit ↔
  Forall (λ kv, plugin_getattr p kv.1 = Ok (AStr kv.2)) (map_to_list crit).
Proof.
  unfold satisfies. rewrite Forall_forall. split.
  - intros H [k v] Hkv%elem_of_map_to_list. by apply H.
  - intros H k v Hkv. by apply (H (k, v)), elem_of_map_to_list.
Qed.

Lemma scan_first ps crit pre p post :
  (∀ k, is_Some (crit !! k) → k ∈ plugin_attrs) →
  ps = pre ++ p :: post →
  satisfies p crit → Forall (λ q, ¬ satisfies q crit) pre →
  scan ps (map_to_list crit) = Ok p.
Proof.
  intros Hattrs -> Hp Hpre.
  assert (Forall (λ kv : string * string, kv.1 ∈ plugin_attrs) (map_to_list crit)) as Hl.
  { apply Forall_forall. intros [k v] Hkv%elem_of_map_to_list. apply Hattrs. eauto. }
  induction Hpre as [|q pre Hq _ IH]; simpl.
  - destruct (matches_spec p _ Hl) as [[-> _]|[_ Hnot]]; [done|].
    by apply satisfies_list in Hp.
  - destruct (matches_spec q _ Hl) as [[_ Hall]|[-> _]]; [|done].
    by apply satisfies_list in Hall.
Qed.

Lemma scan_none ps crit :
  (∀ k, is_Some (crit !! k) → k ∈ plugin_attrs) →
  Forall (λ q, ¬ satisfies q crit) ps →
  scan ps (map_to_list crit) = Raise (ValueError "Unknown format").
Proof.
  intros Hattrs Hps.
  assert (Forall (λ kv : string * string, kv.1 ∈ plugin_attrs) (map_to_list crit)) as Hl.
  { apply Forall_forall. intros [k v] Hkv%elem_of_map_to_list. apply Hattrs. eauto. }
  induction Hps as [|q ps Hq _ IH]; simpl; [done|].
  destruct (matches_spec q _ Hl) as [[_ Hall]|[-> _]]; [|done].
  by apply satisfies_list in Hall.
Qed.

Lemma criteria_attrs name kwargs k :
  (∀ k, is_Some (kwargs !! k) → k ∈ plugin_attrs) →
  is_Some (criteria name kwargs !! k) → k ∈ plugin_attrs.
Proof.
  intros Hattrs. unfold criteria.
  assert (∀ k, is_Some (match kwargs !! "extension" with
                        | Some e => <["extension" := lower e]> kwargs
                        | None => kwargs
                        end !! k) → k ∈ plugin_attrs) as Hext.
  { intros k'. destruct (kwargs !! "extension") as [e|] eqn:He; [|by apply Hattrs].
    destruct (decide ("extension" = k')) as [<-|Hne].
    - intros _. apply Hattrs. eauto.
    - rewrite lookup_insert_ne by done. apply Hattrs. }
  destruct name as [|[|c s]|p]; try apply Hext.
  destruct (decide ("name" = k)) as [<-|Hne].
  - intros _. unfold plugin_attrs. set_solver.
  - rewrite lookup_insert_ne by done. apply Hext.
Qed.

Lemma criteria_extension name kwargs :
  criteria name kwargs !! "extension" = lower <$> kwargs !! "extension".
Proof.
  unfold criteria.
  assert (match kwargs !! "extension" with
          | Some e => <["extension" := lower e]> kwargs
          | None => kwargs
          end !! "extension" = lower <$> kwargs !! "extension") as Hext.
  { destruct (kwargs !! "extension") as [e|] eqn:He; simpl; [|done].
    by rewrite lookup_insert_eq. }
  destruct name as [|[|c s]|p]; try done.
  by rewrite lookup_insert_ne.
Qed.

End PluginFacts.

Module PluginClaims.
Import Py Plugin PluginFacts.

(** C3.  Block merge follows registration order.  With no block registered
    yet, features that resolve and two plugins of different names: when [A]
    holds the block of command ["move"] (no [_match]) and [B] a block whose
    [_match] is ["move"], registering [A] then [B] succeeds and leaves one
    block that carries the translations of both formats; registering [B]
    first raises [ValueError("Couldn't match 'move'")]. *)
Theorem register_match_order (A B : KurtPlugin.t)
    (tA tB : TranslatedBlockType.t) (st : Kurt) :
  blocks st = [] →
  Forall (λ f, is_ok (Feature_get (FEATURES st) f) = true) (KurtPlugin.features A) →
  Forall (λ f, is_ok (Feature_get (FEATURES st) f) = true) (KurtPlugin.features B) →
  KurtPlugin.name A ≠ KurtPlugin.name B →
  KurtPlugin.blocks A = [Some tA] →
  TranslatedBlockType.command tA = "move" →
  TranslatedBlockType._match tA = None →
  KurtPlugin.blocks B = [Some tB] →
  TranslatedBlockType._match tB = Some "move" →
  let tA' := TranslatedBlockType.set_format (KurtPlugin.name A) tA in
  let tB' := TranslatedBlockType.set_format (KurtPlugin.name B) tB in
  (register A st).2 = Ok () ∧
  (register B (register A st).1).2 = Ok () ∧
  (∃ bt, blocks (register B (register A st).1).1 = [bt] ∧
         BlockType._translations bt !! KurtPlugin.name A = Some tA' ∧
         BlockType._translations bt !! KurtPlugin.name B = Some tB' ∧
         size (BlockType._translations bt) = 2%nat) ∧
  (register B st).2 = Raise (ValueError "Couldn't match 'move'") ∧
  blocks (register B st).1 = [].
Proof.
  intros Hempty HfA HfB Hne HbA HcA HmA HbB HmB tA' tB'.
  destruct (map_result_ok _ _ HfA) as [fsA HmapA].
  destruct (map_result_ok _ _ HfB) as [fsB HmapB].
  assert (register A st =
          ({| plugins := odict_set (plugins st) (KurtPlugin.name A)
                (KurtPlugin.fix_blocks (KurtPlugin.set_features (FeatureObj <$> fsA) A));
              blocks := [BlockType.new tA']; FEATURES := FEATURES st |}, Ok ())) as HA.
  { unfold register. rewrite HmapA. simpl. rewrite HbA, Hempty. simpl.
    by rewrite HmA. }
  assert ((register B st).2 = Raise (ValueError "Couldn't match 'move'") ∧
          blocks (register B st).1 = []) as HBfirst.
  { unfold register. rewrite HmapB. simpl. rewrite HbB, Hempty. simpl.
    by rewrite HmB. }
  destruct HBfirst as [HB1 HB2].
  assert (register B (register A st).1 =
          ({| plugins := odict_set (plugins (register A st).1) (KurtPlugin.name B)
                (KurtPlugin.fix_blocks (KurtPlugin.set_features (FeatureObj <$> fsB) B));
              blocks := [BlockType._add_translation (BlockType.new tA')
                           (KurtPlugin.name B) tB'];
              FEATURES := FEATURES st |}, Ok ())) as HB.
  { rewrite HA. unfold register. simpl. rewrite HmapB. simpl. rewrite HbB. simpl.
    rewrite HmB, (has_command_new tA' "move").
    by rewrite (bool_decide_eq_true_2 _ HcA), orb_true_r. }
  rewrite HB, HA. simpl. split_and!; try done.
  eexists. split; [done|]. simpl. split_and!.
  - rewrite lookup_insert_ne by done. by rewrite lookup_singleton_eq.
  - by rewrite lookup_insert_eq.
  - rewrite map_size_insert_None; [by rewrite map_size_singleton|].
    by rewrite lookup_singleton_ne.
Qed.

Lemma register_match_order_witness :
  blocks Kurt0 = [] ∧
  KurtPlugin.name Examples.plugin_a ≠ KurtPlugin.name Examples.plugin_b ∧
  (register Examples.plugin_b (register Examples.plugin_a Kurt0).1).2 = Ok () ∧
  length (blocks (register Examples.plugin_b (register Examples.plugin_a Kurt0).1).1)
    = 1%nat ∧
  (register Examples.plugin_b Kurt0).2 = Raise (ValueError "Couldn't match 'move'").
Proof.
  assert (blocks Kurt0 = []) as H1 by reflexivity.
  assert (Forall (λ f, is_ok (Feature_get (FEATURES Kurt0) f) = true)
            (KurtPlugin.features Examples.plugin_a)) as H2
    by (repeat constructor).
  assert (Forall (λ f, is_ok (Feature_get (FEATURES Kurt0) f) = true)
            (KurtPlugin.features Examples.plugin_b)) as H3
    by constructor.
  assert (KurtPlugin.name Examples.plugin_a ≠ KurtPlugin.name Examples.plugin_b)
    as H4 by discriminate.
  destruct (register_match_order Examples.plugin_a Examples.plugin_b
              Examples.move_block Examples.forward_block Kurt0
              H1 H2 H3 H4 eq_refl eq_refl eq_refl eq_refl eq_refl)
    as (_ & HB & (bt & Hbt & _) & Hfirst & _).
  split_and!; try assumption. by rewrite Hbt.
Defined.

(** C4.  Feature gating.  If the [features] list of a plugin holds a name
    that [Feature.FEATURES] does not have, [register] raises a [KeyError]
    (for the first such name of the list) and [Kurt.blocks] is what it was:
    no block of the plugin was merged, and its length is unchanged. *)
Theorem register_unknown_feature (plugin : KurtPlugin.t) (st : Kurt) (s : string) :
  FeatureName s ∈ KurtPlugin.features plugin →
  FEATURES st !! s = None →
  (∃ s', (register plugin st).2 = Raise (KeyError s') ∧ FEATURES st !! s' = None) ∧
  blocks (register plugin st).1 = blocks st ∧
  length (blocks (register plugin st).1) = length (blocks st).
Proof.
  intros Hin Hs.
  destruct (map_result_raise (Feature_get (FEATURES st))
              (KurtPlugin.features plugin) (FeatureName s) (KeyError s))
    as (y & e' & Hy & Hget & Hmap); [done|by simpl; rewrite Hs|].
  unfold register. rewrite Hmap. simpl. split; [|done].
  destruct y as [s'|f]; simpl in Hget; [|done].
  destruct (FEATURES st !! s') eqn:Hs'; simplify_eq. eauto.
Qed.

Lemma register_unknown_feature_witness :
  FeatureName "Sound" ∈ KurtPlugin.features Examples.plugin_unknown_feature ∧
  FEATURES Examples.registry_a !! "Sound" = None ∧
  (∃ s', (register Examples.plugin_unknown_feature Examples.registry_a).2 =
           Raise (KeyError s') ∧
         FEATURES Examples.registry_a !! s' = None) ∧
  blocks (register Examples.plugin_unknown_feature Examples.registry_a).1 =
    blocks Examples.registry_a ∧
  length (blocks (register Examples.plugin_unknown_feature Examples.registry_a).1) =
    length (blocks Examples.registry_a).
Proof.
  assert (FeatureName "Sound" ∈
            KurtPlugin.features Examples.plugin_unknown_feature) as H1
    by (apply list_elem_of_further, list_elem_of_here).
  assert (FEATURES Examples.registry_a !! "Sound" = None) as H2 by reflexivity.
  split; [exact H1|]. split; [exact H2|].
  exact (register_unknown_feature Examples.plugin_unknown_feature
           Examples.registry_a "Sound" H1 H2).
Defined.

(** C8, as the code has it.  For a query that is not a plugin and whose
    keywords are attribute names of [KurtPlugin]: the [extension] keyword is
    lower-cased, and nothing else is; with no keyword and no (non-empty)
    name, [get_plugin] raises [ValueError("No arguments")]; otherwise it
    returns the first plugin, in the order of [Kurt.plugins], each of whose
    queried attributes equals its criterion as a string (the plugin's own
    extension is taken as declared), and raises
    [ValueError("Unknown format")] when there is none. *)
Theorem get_plugin_first_match (st : Kurt) (name : name_arg)
    (kwargs : gmap string string) :
  (∀ p, name ≠ NamePlugin p) →
  (∀ k, is_Some (kwargs !! k) → k ∈ plugin_attrs) →
  criteria name kwargs !! "extension" = lower <$> kwargs !! "extension" ∧
  (kwargs = ∅ → name = NoName ∨ name = NameStr EmptyString →
   get_plugin st name kwargs = Raise (ValueError "No arguments")) ∧
  (criteria name kwargs ≠ ∅ →
   (∀ pre p post,
      (plugins st).*2 = pre ++ p :: post →
      satisfies p (criteria name kwargs) →
      Forall (λ q, ¬ satisfies q (criteria name kwargs)) pre →
      get_plugin st name kwargs = Ok p) ∧
   (Forall (λ q, ¬ satisfies q (criteria name kwargs)) (plugins st).*2 →
    get_plugin st name kwargs = Raise (ValueError "Unknown format"))).
Proof.
  intros Hname Hattrs. split; [apply criteria_extension|]. split.
  - intros -> [->| ->]; reflexivity.
  - intros Hne.
    assert (get_plugin st name kwargs =
            scan (plugins st).*2 (map_to_list (criteria name kwargs))) as ->.
    { unfold get_plugin. destruct name as [|s|p]; [..|by destruct (Hname p)];
        by rewrite bool_decide_eq_false_2. }
    split.
    + intros pre p post Hps Hp Hpre.
      eapply scan_first; [|done..]. intros k. by apply criteria_attrs.
    + apply scan_none. intros k. by apply criteria_attrs.
Qed.

Lemma get_plugin_first_match_witness :
  (∀ p, NoName ≠ NamePlugin p) ∧
  (∀ k, is_Some (({[ "extension" := ".A" ]} : gmap string string) !! k) →
        k ∈ plugin_attrs) ∧
  criteria NoName {[ "extension" := ".A" ]} !! "extension" = Some ".a" ∧
  (plugins Examples.registry_ab).*2 =
    [Examples.registered_a; Examples.registered_b] ∧
  ∃ p, get_plugin Examples.registry_ab NoName {[ "extension" := ".A" ]} = Ok p ∧
       KurtPlugin.name p = "a".
Proof.
  assert (∀ p, NoName ≠ NamePlugin p) as H1 by (intros p; discriminate).
  assert (∀ k, is_Some (({[ "extension" := ".A" ]} : gmap string string) !! k) →
               k ∈ plugin_attrs) as H2.
  { intros k [v Hk]. apply lookup_singleton_Some in Hk as [<- _].
    by_computation. }
  destruct (get_plugin_first_match Examples.registry_ab NoName
              {[ "extension" := ".A" ]} H1 H2) as (Hext & _ & Hscan).
  split_and!; try assumption.
  - reflexivity.
  - assert (criteria NoName {[ "extension" := ".A" ]} =
            ({[ "extension" := ".a" ]} : gmap string string)) as Hcrit
      by reflexivity.
    destruct Hscan as [Hfirst _].
    { rewrite Hcrit. apply insert_non_empty. }
    eexists. split.
    + apply (Hfirst [] Examples.registered_a [Examples.registered_b]).
      * reflexivity.
      * rewrite Hcrit. intros k v Hk.
        apply lookup_singleton_Some in Hk as [<- <-]. reflexivity.
      * constructor.
    + reflexivity.
Defined.

(** C8, as the specification has it, fails: [".sb"] and the extension
    [".SB"] of a registered plugin differ only in letter case, and the query
    finds no plugin.  (The query [".SB"] itself finds none either.) *)
Lemma get_plugin_upper_case_extension :
  Examples.plugin_upper ∈ (plugins Examples.registry_upper).*2 ∧
  lower ".sb" = lower (KurtPlugin.extension Examples.plugin_upper) ∧
  get_plugin Examples.registry_upper NoName {[ "extension" := ".sb" ]} =
    Raise (ValueError "Unknown format") ∧
  get_plugin Examples.registry_upper NoName {[ "extension" := ".SB" ]} =
    Raise (ValueError "Unknown format").
Proof.
  split_and!; try reflexivity.
  vm_compute. apply list_elem_of_here.
Qed.

End PluginClaims.

Module WorkaroundFacts.
Import Py Plugin.

(** ** What replacing one image leaves alone *)

Lemma scriptables_set_image img i c p :
  scriptables (set_image img i c p) =
  alter (set_costume_image img c) i (scriptables p).
Proof. by destruct i. Qed.

Lemma costume_at_set_image_ne img i c p i' c' :
  (i, c) ≠ (i', c') →
  costume_at (set_image img i c p) i' c' =
  (λ sc, (if decide (i = i') then set_costume_image img c sc.1 else sc.1, sc.2))
    <$> costume_at p i' c'.
Proof.
  intros Hne. unfold costume_at. rewrite scriptables_set_image.
  destruct (decide (i = i')) as [<-|Hi].
  - rewrite list_lookup_alter_eq.
    destruct (scriptables p !! i) as [s|]; simpl; [|done].
    rewrite list_lookup_alter_ne by congruence.
    by destruct (Scriptable.costumes s !! c').
  - rewrite list_lookup_alter_ne by done.
    destruct (scriptables p !! i') as [s|]; simpl; [|done].
    by destruct (Scriptable.costumes s !! c').
Qed.

Lemma is_svg_set_image_ne img i c p i' c' :
  (i, c) ≠ (i', c') → is_svg (set_image img i c p) i' c' = is_svg p i' c'.
Proof.
  intros Hne. unfold is_svg. rewrite costume_at_set_image_ne by done.
  by destruct (costume_at p i' c') as [[s co]|].
Qed.

Lemma is_svg_set_placeholder i c p : is_svg (set_image PLACEHOLDER i c p) i c = false.
Proof.
  unfold is_svg, costume_at. rewrite scriptables_set_image, list_lookup_alter_eq.
  destruct (scriptables p !! i) as [s|]; simpl; [|done].
  rewrite list_lookup_alter_eq.
  by destruct (Scriptable.costumes s !! c).
Qed.

Lemma label_at_set_image img i c p i' c' :
  label_at (set_image img i c p) i' c' = label_at p i' c'.
Proof.
  unfold label_at, costume_at. rewrite scriptables_set_image.
  destruct (decide (i = i')) as [<-|Hi].
  - rewrite list_lookup_alter_eq.
    destruct (scriptables p !! i) as [s|]; simpl; [|done].
    destruct (decide (c = c')) as [<-|Hc].
    + rewrite list_lookup_alter_eq. by destruct (Scriptable.costumes s !! c).
    + rewrite list_lookup_alter_ne by done. by destruct (Scriptable.costumes s !! c').
  - by rewrite list_lookup_alter_ne.
Qed.

Lemma costume_count_set_image img i c p i' :
  costume_count (set_image img i c p) i' = costume_count p i'.
Proof.
  unfold costume_count. rewrite scriptables_set_image.
  destruct (decide (i = i')) as [<-|Hi].
  - rewrite list_lookup_alter_eq.
    destruct (scriptables p !! i) as [s|]; simpl; [|done]. apply length_alter.
  - by rewrite list_lookup_alter_ne.
Qed.

(** ** The run of a generator *)

#[local] Arguments trace : simpl never.

Lemma trace_Gen resume p :
  trace (Gen resume) p =
  match resume p with
  | Yielded label g' p' => ((label, p') :: (trace g' p').1, (trace g' p').2)
  | Stopped p' => ([], p')
  end.
Proof. done. Qed.

(** Resuming after a [yield] whose next statement is [f] is running the rest
    on the project [f] leaves. *)
Lemma trace_resume (k : Project.t → step) (f : Project.t → Project.t) p :
  trace (Gen (λ p', k (f p'))) p = trace (Gen k) (f p).
Proof. by rewrite !trace_Gen. Qed.

Lemma filter_bool_ext {A} (f g : A → bool) (l : list A) :
  (∀ x, x ∈ l → f x = g x) →
  filter (λ x, f x = true) l = filter (λ x, g x = true) l.
Proof.
  induction l as [|x l IH]; intros H; [done|].
  rewrite !filter_cons, (H x) by left.
  rewrite IH by (intros; apply H; by right). done.
Qed.

Lemma filter_svg_set_image i c p (cs : list nat) :
  c ∉ cs →
  filter (λ c', is_svg (set_image PLACEHOLDER i c p) i c' = true) cs =
  filter (λ c', is_svg p i c' = true) cs.
Proof.
  intros Hc. apply filter_bool_ext. intros c' Hc'.
  apply is_svg_set_image_ne. intros [= ->]. done.
Qed.

Lemma costume_loop_trace i cs rest p :
  NoDup cs →
  let ps := (λ c, (i, c)) <$> filter (λ c, is_svg p i c = true) cs in
  trace (Gen (costume_loop i cs rest)) p =
  (steps p ps ++ (trace (Gen rest) (replace_all ps p)).1,
   (trace (Gen rest) (replace_all ps p)).2).
Proof.
  revert p. induction cs as [|c cs IH]; intros p Hnd; simpl.
  { rewrite !trace_Gen. simpl. by destruct (rest p). }
  apply NoDup_cons in Hnd as [Hc Hnd].
  rewrite trace_Gen. cbn [costume_loop]. fold (costume_at p i c).
  rewrite filter_cons.
  destruct (costume_at p i c) as [[s co]|] eqn:Hat.
  - assert (is_svg p i c =
            bool_decide (Image.format (Costume.image co) = Some "SVG")) as Hsvg.
    { unfold is_svg. by rewrite Hat. }
    destruct (bool_decide (Image.format (Costume.image co) = Some "SVG")).
    + rewrite decide_True by done. cbn [fmap list_fmap steps fst snd replace_all foldl].
      rewrite (trace_resume (costume_loop i cs rest) (set_image PLACEHOLDER i c)).
      rewrite IH by done. cbn [fst snd]. rewrite filter_svg_set_image by done.
      unfold label_at. rewrite Hat. done.
    + rewrite decide_False by (rewrite Hsvg; done).
      rewrite <- IH by done. by rewrite trace_Gen.
  - assert (is_svg p i c = false) as Hsvg.
    { unfold is_svg. by rewrite Hat. }
    rewrite decide_False by (rewrite Hsvg; done).
    rewrite <- IH by done. by rewrite trace_Gen.
Qed.

Lemma take_labels_trace n g p :
  take_labels n g p =
  ((take n (trace g p).1).*1,
   match n with
   | O => p
   | S m => from_option snd (trace g p).2 ((trace g p).1 !! m)
   end).
Proof.
  revert g p. induction n as [|n IH]; intros [resume] p; [done|].
  rewrite trace_Gen. cbn [take_labels next].
  destruct (resume p) as [label g' p'|p']; [|done].
  rewrite IH. cbn [fst snd take fmap list_fmap]. f_equal.
  by destruct n.
Qed.

(** ** Replacing several images *)

Create Rewrite HintDb set_image.
#[local] Hint Rewrite label_at_set_image costume_count_set_image : set_image.

Lemma replace_all_app ps1 ps2 p :
  replace_all (ps1 ++ ps2) p = replace_all ps2 (replace_all ps1 p).
Proof. unfold replace_all. apply foldl_app. Qed.

Lemma steps_app p ps1 ps2 :
  steps p (ps1 ++ ps2) = steps p ps1 ++ steps (replace_all ps1 p) ps2.
Proof.
  revert p. induction ps1 as [|pos ps1 IH]; intros p; simpl; [done|].
  by rewrite IH.
Qed.

Lemma is_svg_replace_all ps p i c :
  (i, c) ∉ ps → is_svg (replace_all ps p) i c = is_svg p i c.
Proof.
  unfold replace_all. revert p.
  induction ps as [|[i' c'] ps IH]; intros p Hnotin; simpl; [done|].
  apply not_elem_of_cons in Hnotin as [Hne Hnotin].
  rewrite IH by done. apply is_svg_set_image_ne. congruence.
Qed.

Lemma costume_count_replace_all ps p i :
  costume_count (replace_all ps p) i = costume_count p i.
Proof.
  unfold replace_all. revert p.
  induction ps as [|[i' c'] ps IH]; intros p; simpl; [done|].
  rewrite IH. by autorewrite with set_image.
Qed.

Lemma svg_positions_in_cons p i scs :
  svg_positions_in p (i :: scs) =
  ((λ c, (i, c)) <$> filter (λ c, is_svg p i c = true) (seq 0 (costume_count p i)))
  ++ svg_positions_in p scs.
Proof. done. Qed.

Lemma svg_positions_in_replace_all ps p scs :
  (∀ i c, (i, c) ∈ ps → i ∉ scs) →
  svg_positions_in (replace_all ps p) scs = svg_positions_in p scs.
Proof.
  intros Hdisj. induction scs as [|i scs IH]; [done|].
  rewrite !svg_positions_in_cons, costume_count_replace_all.
  rewrite IH by (intros i' c' Hin Hi'; apply (Hdisj i' c' Hin); by right).
  f_equal. f_equal. apply filter_bool_ext. intros c _.
  apply is_svg_replace_all. intros Hin. apply (Hdisj i c Hin). by left.
Qed.

Lemma scriptable_loop_trace scs p :
  NoDup scs →
  trace (Gen (scriptable_loop scs)) p =
  (steps p (svg_positions_in p scs), replace_all (svg_positions_in p scs) p).
Proof.
  revert p. induction scs as [|i scs IH]; intros p Hnd; [done|].
  apply NoDup_cons in Hnd as [Hi Hnd].
  transitivity (trace (Gen (costume_loop i (seq 0 (costume_count p i))
                              (scriptable_loop scs))) p).
  { by rewrite !trace_Gen. }
  rewrite costume_loop_trace by apply NoDup_seq. cbn zeta.
  set (ps := (λ c, (i, c)) <$> _).
  rewrite IH by done.
  rewrite svg_positions_in_replace_all.
  - rewrite svg_positions_in_cons. fold ps. cbn [fst snd].
    by rewrite steps_app, replace_all_app.
  - intros i' c' (c0 & [= -> ->] & _)%list_elem_of_fmap. done.
Qed.

(** The whole run of the Vector Images workaround. *)
Lemma vector_images_trace p :
  trace vector_images_workaround p =
  (steps p (svg_positions p), replace_all (svg_positions p) p).
Proof.
  unfold vector_images_workaround, svg_positions.
  rewrite <- scriptable_loop_trace by apply NoDup_seq.
  by rewrite !trace_Gen.
Qed.

Lemma steps_labels p ps :
  (steps p ps).*1 = (λ pos, label_at p pos.1 pos.2) <$> ps.
Proof.
  revert p. induction ps as [|pos ps IH]; intros p; simpl; [done|].
  rewrite IH. f_equal. apply list_fmap_ext. intros _ [i c] _. simpl.
  by autorewrite with set_image.
Qed.

Lemma steps_lookup p ps k pos :
  ps !! k = Some pos →
  steps p ps !! k = Some (label_at p pos.1 pos.2, replace_all (take k ps) p).
Proof.
  revert p k. induction ps as [|pos0 ps IH]; intros p k Hk; [done|].
  destruct k as [|k]; simpl in *.
  - by simplify_eq.
  - rewrite (IH _ _ Hk). by rewrite label_at_set_image.
Qed.

Lemma svg_positions_in_NoDup p scs : NoDup scs → NoDup (svg_positions_in p scs).
Proof.
  induction 1 as [|i scs Hi Hnd IH]; [constructor|].
  rewrite svg_positions_in_cons. apply NoDup_app. split_and!.
  - apply NoDup_fmap; [by intros ?? [=]|]. apply NoDup_filter, NoDup_seq.
  - intros [i' c'] (c0 & [= -> ->] & _)%list_elem_of_fmap Hin.
    unfold svg_positions_in in Hin.
    apply list_elem_of_bind in Hin as (j & Hin & Hj).
    apply list_elem_of_fmap in Hin as (c1 & [= -> ->] & _). done.
  - done.
Qed.

Lemma svg_positions_in_is_svg p scs i c :
  (i, c) ∈ svg_positions_in p scs → is_svg p i c = true.
Proof.
  unfold svg_positions_in. intros (j & Hin & Hj)%list_elem_of_bind.
  apply list_elem_of_fmap in Hin as (c1 & [= -> ->] & Hc).
  by apply list_elem_of_filter in Hc as [Hc _].
Qed.

(** ** The Stage-specific Variables workaround *)

Lemma yield_each_trace labels rest p :
  trace (Gen (yield_each labels rest)) p =
  (((λ l, (l, p)) <$> labels) ++ (trace (Gen rest) p).1, (trace (Gen rest) p).2).
Proof.
  induction labels as [|l labels IH]; simpl.
  { rewrite !trace_Gen. by destruct (rest p). }
  rewrite trace_Gen. simpl. by rewrite IH.
Qed.

Lemma stage_variables_trace p :
  trace stage_variables_workaround p =
  ((λ l, (l, p)) <$> stage_labels p, make_global p).
Proof.
  unfold stage_variables_workaround, stage_labels.
  transitivity (trace (Gen (yield_each
      ((λ nv, "variable " +:+ nv.1) <$>
         map_to_list (Scriptable.variables (Project.stage p)))
      (λ p, yield_each
           ((λ nl, "list " +:+ nl.1) <$>
              map_to_list (Scriptable.lists (Project.stage p)))
           (λ p, Stopped (make_global p)) p))) p).
  { by rewrite !trace_Gen. }
  rewrite yield_each_trace.
  transitivity
    (((λ l, (l, p)) <$> ((λ nv, "variable " +:+ nv.1) <$>
         map_to_list (Scriptable.variables (Project.stage p)))) ++
     (trace (Gen (yield_each
           ((λ nl, "list " +:+ nl.1) <$>
              map_to_list (Scriptable.lists (Project.stage p)))
           (λ p, Stopped (make_global p)))) p).1,
     (trace (Gen (yield_each
           ((λ nl, "list " +:+ nl.1) <$>
              map_to_list (Scriptable.lists (Project.stage p)))
           (λ p, Stopped (make_global p)))) p).2).
  { by rewrite !(trace_Gen _ p). }
  rewrite yield_each_trace. rewrite (trace_Gen _ p). cbn [fst snd].
  by rewrite app_nil_r, fmap_app.
Qed.

Lemma filter_svg_nil p i n :
  (∀ c, is_svg p i c = false) →
  filter (λ c, is_svg p i c = true) (seq 0 n) = [].
Proof.
  intros H. generalize 0%nat. induction n as [|n IH]; intros k; simpl; [done|].
  rewrite filter_cons, decide_False by (rewrite H; done). apply IH.
Qed.

End WorkaroundFacts.

Module WorkaroundClaims.
Import Py Plugin WorkaroundFacts.

(** C5.  Vector Images, once and again.  On a project with one sprite that
    holds one costume, a vector one, and a stage without vector costumes,
    taking every label of the workaround gives the one label
    ["<sprite> - <costume>"] and leaves that costume with the 32 by 32 red
    placeholder as its image; taking every label a second time, on the
    project so left, gives none and leaves it as it is. *)
Theorem vector_images_idempotent (stage sprite : Scriptable.t)
    (costume : Costume.t) (variables lists : gmap string value) :
  Scriptable.costumes sprite = [costume] →
  Image.format (Costume.image costume) = Some "SVG" →
  Forall (λ co, Image.format (Costume.image co) ≠ Some "SVG")
         (Scriptable.costumes stage) →
  let project :=
    {| Project.stage := stage; Project.sprites := [sprite];
       Project.variables := variables; Project.lists := lists |} in
  let degraded :=
    {| Project.stage := stage;
       Project.sprites :=
         [{| Scriptable.name := Scriptable.name sprite;
             Scriptable.costumes :=
               [{| Costume.name := Costume.name costume;
                   Costume.image := Image.New (32, 32)%Z (255, 0, 0)%Z |}];
             Scriptable.variables := Scriptable.variables sprite;
             Scriptable.lists := Scriptable.lists sprite |}];
       Project.variables := variables; Project.lists := lists |} in
  drain vector_images_workaround project =
    ([Scriptable.name sprite +:+ " - " +:+ Costume.name costume], degraded) ∧
  drain vector_images_workaround degraded = ([], degraded).
Proof.
  intros Hcostumes Hsvg Hstage project degraded.
  assert (∀ p, Project.stage p = stage → ∀ c, is_svg p 0 c = false) as Hst.
  { intros p Hp c. unfold is_svg, costume_at. simpl. rewrite Hp.
    destruct (Scriptable.costumes stage !! c) as [co|] eqn:Hco; simpl; [|done].
    rewrite Forall_forall in Hstage.
    apply bool_decide_eq_false_2, Hstage. by eapply list_elem_of_lookup_2. }
  assert (svg_positions project = [(1, 0)]%nat) as Hps.
  { change (svg_positions project) with (svg_positions_in project [0; 1]%nat).
    rewrite !svg_positions_in_cons.
    rewrite filter_svg_nil by by apply Hst.
    assert (costume_count project 1 = 1%nat) as ->.
    { unfold costume_count. simpl. by rewrite Hcostumes. }
    assert (is_svg project 1 0 = true) as Hone.
    { unfold is_svg, costume_at. simpl. rewrite Hcostumes. simpl.
      by apply bool_decide_eq_true_2. }
    cbn [seq]. by rewrite filter_cons, decide_True. }
  assert (svg_positions degraded = []) as Hps'.
  { change (svg_positions degraded) with (svg_positions_in degraded [0; 1]%nat).
    rewrite !svg_positions_in_cons.
    rewrite filter_svg_nil by by apply Hst.
    change (costume_count degraded 1) with 1%nat.
    cbn [seq]. by rewrite filter_cons, decide_False. }
  unfold drain. rewrite !vector_images_trace, Hps, Hps'. simpl. split; [|done].
  unfold label_at, costume_at, replace_all, set_image, set_costume_image, costume_label.
  simpl. by rewrite Hcostumes.
Qed.

Lemma vector_images_idempotent_witness :
  Scriptable.costumes Examples.sprite1 = [Examples.vector_costume] ∧
  Image.format (Costume.image Examples.vector_costume) = Some "SVG" ∧
  Forall (λ co, Image.format (Costume.image co) ≠ Some "SVG")
         (Scriptable.costumes Examples.plain_stage) ∧
  (drain vector_images_workaround Examples.vector_project).1 =
    ["Sprite1 - costume1"] ∧
  drain vector_images_workaround
    (drain vector_images_workaround Examples.vector_project).2 =
    ([], (drain vector_images_workaround Examples.vector_project).2).
Proof.
  assert (Scriptable.costumes Examples.sprite1 = [Examples.vector_costume])
    as H1 by reflexivity.
  assert (Image.format (Costume.image Examples.vector_costume) = Some "SVG")
    as H2 by reflexivity.
  assert (Forall (λ co, Image.format (Costume.image co) ≠ Some "SVG")
            (Scriptable.costumes Examples.plain_stage)) as H3
    by (repeat constructor; discriminate).
  destruct (vector_images_idempotent Examples.plain_stage Examples.sprite1
              Examples.vector_costume ∅ ∅ H1 H2 H3) as [Hfirst Hsecond].
  split_and!; try assumption.
  change (drain vector_images_workaround Examples.vector_project).1
    with (drain vector_images_workaround
            {| Project.stage := Examples.plain_stage;
               Project.sprites := [Examples.sprite1];
               Project.variables := ∅; Project.lists := ∅ |}).1.
  by rewrite Hfirst.
Defined.

(** C6.  Stage-specific Variables.  With stage variables [{a: v}], no stage
    list and no global variable, taking every label of the workaround gives
    the one label ["variable a"] and leaves the global variables [{a: v}] and
    the stage variables and lists empty; and a stage variable whose name a
    global of another value carries replaces that global. *)
Theorem stage_variables_hoist (p : Project.t) (a : string) (v : value) :
  (Scriptable.variables (Project.stage p) = {[ a := v ]} →
   Scriptable.lists (Project.stage p) = ∅ →
   Project.variables p = ∅ →
   (drain stage_variables_workaround p).1 = ["variable " +:+ a] ∧
   Project.variables (drain stage_variables_workaround p).2 = {[ a := v ]} ∧
   Scriptable.variables (Project.stage (drain stage_variables_workaround p).2) = ∅ ∧
   Scriptable.lists (Project.stage (drain stage_variables_workaround p).2) = ∅) ∧
  (∀ g, Scriptable.variables (Project.stage p) !! a = Some v →
        Project.variables p !! a = Some g → g ≠ v →
        Project.variables (drain stage_variables_workaround p).2 !! a = Some v).
Proof.
  unfold drain. rewrite stage_variables_trace. cbn [fst snd]. split.
  - intros Hvars Hlists Hglobals. unfold stage_labels.
    rewrite Hvars, Hlists, map_to_list_singleton, map_to_list_empty. simpl.
    rewrite Hvars, Hglobals. split_and!; try done.
    apply (right_id ∅ (∪)).
  - intros g Hs _ _. simpl. by apply lookup_union_Some_l.
Qed.

Lemma stage_variables_hoist_witness :
  Scriptable.variables (Project.stage Examples.hoist_project) = {[ "a" := VInt 1 ]} ∧
  Scriptable.lists (Project.stage Examples.hoist_project) = ∅ ∧
  Project.variables Examples.hoist_project = ∅ ∧
  ((drain stage_variables_workaround Examples.hoist_project).1 = ["variable a"] ∧
   Project.variables (drain stage_variables_workaround Examples.hoist_project).2
     = {[ "a" := VInt 1 ]} ∧
   Scriptable.variables
     (Project.stage (drain stage_variables_workaround Examples.hoist_project).2) = ∅ ∧
   Scriptable.lists
     (Project.stage (drain stage_variables_workaround Examples.hoist_project).2) = ∅) ∧
  Project.variables Examples.clash_project !! "a" = Some (VInt 5) ∧
  Project.variables (drain stage_variables_workaround Examples.clash_project).2
    !! "a" = Some (VInt 1).
Proof.
  split; [reflexivity|]. split; [reflexivity|]. split; [reflexivity|].
  split.
  { exact (proj1 (stage_variables_hoist Examples.hoist_project "a" (VInt 1))
             eq_refl eq_refl eq_refl). }
  split; [reflexivity|].
  apply (proj2 (stage_variables_hoist Examples.clash_project "a" (VInt 1))
           (VInt 5)); [reflexivity|reflexivity|discriminate].
Defined.

(** C7, as the code has it.  Labels come before mutation.  For the Vector
    Images workaround on any project there is one label for each vector
    costume, in order, and the costume a label names is replaced only when
    the generator is resumed for the next label: a caller who stops after
    [n + 1] labels leaves the costumes of the first [n] as placeholders and
    the costume of the last still a vector image; taking every label
    replaces them all.  For the Stage-specific Variables workaround a caller
    who stops after any number of its labels, all of them included, leaves
    the project untouched: the merge into the globals and the clearing of
    the stage happen only when the sequence is exhausted.  The default
    workaround yields nothing and changes nothing. *)
Theorem workaround_labels_precede_mutation (p : Project.t) (n : nat) :
  ((n < length (svg_positions p))%nat →
   take_labels (S n) vector_images_workaround p =
     ((λ pos, label_at p pos.1 pos.2) <$> take (S n) (svg_positions p),
      replace_all (take n (svg_positions p)) p)) ∧
  (∀ i c, svg_positions p !! n = Some (i, c) →
          is_svg (replace_all (take n (svg_positions p)) p) i c = true ∧
          is_svg (replace_all (take (S n) (svg_positions p)) p) i c = false) ∧
  drain vector_images_workaround p =
    ((λ pos, label_at p pos.1 pos.2) <$> svg_positions p,
     replace_all (svg_positions p) p) ∧
  ((n ≤ length (stage_labels p))%nat →
   take_labels n stage_variables_workaround p = (take n (stage_labels p), p)) ∧
  drain stage_variables_workaround p = (stage_labels p, make_global p) ∧
  drain default_workaround p = ([], p).
Proof.
  split_and!.
  - intros Hn. rewrite take_labels_trace, vector_images_trace. cbn [fst snd].
    rewrite !fmap_take, steps_labels. f_equal.
    destruct (lookup_lt_is_Some_2 (svg_positions p) n Hn) as [pos Hpos].
    by rewrite (steps_lookup _ _ _ _ Hpos).
  - intros i c Hk.
    pose proof (svg_positions_in_NoDup p _ (NoDup_seq 0 (length (scriptables p))))
      as Hnd. fold (svg_positions p) in Hnd.
    split.
    + rewrite is_svg_replace_all.
      * eapply svg_positions_in_is_svg, list_elem_of_lookup_2, Hk.
      * intros Hin. apply list_elem_of_lookup in Hin as [j Hj].
        apply lookup_take_Some in Hj as [Hj Hlt].
        pose proof (NoDup_lookup _ _ _ _ Hnd Hj Hk). lia.
    + rewrite (take_S_r _ _ _ Hk), replace_all_app. simpl.
      apply is_svg_set_placeholder.
  - unfold drain. rewrite vector_images_trace. cbn [fst snd].
    by rewrite steps_labels.
  - intros Hn. rewrite take_labels_trace, stage_variables_trace. cbn [fst snd].
    rewrite fmap_take, <- list_fmap_compose. f_equal.
    + f_equal. rewrite <- (list_fmap_id (stage_labels p)) at 2.
      by apply list_fmap_ext.
    + destruct n as [|m]; [done|].
      rewrite list_lookup_fmap.
      destruct (lookup_lt_is_Some_2 (stage_labels p) m) as [l ->]; [lia|done].
  - unfold drain. rewrite stage_variables_trace. cbn [fst snd].
    rewrite <- list_fmap_compose. f_equal.
    rewrite <- (list_fmap_id (stage_labels p)) at 2. by apply list_fmap_ext.
  - done.
Qed.

Lemma workaround_labels_precede_mutation_witness :
  (1 < length (svg_positions Examples.vector_project2))%nat ∧
  svg_positions Examples.vector_project2 !! 1%nat = Some (1, 2)%nat ∧
  (1 ≤ length (stage_labels Examples.hoist_project))%nat ∧
  take_labels 2 vector_images_workaround Examples.vector_project2 =
    (["Sprite2 - costume1"; "Sprite2 - costume2"],
     replace_all [(1, 1)%nat] Examples.vector_project2) ∧
  is_svg (replace_all [(1, 1)%nat] Examples.vector_project2) 1 2 = true ∧
  take_labels 1 stage_variables_workaround Examples.hoist_project =
    (["variable a"], Examples.hoist_project).
Proof.
  assert (1 < length (svg_positions Examples.vector_project2))%nat as H1
    by (vm_compute; lia).
  assert (svg_positions Examples.vector_project2 !! 1%nat = Some (1, 2)%nat)
    as H2 by reflexivity.
  assert (1 ≤ length (stage_labels Examples.hoist_project))%nat as H3
    by (vm_compute; lia).
  destruct (workaround_labels_precede_mutation Examples.vector_project2 1)
    as (Htake & Hsvg & _).
  destruct (workaround_labels_precede_mutation Examples.hoist_project 1)
    as (_ & _ & _ & Hstage & _).
  split_and!; try assumption.
  - exact (Htake H1).
  - exact (proj1 (Hsvg 1%nat 2%nat H2)).
  - exact (Hstage H3).
Defined.

(** C7, as the specification has it, fails: a caller who takes the first
    label of either workaround and stops has the entity just named
    unchanged.  The vector costume is still the vector image, the stage
    variable is still on the stage and not among the globals. *)
Lemma reported_entity_not_yet_mutated :
  match next vector_images_workaround Examples.vector_project with
  | Yielded label _ p =>
      label = "Sprite1 - costume1" ∧ p = Examples.vector_project
  | Stopped _ => False
  end ∧
  take_labels 1 vector_images_workaround Examples.vector_project =
    (["Sprite1 - costume1"], Examples.vector_project) ∧
  is_svg Examples.vector_project 1 0 = true ∧
  take_labels 1 stage_variables_workaround Examples.hoist_project =
    (["variable a"], Examples.hoist_project) ∧
  Scriptable.variables (Project.stage Examples.hoist_project) !! "a" =
    Some (VInt 1) ∧
  Project.variables Examples.hoist_project !! "a" = None.
Proof. split_and!; try reflexivity. vm_compute. by split. Qed.

End WorkaroundClaims.

(** * Further properties of the user objects *)

Module UserObjectBehaviour.
Import Py UserObjects PyFacts UserObjectFacts.

(** ** What [sorted] returns *)

Lemma keyed_snd {A} (key : A → result Z) (l : list A) kl :
  keyed key l = Ok kl → kl.*2 = l.
Proof.
  revert kl. induction l as [|x l IH]; intros kl; simpl.
  { by intros [= <-]. }
  destruct (key x) as [k|]; simpl; [|done].
  destruct (keyed key l) as [kl'|]; simpl; [|done].
  intros [= <-]. rewrite fmap_cons. simpl. f_equal. by apply IH.
Qed.

Lemma sorted_perm {A} (key : A → result Z) (l l' : list A) :
  sorted key l = Ok l' → l' ≡ₚ l.
Proof.
  unfold sorted. destruct (keyed key l) as [kl|] eqn:Hkl; simpl; [|done].
  intros [= <-]. rewrite sort_by_key_perm. by rewrite (keyed_snd _ _ _ Hkl).
Qed.

(** ** The store of a new object *)

Lemma name_step_lookup o k :
  k ≠ "name" ∨ "name" ∈ _fields (cls o) →
  fields (name_step o) !! k = fields o !! k.
Proof.
  intros Hk. unfold name_step.
  destruct (fields o !! "name") as [v|] eqn:Hname; [|done].
  rewrite setattr_fields_lookup. simpl. case_decide as H.
  - destruct H as [<- _]. done.
  - destruct (decide (k = "name")) as [->|Hne].
    + destruct Hk as [?|Hin]; [done|]. destruct H. done.
    + by rewrite lookup_delete_ne.
Qed.

Lemma defined_fields_lookup_declared c raw i n :
  _fields c !! i = Some n → defined_fields c raw !! i = Some n.
Proof. intros H. unfold defined_fields. by apply lookup_app_l_Some. Qed.

Lemma defined_fields_lookup_extra c (raw : list value) i :
  (length (_fields c) ≤ i)%nat → (i < length raw)%nat →
  defined_fields c raw !! i = Some (undefined_name i).
Proof.
  intros Hge Hlt. unfold defined_fields, range.
  rewrite lookup_app_r by done. rewrite list_lookup_fmap.
  rewrite lookup_seq_lt by lia. simpl. f_equal. f_equal. lia.
Qed.

Lemma defined_fields_short c (raw : list value) :
  (length raw ≤ length (_fields c))%nat → defined_fields c raw = _fields c.
Proof.
  intros H. unfold defined_fields, range.
  replace (length raw - length (_fields c))%nat with 0%nat by lia.
  apply app_nil_r.
Qed.

Lemma undefined_name_not_name i : undefined_name i ≠ "name".
Proof.
  intros H. pose proof (undefined_name_prefix i) as Hp. by rewrite H in Hp.
Qed.

Lemma undefined_name_not_version i : undefined_name i ≠ "version".
Proof.
  intros H. pose proof (undefined_name_prefix i) as Hp. by rewrite H in Hp.
Qed.

(** The keys of the store before the last step of [__init__]. *)
Lemma init_store_dom c fv args k :
  wf_class c →
  (∀ k, is_Some (args !! k) → k = "version" ∨ k ∈ _fields c) →
  is_Some (init_store c fv args !! k) ↔ k ∈ defined_fields c (default [] fv).
Proof.
  intros Hwf Hargs. unfold init_store. rewrite lookup_union_is_Some. split.
  - intros [Hk|Hk].
    + destruct (decide (k = "version")) as [->|Hne].
      { rewrite lookup_delete_eq in Hk. by destruct Hk. }
      rewrite lookup_delete_ne in Hk by done.
      destruct (Hargs k Hk) as [?|Hin]; [done|].
      unfold defined_fields. apply elem_of_app. by left.
    + destruct fv as [raw|]; simpl.
      * by apply (raw_store_dom c raw args).
      * apply init_defaults_dom in Hk. unfold defined_fields.
        apply elem_of_app. by left.
  - intros Hk. right.
    assert (k ∈ _fields c → is_Some (fields (init_defaults c args) !! k)) as Hd
      by apply init_defaults_is_Some.
    destruct fv as [raw|]; simpl in Hk.
    + unfold defined_fields in Hk. apply elem_of_app in Hk as [Hk|Hk].
      { by apply update_is_Some, Hd. }
      apply list_elem_of_fmap in Hk as (i & -> & Hi).
      unfold range in Hi. apply elem_of_seq in Hi.
      apply (update_zip_is_Some _ (defined_fields c raw) raw).
      * apply list_elem_of_lookup. exists i.
        apply defined_fields_lookup_extra; lia.
      * rewrite defined_fields_length; lia.
    + unfold defined_fields, range in Hk. simpl in Hk.
      rewrite app_nil_r in Hk. by apply Hd.
Qed.

Lemma init_fields c fv args :
  wf_class c →
  (∀ k, is_Some (args !! k) → k = "version" ∨ k ∈ _fields c) →
  fields (__init__ c fv args) = init_store c fv args.
Proof.
  intros Hwf Hargs. rewrite init_unfold. rewrite name_step_fields; [done|].
  simpl. rewrite init_defaults_cls.
  intros Hname%(init_store_dom c fv args "name" Hwf Hargs).
  unfold defined_fields in Hname.
  apply elem_of_app in Hname as [?|(i & Hi & _)%list_elem_of_fmap]; [done|].
  by destruct (undefined_name_not_name i).
Qed.

Lemma size_of_keys (m : gmap string value) (l : list string) :
  NoDup l → (∀ k, is_Some (m !! k) ↔ k ∈ l) → size m = length l.
Proof.
  intros Hnd Hk. rewrite <- size_dom.
  assert (dom m = (list_to_set l : gset string)) as ->.
  { apply set_eq. intros k. rewrite elem_of_dom, elem_of_list_to_set. apply Hk. }
  by apply size_list_to_set.
Qed.

(** A raw value reaches the field of its position, unless a named value
    takes its place. *)
Lemma init_lookup_raw c raw args i n v :
  wf_class c →
  defined_fields c raw !! i = Some n → raw !! i = Some v →
  n ≠ "name" ∨ "name" ∈ _fields c →
  args !! n = None →
  fields (__init__ c (Some raw) args) !! n = Some v.
Proof.
  intros Hwf Hn Hv Hname Hargs. rewrite init_unfold.
  rewrite name_step_lookup by (simpl; by rewrite init_defaults_cls).
  simpl. unfold init_store. rewrite lookup_union_r.
  - eapply update_lookup_zip; [by apply defined_fields_NoDup|done..].
  - apply lookup_delete_None. by right.
Qed.

(** A declared field that the raw list does not reach, and that no named
    value sets, holds what it holds in an object built from nothing. *)
Lemma init_lookup_unreached c raw n :
  (length raw ≤ length (_fields c))%nat →
  n ∈ _fields c → n ∉ take (length raw) (_fields c) →
  fields (__init__ c (Some raw) ∅) !! n = fields (__init__ c None ∅) !! n.
Proof.
  intros Hlen Hn Hcov. rewrite !init_unfold.
  rewrite !name_step_fields_lookup by (simpl; by rewrite init_defaults_cls).
  simpl. unfold init_store. rewrite !lookup_union_r by by rewrite delete_empty.
  apply update_lookup_notin. intros Hin%zip_fst_take.
  by rewrite defined_fields_short in Hin.
Qed.

Lemma init_short_has_extras c raw :
  wf_class c → (length raw ≤ length (_fields c))%nat →
  has_extras (__init__ c (Some raw) ∅) 0.
Proof.
  intros Hwf Hlen. apply has_extras_spec. split; [|by intros i ?%elem_of_nil].
  rewrite init_unfold, name_step_cls. simpl. rewrite init_defaults_cls.
  intros k Hk%name_step_dom. left. simpl in Hk.
  apply (init_store_dom c (Some raw) ∅ k Hwf) in Hk.
  - simpl in Hk. by rewrite defined_fields_short in Hk.
  - intros k' [? Hk']. by rewrite lookup_empty in Hk'.
Qed.

(** X1.  Assigning to a name the class does not declare.  The value goes to
    the instance dictionary and not to the field store: reading the name
    gives the new value, yet the store, the ordered fields, the length and
    the wire form are what they were.  This holds also for the name of an
    extra field that is in the store ([undefined-6], say): the store keeps
    the old value under that name, and the wire form keeps writing it.  (The
    name is not one the class binds, nor a special one.) *)
Theorem setattr_undeclared_shadows (o : UserObject) (n : string) (v : value) :
  plain_name n → n ∉ _fields (cls o) →
  fields (__setattr__ o n v) = fields o ∧
  getattr (__setattr__ o n v) n = Ok v ∧
  __getattr__ (__setattr__ o n v) n = __getattr__ o n ∧
  ordered_fields (__setattr__ o n v) = ordered_fields o ∧
  __len__ (__setattr__ o n v) = __len__ o ∧
  (n ≠ "version" → to_construct (__setattr__ o n v) = to_construct o).
Proof.
  intros _ Hn. rewrite setattr_other by done. split_and!; try done.
  - unfold getattr. simpl. by rewrite lookup_insert_eq.
  - intros Hv. unfold to_construct.
    change (field_values (set_attrs o (<[n:=v]> (attrs o)))) with (field_values o).
    destruct (field_values o) as [vs|e]; simpl; [|done].
    rewrite !encode_loop_id.
    assert (getattr (set_attrs o (<[n:=v]> (attrs o))) "version" =
            getattr o "version") as ->; [|done].
    unfold getattr. simpl. by rewrite lookup_insert_ne.
Qed.

Lemma setattr_undeclared_shadows_witness :
  plain_name "undefined-6" ∧
  ("undefined-6" ∉ _fields (cls Examples.morph8)) ∧
  fields Examples.morph8 !! "undefined-6" = Some (VStr "x") ∧
  getattr (__setattr__ Examples.morph8 "undefined-6" (VInt 0)) "undefined-6" =
    Ok (VInt 0) ∧
  ordered_fields (__setattr__ Examples.morph8 "undefined-6" (VInt 0)) =
    ordered_fields Examples.morph8 ∧
  to_construct (__setattr__ Examples.morph8 "undefined-6" (VInt 0)) =
    to_construct Examples.morph8.
Proof.
  assert (plain_name "undefined-6") as H0 by (split; [by_computation|reflexivity]).
  assert ("undefined-6" ∉ _fields (cls Examples.morph8)) as H1 by by_computation.
  destruct (setattr_undeclared_shadows Examples.morph8 "undefined-6" (VInt 0) H0 H1)
    as (_ & Hget & _ & Hof & _ & Hwire).
  split; [exact H0|]. split; [exact H1|]. split; [reflexivity|]. split; [exact Hget|].
  split; [exact Hof|]. apply Hwire. discriminate.
Defined.

(** X2.  Deleting a declared field.  For a class that declares no field
    twice, [del o.n] on a declared field (of a name that is not one the class
    binds, nor a special one) that is in the store succeeds and
    takes the entry out: the length drops by one and reading [n] raises
    [AttributeError].  The ordered fields keep their length and order, with
    [None] where the value was (or raise what they raised before), so the wire
    form still has a place for the field.  Deleting again raises
    [AttributeError] unless the instance dictionary has the name, and
    assigning the field again gives what assigning it before the deletion
    would have given. *)
Theorem delattr_declared_field (o : UserObject) (n : string) :
  plain_name n →
  NoDup (_fields (cls o)) → n ∈ _fields (cls o) → is_Some (fields o !! n) →
  ∃ o', __delattr__ o n = Ok o' ∧
        cls o' = cls o ∧ attrs o' = attrs o ∧
        __getattr__ o' n = Raise (AttributeError n) ∧
        S (__len__ o') = __len__ o ∧
        ordered_fields o' =
          bind (ordered_fields o)
            (λ l, Ok ((λ kv, if decide (kv.1 = n) then (n, VNone) else kv) <$> l)) ∧
        (attrs o !! n = None → __delattr__ o' n = Raise (AttributeError n)) ∧
        (∀ v, __setattr__ o' n v = __setattr__ o n v).
Proof.
  intros _ Hnd Hn [v Hv].
  exists (set_fields o (delete n (fields o))).
  split_and!.
  - unfold __delattr__. by rewrite Hv.
  - done.
  - done.
  - unfold __getattr__. simpl. by rewrite lookup_delete_eq.
  - unfold __len__. simpl. rewrite map_size_delete, Hv.
    assert (size (fields o) ≠ 0%nat); [|lia].
    intros Hz%map_size_empty_inv. by rewrite Hz, lookup_empty in Hv.
  - unfold ordered_fields. simpl.
    destruct (declared_loop_ok (fields o) (_fields (cls o)) (fields o))
      as (left & -> & Hin & Hout); [done..|].
    destruct (declared_loop_ok (delete n (fields o)) (_fields (cls o))
                (delete n (fields o)))
      as (left' & -> & Hin' & Hout'); [done..|].
    assert (left' = left) as ->.
    { apply map_eq. intros k. destruct (decide (k ∈ _fields (cls o))) as [Hk|Hk].
      - by rewrite Hin, Hin'.
      - rewrite Hout, Hout' by done. apply lookup_delete_ne. by intros <-. }
    cbn [bind fst snd].
    destruct (sorted suffix_key (map_to_list left)) as [extras|e] eqn:Hs;
      cbn [bind]; [|done].
    f_equal. rewrite fmap_app. f_equal.
    + unfold declared_part. rewrite <- list_fmap_compose.
      apply list_fmap_ext. intros _ m _. simpl. case_decide as Hm.
      * subst m. by rewrite lookup_delete_eq.
      * by rewrite lookup_delete_ne.
    + rewrite <- (list_fmap_id extras) at 1. apply list_fmap_ext.
      intros _ [k w] Hk%list_elem_of_lookup_2. simpl.
      rewrite (sorted_perm _ _ _ Hs) in Hk. apply elem_of_map_to_list in Hk.
      case_decide as Hkn; [|done]. subst k. by rewrite Hin in Hk.
  - intros Ha. unfold __delattr__. simpl. by rewrite lookup_delete_eq, Ha.
  - intros w. rewrite !setattr_declared by done. unfold set_fields. simpl.
    by rewrite insert_delete_eq.
Qed.

Lemma delattr_declared_field_witness :
  plain_name "flags" ∧
  NoDup (_fields (cls Examples.morph8)) ∧
  "flags" ∈ _fields (cls Examples.morph8) ∧
  is_Some (fields Examples.morph8 !! "flags") ∧
  __len__ Examples.morph8 = 8%nat ∧
  ∃ o', __delattr__ Examples.morph8 "flags" = Ok o' ∧
        __len__ o' = 7%nat ∧
        __getattr__ o' "flags" = Raise (AttributeError "flags") ∧
        field_values Examples.morph8 =
          Ok [VInt 1; VInt 2; VInt 3; VInt 4; VInt 5; VInt 6; VStr "x"; VStr "y"] ∧
        field_values o' =
          Ok [VInt 1; VInt 2; VInt 3; VInt 4; VNone; VInt 6; VStr "x"; VStr "y"].
Proof.
  assert (plain_name "flags") as H0 by (split; [by_computation|reflexivity]).
  assert (NoDup (_fields (cls Examples.morph8))) as H1 by by_computation.
  assert ("flags" ∈ _fields (cls Examples.morph8)) as H2 by by_computation.
  assert (is_Some (fields Examples.morph8 !! "flags")) as H3
    by (exists (VInt 5); reflexivity).
  assert (__len__ Examples.morph8 = 8%nat) as H4 by reflexivity.
  assert (ordered_fields Examples.morph8 =
          Ok [("bounds", VInt 1); ("owner", VInt 2); ("submorphs", VInt 3);
              ("color", VInt 4); ("flags", VInt 5); ("properties", VInt 6);
              ("undefined-6", VStr "x"); ("undefined-7", VStr "y")]) as H5
    by (vm_compute; reflexivity).
  destruct (delattr_declared_field Examples.morph8 "flags" H0 H1 H2 H3)
    as (o' & Hdel & _ & _ & Hget & Hlen & Hof & _).
  split_and!; try assumption.
  exists o'. split_and!; try assumption.
  - rewrite H4 in Hlen. by injection Hlen.
  - unfold field_values. by rewrite H5.
  - unfold field_values. rewrite Hof, H5. reflexivity.
Defined.

(** X3.  The length of a new object.  For a class whose declared fields are
    pairwise distinct and none of them a synthetic name, and named values for
    declared fields only ([version] aside): a new object has one store entry
    for each declared field and one for each raw value past them, so its
    length is the larger of the two counts; without raw values (or with an
    empty list of them) it is the number of declared fields. *)
Theorem len_of_new_object (c : pyclass) (fv : option (list value))
    (args : gmap string value) :
  wf_class c →
  (∀ k, is_Some (args !! k) → k = "version" ∨ k ∈ _fields c) →
  __len__ (__init__ c fv args) =
    (length (_fields c) `max` length (default [] fv))%nat.
Proof.
  intros Hwf Hargs. unfold __len__. rewrite init_fields by done.
  rewrite (size_of_keys _ (defined_fields c (default [] fv))).
  - unfold defined_fields, range. rewrite length_app, length_fmap, length_seq. lia.
  - by apply defined_fields_NoDup.
  - intros k. by apply init_store_dom.
Qed.

Lemma len_of_new_object_witness :
  wf_class Morph ∧
  (∀ k, is_Some ((∅ : gmap string value) !! k) → k = "version" ∨ k ∈ _fields Morph) ∧
  __len__ Examples.morph8 = 8%nat ∧
  __len__ Examples.morph_short = 6%nat ∧
  __len__ (__init__ Morph None ∅) = 6%nat.
Proof.
  assert (wf_class Morph) as H1 by by_computation.
  assert (∀ k, is_Some ((∅ : gmap string value) !! k) →
               k = "version" ∨ k ∈ _fields Morph) as H2.
  { intros k [v Hk]. by rewrite lookup_empty in Hk. }
  split; [exact H1|]. split; [exact H2|]. split_and!.
  - exact (len_of_new_object Morph
             (Some [VInt 1; VInt 2; VInt 3; VInt 4; VInt 5; VInt 6; VStr "x"; VStr "y"])
             ∅ H1 H2).
  - exact (len_of_new_object Morph (Some [VInt 1; VInt 2]) ∅ H1 H2).
  - exact (len_of_new_object Morph None ∅ H1 H2).
Defined.

(** X4.  Where the arguments of the constructor end up.  For a class whose
    declared fields are pairwise distinct and none of them a synthetic name:
    the raw value at a position within the declared fields is stored under the
    field of that position, whatever [set_defaults] had put there; a raw value
    at a later position [i] is stored under [undefined-i]; and a named value
    wins over both (the name [version] is not stored, and the name [name] is
    stored only when the class declares it). *)
Theorem init_arguments_stored (c : pyclass) (raw : list value)
    (args : gmap string value) :
  wf_class c →
  (∀ i n v, _fields c !! i = Some n → raw !! i = Some v → args !! n = None →
            fields (__init__ c (Some raw) args) !! n = Some v) ∧
  (∀ i v, (length (_fields c) ≤ i)%nat → raw !! i = Some v →
          args !! undefined_name i = None →
          fields (__init__ c (Some raw) args) !! undefined_name i = Some v) ∧
  (∀ fv n v, args !! n = Some v → n ≠ "version" →
             n ≠ "name" ∨ "name" ∈ _fields c →
             fields (__init__ c fv args) !! n = Some v).
Proof.
  intros Hwf. split_and!.
  - intros i n v Hn Hv Hargs.
    apply (init_lookup_raw c raw args i n v); try done.
    + by apply defined_fields_lookup_declared.
    + destruct (decide (n = "name")) as [->|]; [right|by left].
      by eapply list_elem_of_lookup_2.
  - intros i v Hi Hv Hargs.
    apply (init_lookup_raw c raw args i _ v); try done.
    + apply defined_fields_lookup_extra; [done|]. by eapply lookup_lt_Some.
    + left. apply undefined_name_not_name.
  - intros fv n v Hn Hver Hname. rewrite init_unfold.
    rewrite name_step_lookup by (simpl; by rewrite init_defaults_cls).
    simpl. unfold init_store. apply lookup_union_Some_l.
    by rewrite lookup_delete_ne.
Qed.

Lemma init_arguments_stored_witness :
  wf_class Morph ∧
  fields (__init__ Morph None ∅) !! "flags" = Some (VInt 0) ∧
  fields (__init__ Morph (Some Examples.morph9_raw) ∅) !! "flags" = Some (VInt 5) ∧
  fields (__init__ Morph (Some Examples.morph9_raw) ∅) !! "undefined-7" =
    Some (VStr "y") ∧
  fields (__init__ Morph (Some Examples.morph9_raw) {[ "flags" := VInt 9 ]})
    !! "flags" = Some (VInt 9).
Proof.
  assert (wf_class Morph) as H1 by by_computation.
  destruct (init_arguments_stored Morph Examples.morph9_raw ∅ H1)
    as (Hdecl & Hextra & _).
  destruct (init_arguments_stored Morph Examples.morph9_raw
              {[ "flags" := VInt 9 ]} H1) as (_ & _ & Hnamed).
  split; [exact H1|]. split; [reflexivity|]. split_and!.
  - apply (Hdecl 4%nat "flags" (VInt 5)); reflexivity.
  - apply (Hextra 7%nat (VStr "y")); [vm_compute; lia|reflexivity..].
  - apply (Hnamed (Some Examples.morph9_raw) "flags" (VInt 9));
      [reflexivity|discriminate|by left].
Defined.

(** X5.  The version of an object.  For a class of the kind above, whatever
    the raw and named values: the version is the named value [version] when
    there is one and the [_version] of the class otherwise, it is kept in the
    instance dictionary, and [version] is never a key of the field store, so
    it takes no place among the field values. *)
Theorem init_version (c : pyclass) (fv : option (list value))
    (args : gmap string value) :
  wf_class c →
  getattr (__init__ c fv args) "version" =
    Ok (default (VInt (_version c)) (args !! "version")) ∧
  fields (__init__ c fv args) !! "version" = None.
Proof.
  intros Hwf. split.
  - unfold getattr. rewrite init_unfold, name_step_version. simpl.
    by rewrite init_defaults_version.
  - rewrite init_unfold.
    rewrite name_step_lookup by (left; discriminate).
    simpl. unfold init_store. apply lookup_union_None. split.
    + apply lookup_delete_eq.
    + destruct Hwf as (Hnd & Hver & Hpre & Hbody).
      apply eq_None_not_Some. intros Hk.
      assert ("version" ∈ defined_fields c (default [] fv)) as Hin.
      { destruct fv as [raw|]; simpl.
        - by apply (raw_store_dom c raw args).
        - apply init_defaults_dom in Hk. unfold defined_fields.
          apply elem_of_app. by left. }
      unfold defined_fields in Hin.
      apply elem_of_app in Hin as [?|(i & Hi & _)%list_elem_of_fmap]; [done|].
      by destruct (undefined_name_not_version i).
Qed.

Lemma init_version_witness :
  wf_class ScratchSpriteMorph ∧
  getattr (__init__ ScratchSpriteMorph None ∅) "version" = Ok (VInt 3) ∧
  getattr (__init__ ScratchSpriteMorph None {[ "version" := VInt 7 ]}) "version" =
    Ok (VInt 7) ∧
  fields (__init__ ScratchSpriteMorph None {[ "version" := VInt 7 ]}) !! "version" =
    None.
Proof.
  assert (wf_class ScratchSpriteMorph) as H1 by by_computation.
  split; [exact H1|]. split_and!.
  - exact (proj1 (init_version ScratchSpriteMorph None ∅ H1)).
  - exact (proj1 (init_version ScratchSpriteMorph None {[ "version" := VInt 7 ]} H1)).
  - exact (proj2 (init_version ScratchSpriteMorph None {[ "version" := VInt 7 ]} H1)).
Defined.

(** X6.  The named value [name] on a class that does not declare it.  The
    last step of [__init__] takes [name] out of the store and assigns it as
    an attribute, which for such a class lands in the instance dictionary:
    the store of the new object never holds [name], reading [name] gives the
    value, and (for a class of the kind above, with no other undeclared named
    value) the ordered fields are the declared fields and nothing else.  Any
    other undeclared name stays in the store. *)
Theorem init_name_undeclared (c : pyclass) (fv : option (list value))
    (args : gmap string value) :
  "name" ∉ _fields c →
  fields (__init__ c fv args) !! "name" = None ∧
  (∀ v, args !! "name" = Some v →
        getattr (__init__ c fv args) "name" = Ok v) ∧
  (∀ n v, args !! n = Some v → n ≠ "version" → n ≠ "name" →
          fields (__init__ c fv args) !! n = Some v) ∧
  (wf_class c →
   (∀ k, is_Some (args !! k) → k = "version" ∨ k = "name" ∨ k ∈ _fields c) →
   ∃ l, ordered_fields (__init__ c None args) = Ok l ∧ l.*1 = _fields c).
Proof.
  intros Hname.
  assert (∀ fv, fields (__init__ c fv args) !! "name" = None) as Hnone.
  { intros fv'. rewrite init_unfold. unfold name_step. simpl.
    destruct (init_store c fv' args !! "name") as [v|] eqn:Hv; [|done].
    rewrite setattr_other by (simpl; by rewrite init_defaults_cls).
    simpl. apply lookup_delete_eq. }
  split_and!.
  - apply Hnone.
  - intros v Hv. rewrite init_unfold. unfold name_step.
    assert (init_store c fv args !! "name" = Some v) as Hs.
    { unfold init_store. apply lookup_union_Some_l. by rewrite lookup_delete_ne. }
    simpl. rewrite Hs.
    rewrite setattr_other by (simpl; by rewrite init_defaults_cls).
    unfold getattr. simpl. by rewrite lookup_insert_eq.
  - intros n v Hn Hver Hnn. rewrite init_unfold.
    rewrite name_step_lookup by by left.
    simpl. unfold init_store. apply lookup_union_Some_l.
    by rewrite lookup_delete_ne.
  - intros Hwf Hargs.
    assert (has_extras (__init__ c None args) 0) as Hext.
    { apply has_extras_spec. split; [|by intros i ?%elem_of_nil].
      intros k Hk. left.
      assert (cls (__init__ c None args) = c) as ->.
      { rewrite init_unfold, name_step_cls. apply init_defaults_cls. }
      destruct (decide (k = "name")) as [->|Hkn].
      { rewrite Hnone in Hk. by destruct Hk. }
      rewrite init_unfold in Hk. apply name_step_dom in Hk. simpl in Hk.
      unfold init_store in Hk. apply lookup_union_is_Some in Hk as [Hk|Hk].
      - destruct (decide (k = "version")) as [->|Hne].
        + rewrite lookup_delete_eq in Hk. by destruct Hk.
        + rewrite lookup_delete_ne in Hk by done.
          by destruct (Hargs k Hk) as [?|[?|?]].
      - by apply init_defaults_dom in Hk. }
    assert (cls (__init__ c None args) = c) as Hcls.
    { rewrite init_unfold, name_step_cls. apply init_defaults_cls. }
    eexists. split.
    + apply (ordered_fields_has_extras _ 0); [by rewrite Hcls|done].
    + rewrite Hcls. simpl. rewrite app_nil_r. apply declared_part_fst.
Qed.

Lemma init_name_undeclared_witness :
  ("name" ∉ _fields Morph) ∧
  wf_class Morph ∧
  fields (__init__ Morph None {[ "name" := VStr "m" ]}) !! "name" = None ∧
  getattr (__init__ Morph None {[ "name" := VStr "m" ]}) "name" = Ok (VStr "m") ∧
  (∃ l, ordered_fields (__init__ Morph None {[ "name" := VStr "m" ]}) = Ok l ∧
        l.*1 = _fields Morph) ∧
  fields Examples.morph_named !! "costume" = Some (VInt 1) ∧
  ordered_fields Examples.morph_named = Raise IndexError.
Proof.
  assert ("name" ∉ _fields Morph) as H1 by by_computation.
  assert (wf_class Morph) as H2 by by_computation.
  destruct (init_name_undeclared Morph None {[ "name" := VStr "m" ]} H1)
    as (Hstore & Hget & _ & Hof).
  destruct (init_name_undeclared Morph None {[ "costume" := VInt 1 ]} H1)
    as (_ & _ & Hother & _).
  split; [exact H1|]. split; [exact H2|]. split_and!.
  - exact Hstore.
  - apply Hget. reflexivity.
  - apply Hof; [exact H2|]. intros k [v Hk].
    apply lookup_singleton_Some in Hk as [<- _]. right. by left.
  - apply (Hother "costume" (VInt 1)); [reflexivity|discriminate..].
  - reflexivity.
Defined.

(** X7.  A raw list shorter than the declared fields is padded.  For a class
    of the kind above and a raw list no longer than its declared fields, the
    field values of the new object are the raw values followed by the field
    values that an object built from nothing has at the remaining positions
    (what [set_defaults] assigns there, [None] otherwise); so the wire form
    always has a value for every declared field. *)
Theorem field_values_short_raw (c : pyclass) (raw : list value) :
  wf_class c → (length raw ≤ length (_fields c))%nat →
  ∃ defaults,
    field_values (__init__ c None ∅) = Ok defaults ∧
    length defaults = length (_fields c) ∧
    field_values (__init__ c (Some raw) ∅) = Ok (raw ++ drop (length raw) defaults).
Proof.
  intros Hwf Hlen.
  assert (∀ fv, cls (__init__ c fv ∅) = c) as Hcls.
  { intros fv. rewrite init_unfold, name_step_cls. apply init_defaults_cls. }
  assert (∀ fv, has_extras (__init__ c fv ∅) 0 →
            field_values (__init__ c fv ∅) =
            Ok ((λ n, default VNone (fields (__init__ c fv ∅) !! n)) <$> _fields c))
    as Hfv.
  { intros fv Hext. unfold field_values.
    rewrite (ordered_fields_has_extras _ 0) by (by rewrite ?Hcls).
    rewrite Hcls. cbn [bind seq extras_part fmap list_fmap]. rewrite app_nil_r.
    unfold declared_part. by rewrite <- list_fmap_compose. }
  exists ((λ n, default VNone (fields (__init__ c None ∅) !! n)) <$> _fields c).
  split_and!.
  - apply Hfv, init_named_has_extras. intros k [? Hk].
    by rewrite lookup_empty in Hk.
  - by rewrite length_fmap.
  - rewrite Hfv by by apply init_short_has_extras. f_equal.
    apply list_eq. intros i. rewrite list_lookup_fmap.
    destruct (decide (i < length raw)%nat) as [Hi|Hi].
    + rewrite lookup_app_l by done.
      destruct (lookup_lt_is_Some_2 raw i Hi) as [v Hv].
      destruct (lookup_lt_is_Some_2 (_fields c) i) as [n Hn]; [lia|].
      rewrite Hn, Hv. simpl.
      rewrite (init_lookup_raw c raw ∅ i n v); try done.
      * by apply defined_fields_lookup_declared.
      * destruct (decide (n = "name")) as [->|]; [right|by left].
        by eapply list_elem_of_lookup_2.
    + rewrite lookup_app_r by lia. rewrite lookup_drop.
      replace (length raw + (i - length raw))%nat with i by lia.
      rewrite list_lookup_fmap.
      destruct (_fields c !! i) as [n|] eqn:Hn; simpl; [|done].
      rewrite init_lookup_unreached; [done|done|by eapply list_elem_of_lookup_2|].
      intros Hin. apply list_elem_of_lookup in Hin as [j Hj].
      apply lookup_take_Some in Hj as [Hj Hlt].
      destruct Hwf as (Hnd & _).
      pose proof (NoDup_lookup _ _ _ _ Hnd Hj Hn). lia.
Qed.

Lemma field_values_short_raw_witness :
  wf_class Morph ∧
  (length [VInt 1; VInt 2] ≤ length (_fields Morph))%nat ∧
  field_values Examples.morph_short =
    Ok [VInt 1; VInt 2; VList []; Color 1023 1023 1023; VInt 0; VNone].
Proof.
  assert (wf_class Morph) as H1 by by_computation.
  assert (length [VInt 1; VInt 2] ≤ length (_fields Morph))%nat as H2
    by (vm_compute; lia).
  split; [exact H1|]. split; [exact H2|].
  destruct (field_values_short_raw Morph [VInt 1; VInt 2] H1 H2)
    as (defaults & Hd & _ & Hfv).
  assert (field_values (__init__ Morph None ∅) =
          Ok [Rectangle [0; 0; 1; 1]%Z; VNone; VList []; Color 1023 1023 1023;
              VInt 0; VNone]) as Hd' by (vm_compute; reflexivity).
  rewrite Hd' in Hd. injection Hd as <-. exact Hfv.
Defined.

(** X8.  The class tag of the wire form names one class.  [to_construct]
    writes the name of the class as [classID]; no two classes of the catalog
    share a name, nor a numeric [classID], and each has one: two objects of
    catalog classes whose wire forms carry the same tag are of the same
    class. *)
Theorem wire_class_tag_unique (r1 r2 : UserObject) (w1 w2 : Container) :
  cls r1 ∈ catalog → cls r2 ∈ catalog →
  to_construct r1 = Ok w1 → to_construct r2 = Ok w2 →
  (c_classID w1 = c_classID w2 → cls r1 = cls r2) ∧
  (classID (cls r1) = classID (cls r2) → cls r1 = cls r2) ∧
  is_Some (classID (cls r1)).
Proof.
  intros Hc1 Hc2 Hw1 Hw2.
  assert (c_classID w1 = __name__ (cls r1)) as ->.
  { unfold to_construct in Hw1.
    destruct (field_values r1); simpl in Hw1; [|done].
    destruct (getattr r1 "version"); simpl in Hw1; [|done]. by simplify_eq. }
  assert (c_classID w2 = __name__ (cls r2)) as ->.
  { unfold to_construct in Hw2.
    destruct (field_values r2); simpl in Hw2; [|done].
    destruct (getattr r2 "version"); simpl in Hw2; [|done]. by simplify_eq. }
  assert (NoDup (__name__ <$> catalog)) as Hnames by by_computation.
  assert (NoDup (classID <$> catalog)) as Hids by by_computation.
  assert (Forall (λ c, is_Some (classID c)) catalog) as Hsome by by_computation.
  split_and!.
  - by apply (NoDup_fmap_eq __name__ catalog).
  - by apply (NoDup_fmap_eq classID catalog).
  - rewrite Forall_forall in Hsome. by apply Hsome.
Qed.

Lemma wire_class_tag_unique_witness :
  cls Examples.morph8 ∈ catalog ∧ cls Examples.morph_short ∈ catalog ∧
  ∃ w1 w2, to_construct Examples.morph8 = Ok w1 ∧
           to_construct Examples.morph_short = Ok w2 ∧
           c_classID w1 = "Morph" ∧ c_classID w1 = c_classID w2 ∧
           cls Examples.morph8 = cls Examples.morph_short.
Proof.
  assert (cls Examples.morph8 ∈ catalog) as H1
    by (unfold catalog; apply list_elem_of_here).
  assert (cls Examples.morph_short ∈ catalog) as H2
    by (unfold catalog; apply list_elem_of_here).
  split; [exact H1|]. split; [exact H2|].
  destruct (to_construct Examples.morph8) as [w1|] eqn:Hw1; [|by vm_compute in Hw1].
  destruct (to_construct Examples.morph_short) as [w2|] eqn:Hw2;
    [|by vm_compute in Hw2].
  exists w1, w2.
  assert (c_classID w1 = "Morph") as Hn1.
  { vm_compute in Hw1. by injection Hw1 as <-. }
  assert (c_classID w2 = "Morph") as Hn2.
  { vm_compute in Hw2. by injection Hw2 as <-. }
  split; [done|]. split; [done|]. split; [exact Hn1|]. split; [congruence|].
  exact (proj1 (wire_class_tag_unique _ _ w1 w2 H1 H2 Hw1 Hw2)
           (eq_trans Hn1 (eq_sym Hn2))).
Defined.

(** X9.  Decoding and encoding again.  For a class of the kind above (every
    class of the catalog is one) and a wire form that carries the name of the
    class, at least as many field values as the class declares fields, and
    their count as its length: [from_construct] followed by [to_construct]
    gives the wire form back, field values and version included. *)
Theorem to_construct_from_construct (c : pyclass) (w : Container) :
  wf_class c →
  c_classID w = __name__ c →
  c_length w = length (c_field_values w) →
  (length (_fields c) ≤ length (c_field_values w))%nat →
  to_construct (from_construct c w) = Ok w.
Proof.
  intros Hwf Hid Hlen Hge. unfold from_construct.
  set (m := (length (c_field_values w) - length (_fields c))%nat).
  set (o := __init__ c (Some (c_field_values w)) {[ "version" := c_version w ]}).
  destruct (init_raw c Hwf (c_field_values w) {[ "version" := c_version w ]} m)
    as (Hcls & Hfields & Hext & Hver); [apply delete_singleton_eq|unfold m; lia|].
  fold o in Hcls, Hfields, Hext, Hver.
  rewrite lookup_singleton_eq in Hver. simpl in Hver.
  assert (field_values o = Ok (c_field_values w)) as Hfv.
  { unfold field_values.
    rewrite (ordered_fields_has_extras o m) by (by rewrite ?Hcls).
    cbn [bind]. rewrite Hcls, Hfields. f_equal.
    apply ordered_values_raw; [done|]. unfold m. lia. }
  unfold to_construct. rewrite Hfv. cbn [bind]. rewrite encode_loop_id.
  unfold getattr. rewrite Hver. cbn [bind]. rewrite Hcls.
  rewrite <- Hid, <- Hlen. by destruct w.
Qed.

Lemma to_construct_from_construct_witness :
  wf_class Morph ∧
  to_construct
    (from_construct Morph
       {| c_classID := "Morph"; c_field_values := Examples.morph9_raw;
          c_length := 9; c_version := VInt 1 |}) =
  Ok {| c_classID := "Morph"; c_field_values := Examples.morph9_raw;
        c_length := 9; c_version := VInt 1 |}.
Proof.
  assert (wf_class Morph) as H1 by by_computation.
  split; [exact H1|].
  apply (to_construct_from_construct Morph
           {| c_classID := "Morph"; c_field_values := Examples.morph9_raw;
              c_length := 9; c_version := VInt 1 |} H1);
    [reflexivity|reflexivity|vm_compute; lia].
Defined.

Lemma name_step_attrs o :
  "name" ∈ _fields (cls o) ∨ fields o !! "name" = None →
  attrs (name_step o) = attrs o.
Proof.
  intros H. unfold name_step.
  destruct (fields o !! "name") as [v|] eqn:Hv; [|done].
  destruct H as [H|H]; [|done]. by rewrite setattr_declared.
Qed.

Lemma assign_all_lookup_unassigned o l n :
  n ∉ l.*1 → fields (assign_all o l) !! n = fields o !! n.
Proof.
  unfold assign_all. revert o. induction l as [|a l IH]; intros o Hn; simpl; [done|].
  rewrite fmap_cons in Hn. apply not_elem_of_cons in Hn as [Hne Hn].
  rewrite IH by done. rewrite setattr_fields_lookup.
  case_decide as H; [|done]. destruct H as [? _]. congruence.
Qed.

Lemma init_blank_lookup c n :
  NoDup (_fields c) → n ∈ _fields c → fields (init_blank c) !! n = Some VNone.
Proof.
  intros Hnd Hn. apply list_elem_of_lookup in Hn as [i Hi].
  apply (update_lookup_zip _ _ _ i); [done..|].
  apply lookup_replicate. split; [done|]. by eapply lookup_lt_Some.
Qed.

(** X10.  The defaults of the catalog are declared fields.  For every class
    of the catalog, each attribute that its [set_defaults] assigns (its
    parents' included) is a field the class declares.  So an object built
    from nothing keeps nothing but [version] in its instance dictionary,
    every default is in the field store, from where the wire form takes it,
    and a declared field that [set_defaults] does not assign is [None]. *)
Theorem defaults_are_declared (c : pyclass) :
  c ∈ catalog →
  Forall (λ a, a.1 ∈ _fields c) (set_defaults_body c) ∧
  attrs (__init__ c None ∅) = {[ "version" := VInt (_version c) ]} ∧
  (∀ n, n ∈ _fields c → n ∉ (set_defaults_body c).*1 →
        fields (__init__ c None ∅) !! n = Some VNone).
Proof.
  intros Hc.
  assert (wf_class c) as Hwf.
  { pose proof catalog_wf as H. rewrite Forall_forall in H. by apply H. }
  pose proof Hwf as (Hnd & Hver & Hpre & Hbody).
  assert (∀ k, is_Some ((∅ : gmap string value) !! k) →
               k = "version" ∨ k ∈ _fields c) as Hargs.
  { intros k [v Hk]. by rewrite lookup_empty in Hk. }
  split_and!.
  - exact Hbody.
  - rewrite init_unfold, name_step_attrs.
    + simpl. unfold init_defaults, set_defaults.
      fold (assign_all (init_versioned c ∅)
              (set_defaults_body (cls (init_versioned c ∅)))).
      rewrite assign_all_attrs_version; rewrite ?init_versioned_cls; [|done..].
      unfold init_versioned. rewrite lookup_empty.
      by rewrite setattr_other.
    + simpl. rewrite init_defaults_cls.
      destruct (init_store c None ∅ !! "name") as [v|] eqn:Hname; [|by right].
      left.
      assert ("name" ∈ defined_fields c (default [] None)) as Hin.
      { apply (init_store_dom c None ∅ "name" Hwf Hargs). by rewrite Hname. }
      unfold defined_fields, range in Hin. simpl in Hin.
      by rewrite app_nil_r in Hin.
  - intros n Hn Hun. rewrite init_fields by done.
    unfold init_store. rewrite lookup_union_r by by rewrite delete_empty.
    unfold init_defaults, set_defaults.
    fold (assign_all (init_versioned c ∅)
            (set_defaults_body (cls (init_versioned c ∅)))).
    rewrite init_versioned_cls, assign_all_lookup_unassigned by done.
    unfold init_versioned. rewrite lookup_empty.
    rewrite setattr_other by done. simpl. by apply init_blank_lookup.
Qed.

Lemma defaults_are_declared_witness :
  ScratchSpriteMorph ∈ catalog ∧
  attrs (__init__ ScratchSpriteMorph None ∅) = {[ "version" := VInt 3 ]} ∧
  fields (__init__ ScratchSpriteMorph None ∅) !! "volume" = Some (VInt 100) ∧
  fields (__init__ ScratchSpriteMorph None ∅) !! "owner" = Some VNone ∧
  attrs (__init__ ScriptableScratchMorph None ∅) !! "volume" = Some (VInt 100) ∧
  fields (__init__ ScriptableScratchMorph None ∅) !! "volume" = None.
Proof.
  assert (ScratchSpriteMorph ∈ catalog) as H1
    by (apply list_elem_of_lookup; exists 13%nat; reflexivity).
  destruct (defaults_are_declared ScratchSpriteMorph H1) as (_ & Hattrs & Hnone).
  split; [exact H1|]. split; [exact Hattrs|]. split; [reflexivity|]. split.
  - apply Hnone; by_computation.
  - split; reflexivity.
Defined.

(** X11.  The ordered fields lose nothing.  For a class that declares no
    field twice, when [ordered_fields] returns: the names of the result start
    with the declared fields in their order and hold no name twice; every
    entry of the field store is in the result with its value; and the result
    holds nothing else, but for [None] under a declared field that is not in
    the store. *)
Theorem ordered_fields_complete (o : UserObject) (l : list (string * value)) :
  NoDup (_fields (cls o)) → ordered_fields o = Ok l →
  take (length (_fields (cls o))) l.*1 = _fields (cls o) ∧
  NoDup l.*1 ∧
  (∀ k v, fields o !! k = Some v → (k, v) ∈ l) ∧
  (∀ k v, (k, v) ∈ l →
          fields o !! k = Some v ∨
          (k ∈ _fields (cls o) ∧ fields o !! k = None ∧ v = VNone)).
Proof.
  intros Hnd Hof. unfold ordered_fields in Hof.
  destruct (declared_loop_ok (fields o) (_fields (cls o)) (fields o))
    as (left & Hloop & Hin & Hout); [done..|].
  rewrite Hloop in Hof. cbn [bind fst snd] in Hof.
  destruct (sorted suffix_key (map_to_list left)) as [extras|] eqn:Hs;
    cbn [bind] in Hof; [|done].
  injection Hof as <-.
  pose proof (sorted_perm _ _ _ Hs) as Hperm.
  assert (∀ k v, (k, v) ∈ extras ↔ left !! k = Some v) as Hex.
  { intros k v. by rewrite Hperm, elem_of_map_to_list. }
  split_and!.
  - rewrite fmap_app, declared_part_fst. apply take_app_length.
  - rewrite fmap_app, declared_part_fst. apply NoDup_app. split_and!.
    + done.
    + intros k Hk ([k' v] & -> & Hkv)%list_elem_of_fmap. simpl in Hk.
      apply Hex in Hkv. by rewrite Hin in Hkv.
    + rewrite Hperm. apply NoDup_fst_map_to_list.
  - intros k v Hk. apply elem_of_app.
    destruct (decide (k ∈ _fields (cls o))) as [Hd|Hd].
    + left. unfold declared_part. apply list_elem_of_fmap. exists k.
      by rewrite Hk.
    + right. apply Hex. by rewrite Hout.
  - intros k v [Hkv|Hkv]%elem_of_app.
    + unfold declared_part in Hkv.
      apply list_elem_of_fmap in Hkv as (n & [= -> ->] & Hn).
      destruct (fields o !! n) as [w|] eqn:Hw; [by left|by right].
    + left. apply Hex in Hkv.
      destruct (decide (k ∈ _fields (cls o))) as [Hd|Hd].
      * by rewrite Hin in Hkv.
      * by rewrite <- Hout.
Qed.

Lemma ordered_fields_complete_witness :
  NoDup (_fields (cls Examples.morph8)) ∧
  ∃ l, ordered_fields Examples.morph8 = Ok l ∧
       length l = 8%nat ∧ NoDup l.*1 ∧
       ("undefined-7", VStr "y") ∈ l.
Proof.
  assert (NoDup (_fields (cls Examples.morph8))) as H1 by by_computation.
  split; [exact H1|].
  destruct (ordered_fields Examples.morph8) as [l|] eqn:Hl; [|by vm_compute in Hl].
  exists l.
  destruct (ordered_fields_complete Examples.morph8 l H1 Hl)
    as (_ & Hnd & Hall & _).
  split; [done|]. split; [|split; [exact Hnd|]].
  - vm_compute in Hl. by injection Hl as <-.
  - apply Hall. reflexivity.
Defined.

End UserObjectBehaviour.

(** * Further properties of the plugin registry *)

Module RegistryBehaviour.
Import Py Plugin PluginFacts.

(** ** Assignment to an [OrderedDict] *)




(** ** What [register] stores *)

Lemma stored_plugin_name plugin st :
  KurtPlugin.name (stored_plugin plugin st) = KurtPlugin.name plugin.
Proof.
  unfold stored_plugin. by destruct (map_result _ _).
Qed.

Lemma stored_plugin_extension plugin st :
  KurtPlugin.extension (stored_plugin plugin st) = KurtPlugin.extension plugin.
Proof.
  unfold stored_plugin. by destruct (map_result _ _).
Qed.

Lemma register_plugins plugin st :
  plugins (register plugin st).1 =
  odict_set (plugins st) (KurtPlugin.name plugin) (stored_plugin plugin st).
Proof.
  unfold register, stored_plugin. by destruct (map_result _ _).
Qed.

Lemma omap_map_option {A B} (f : A → B) (l : list (option A)) :
  omap id (List.map (option_map f) l) = f <$> omap id l.
Proof.
  induction l as [|[a|] l IH]; [done| |exact IH].
  change (omap id (List.map (option_map f) (Some a :: l)))
    with (f a :: omap id (List.map (option_map f) l)).
  change (f <$> omap id (Some a :: l)) with (f a :: (f <$> omap id l)).
  by rewrite IH.
Qed.


Lemma register_blocks plugin st fs :
  map_result (Feature_get (FEATURES st)) (KurtPlugin.features plugin) = Ok fs →
  register plugin st =
  ({| plugins := odict_set (plugins st) (KurtPlugin.name plugin)
                   (stored_plugin plugin st);
      blocks := (add_blocks (blocks st) (KurtPlugin.name plugin)
                   (TranslatedBlockType.set_format (KurtPlugin.name plugin) <$>
                      omap id (KurtPlugin.blocks plugin))).1;
      FEATURES := FEATURES st |},
   (add_blocks (blocks st) (KurtPlugin.name plugin)
      (TranslatedBlockType.set_format (KurtPlugin.name plugin) <$>
         omap id (KurtPlugin.blocks plugin))).2).
Proof.
  intros Hfs. unfold register, stored_plugin. rewrite Hfs.
  cbn [KurtPlugin.blocks KurtPlugin.fix_blocks KurtPlugin.set_features
       KurtPlugin.name].
  by rewrite omap_map_option.
Qed.

(** ** The scan for a name *)

Lemma scan_by_name (d : list (string * KurtPlugin.t)) (v : KurtPlugin.t) :
  Forall (λ kp, kp.1 = KurtPlugin.name kp.2) d →
  scan (odict_set d (KurtPlugin.name v) v).*2 [("name", KurtPlugin.name v)] = Ok v.
Proof.
  assert (matches v [("name", KurtPlugin.name v)] = Ok true) as Hv.
  { simpl. by rewrite bool_decide_eq_true_2. }
  induction 1 as [|[k w] d Hw Hd IH]; simpl.
  { change (plugin_getattr v "name") with (Ok (AStr (KurtPlugin.name v))).
    simpl. by rewrite bool_decide_eq_true_2. }
  case_bool_decide as Hk; simpl.
  - change (plugin_getattr v "name") with (Ok (AStr (KurtPlugin.name v))).
    simpl. by rewrite bool_decide_eq_true_2.
  - change (plugin_getattr w "name") with (Ok (AStr (KurtPlugin.name w))).
    simpl in *. rewrite bool_decide_eq_false_2 by congruence. simpl. apply IH.
Qed.

(** ** The two loops of [register] over the blocks *)


Lemma merge_translation_None bs name tbt :
  Forall (λ bt, BlockType.has_command bt
                  (Some (TranslatedBlockType.command tbt)) = false ∧
                BlockType.has_command bt (TranslatedBlockType._match tbt) = false)
         bs →
  merge_translation bs name tbt = None.
Proof.
  induction 1 as [|b bs [H1 H2] _ IH]; [done|].
  cbn [merge_translation]. by rewrite H1, H2, IH.
Qed.


(** ** Looking a block up *)

Lemma find_block_app (bs : list BlockType.t) bt c :
  list_find (λ b, BlockType.has_command b (Some c) = true) (bs ++ [bt])
    ≫= (λ ib, Some ib.2) =
  match list_find (λ b, BlockType.has_command b (Some c) = true) bs
          ≫= (λ ib, Some ib.2) with
  | Some b => Some b
  | None => if BlockType.has_command bt (Some c) then Some bt else None
  end.
Proof.
  destruct (list_find _ bs) as [[i x]|] eqn:Hfind.
  - by rewrite (list_find_app_l _ _ _ _ _ Hfind).
  - rewrite list_find_app_r by done.
    destruct (BlockType.has_command bt (Some c)) eqn:Hc.
    + rewrite (proj2 (list_find_Some _ [bt] 0 bt)); [done|].
      split_and!; [done..|]. intros j y _ Hj. lia.
    + rewrite (proj2 (list_find_None _ [bt])); [done|].
      constructor; [congruence|constructor].
Qed.

Lemma block_by_command_None st c :
  block_by_command st c = None ↔
  Forall (λ b, BlockType.has_command b (Some c) = false) (blocks st).
Proof.
  unfold block_by_command.
  destruct (list_find _ (blocks st)) as [[i x]|] eqn:Hfind.
  - split; [intros H; by cbn in H|]. intros Hall.
    apply list_find_Some in Hfind as (Hi & Hx & _).
    rewrite Forall_forall in Hall.
    rewrite (Hall x) in Hx by by eapply list_elem_of_lookup_2. done.
  - split; [|done]. intros _. apply list_find_None in Hfind.
    eapply Forall_impl; [exact Hfind|]. intros b Hb. cbv beta in Hb.
    by destruct (BlockType.has_command b (Some c)).
Qed.



Lemma plugin_getattr_other p k :
  k ∉ plugin_attrs → plugin_getattr p k = Raise (AttributeError k).
Proof.
  intros Hk. unfold plugin_getattr.
  assert (∀ a, a ∈ plugin_attrs → k ≠ a) as Hne by (intros a Ha ->; done).
  rewrite !bool_decide_eq_false_2; [done|..];
    first [ apply Hne; by_computation
          | intros H; apply Hk; do 3 apply list_elem_of_further; exact H ].
Qed.

(** ** The loops of [blocks_by_text] *)

Lemma text_loop_spec stripped_text tbts text :
  text_loop stripped_text tbts text =
  bool_decide (Exists (λ tbt, stripped_text tbt = text) tbts).
Proof.
  induction tbts as [|tbt tbts IH]; cbn [text_loop].
  { symmetry. apply bool_decide_eq_false_2. by intros ?%Exists_nil. }
  destruct (decide (stripped_text tbt = text)) as [Ht|Ht].
  - rewrite (bool_decide_eq_true_2 _ Ht).
    symmetry. apply bool_decide_eq_true_2. by left.
  - rewrite (bool_decide_eq_false_2 _ Ht), IH.
    apply bool_decide_ext. rewrite Exists_cons. tauto.
Qed.

Lemma blocks_loop_spec stripped_text bs text matched :
  blocks_loop stripped_text bs text matched =
  matched ++
  filter (λ bt, Exists (λ tbt, stripped_text tbt = text)
                  (map_to_list (BlockType._translations bt)).*2) bs.
Proof.
  revert matched. induction bs as [|b bs IH]; intros matched.
  { simpl. by rewrite app_nil_r. }
  cbn [blocks_loop]. rewrite IH, text_loop_spec, filter_cons.
  case_bool_decide as Hb.
  - rewrite decide_True by done. by rewrite <- app_assoc.
  - by rewrite decide_False.
Qed.



(** X13.  A registered plugin is found by its name.  On a well-formed
    registry, after [register(plugin)] for a plugin whose name is not empty,
    [get_plugin(plugin.name)] returns the object that [register] stored: the
    plugin with its own name and extension.  This does not depend on
    [register] returning: the plugin is filed before its features are
    resolved, so when a feature name is unknown [register] raises and the
    plugin is in the registry all the same, as it was given. *)
Theorem get_plugin_after_register (plugin : KurtPlugin.t) (st : Kurt) :
  registry_ok st → KurtPlugin.name plugin ≠ EmptyString →
  get_plugin (register plugin st).1 (NameStr (KurtPlugin.name plugin)) ∅ =
    Ok (stored_plugin plugin st) ∧
  KurtPlugin.name (stored_plugin plugin st) = KurtPlugin.name plugin ∧
  KurtPlugin.extension (stored_plugin plugin st) = KurtPlugin.extension plugin ∧
  (∀ s, FeatureName s ∈ KurtPlugin.features plugin → FEATURES st !! s = None →
        is_ok (register plugin st).2 = false ∧ stored_plugin plugin st = plugin).
Proof.
  intros [Hnames _] Hname. split_and!.
  - unfold get_plugin, criteria. rewrite lookup_empty.
    destruct (KurtPlugin.name plugin) as [|a s] eqn:Hn; [done|].
    rewrite bool_decide_eq_false_2 by apply insert_non_empty.
    rewrite insert_empty, map_to_list_singleton, register_plugins.
    rewrite <- Hn, <- (stored_plugin_name plugin st).
    by apply scan_by_name.
  - apply stored_plugin_name.
  - apply stored_plugin_extension.
  - intros s Hin Hs.
    destruct (map_result_raise (Feature_get (FEATURES st))
                (KurtPlugin.features plugin) (FeatureName s) (KeyError s))
      as (y & e' & _ & _ & Hmap); [done|by simpl; rewrite Hs|].
    unfold register, stored_plugin. by rewrite Hmap.
Qed.

Lemma get_plugin_after_register_witness :
  registry_ok Examples.registry_a ∧
  KurtPlugin.name Examples.plugin_unknown_feature ≠ EmptyString ∧
  is_ok (register Examples.plugin_unknown_feature Examples.registry_a).2 = false ∧
  get_plugin (register Examples.plugin_unknown_feature Examples.registry_a).1
    (NameStr "c") ∅ = Ok Examples.plugin_unknown_feature.
Proof.
  assert (registry_ok Examples.registry_a) as H1.
  { split; [by repeat constructor|]. by_computation. }
  assert (KurtPlugin.name Examples.plugin_unknown_feature ≠ EmptyString) as H2
    by discriminate.
  destruct (get_plugin_after_register Examples.plugin_unknown_feature
              Examples.registry_a H1 H2) as (Hget & _ & _ & Hfail).
  destruct (Hfail "Sound") as [Hraise Hsame].
  { apply list_elem_of_further, list_elem_of_here. }
  { reflexivity. }
  split; [exact H1|]. split; [exact H2|]. split; [exact Hraise|].
  rewrite Hsame in Hget. exact Hget.
Defined.





(** X16.  A new block is found by its command.  When the features of a
    plugin resolve and its one block names no block to match and has a
    command that no block of [Kurt.blocks] has, [register] returns, the block
    made from it is appended at the end, [block_by_command] finds it under
    its command, and the answer for every other command is what it was. *)
Theorem block_by_command_after_register (plugin : KurtPlugin.t) (st : Kurt)
    (t : TranslatedBlockType.t) :
  Forall (λ f, is_ok (Feature_get (FEATURES st) f) = true)
         (KurtPlugin.features plugin) →
  KurtPlugin.blocks plugin = [Some t] →
  TranslatedBlockType._match t = None →
  block_by_command st (TranslatedBlockType.command t) = None →
  let bt := BlockType.new
              (TranslatedBlockType.set_format (KurtPlugin.name plugin) t) in
  (register plugin st).2 = Ok () ∧
  blocks (register plugin st).1 = blocks st ++ [bt] ∧
  block_by_command (register plugin st).1 (TranslatedBlockType.command t) =
    Some bt ∧
  (∀ c, c ≠ TranslatedBlockType.command t →
        block_by_command (register plugin st).1 c = block_by_command st c).
Proof.
  intros Hfs Hblocks Hm Hc bt.
  destruct (map_result_ok _ _ Hfs) as [fs Hmap].
  pose proof Hc as Hnone. apply block_by_command_None in Hnone.
  assert (add_blocks (blocks st) (KurtPlugin.name plugin)
            (TranslatedBlockType.set_format (KurtPlugin.name plugin) <$>
               omap id (KurtPlugin.blocks plugin)) =
          (blocks st ++ [bt], Ok ())) as Hadd.
  { rewrite Hblocks. cbn [omap list_omap id fmap list_fmap add_blocks].
    rewrite merge_translation_None.
    2:{ cbn [TranslatedBlockType.set_format TranslatedBlockType._match
             TranslatedBlockType.command]. rewrite Hm.
        eapply Forall_impl; [exact Hnone|]. intros b Hb. by split. }
    cbn [TranslatedBlockType.set_format TranslatedBlockType._match]. rewrite Hm.
    done. }
  rewrite (register_blocks plugin st fs Hmap), Hadd. cbn [fst snd blocks].
  split; [done|]. split; [done|]. split.
  - unfold block_by_command. cbn [blocks]. rewrite find_block_app.
    unfold block_by_command in Hc. rewrite Hc. unfold bt.
    rewrite has_command_new. by rewrite bool_decide_eq_true_2.
  - intros c Hne. unfold block_by_command. cbn [blocks]. rewrite find_block_app.
    destruct (list_find _ (blocks st) ≫= _) as [b|]; [done|].
    unfold bt. rewrite has_command_new. by rewrite bool_decide_eq_false_2.
Qed.

Lemma block_by_command_after_register_witness :
  block_by_command Kurt0 "move" = None ∧
  (register Examples.plugin_a Kurt0).2 = Ok () ∧
  block_by_command Examples.registry_a "move" =
    Some (BlockType.new (TranslatedBlockType.set_format "a" Examples.move_block)) ∧
  block_by_command Examples.registry_a "turn" = None.
Proof.
  assert (block_by_command Kurt0 "move" = None) as H1 by reflexivity.
  assert (Forall (λ f, is_ok (Feature_get (FEATURES Kurt0) f) = true)
            (KurtPlugin.features Examples.plugin_a)) as H2
    by (repeat constructor).
  destruct (block_by_command_after_register Examples.plugin_a Kurt0
              Examples.move_block H2 eq_refl eq_refl H1)
    as (Hok & _ & Hfind & Hother).
  split; [exact H1|]. split; [exact Hok|]. split; [exact Hfind|].
  exact (Hother "turn" ltac:(discriminate)).
Defined.



(** X18.  The corner cases of [get_plugin].  Given a plugin object as
    [name], [get_plugin] returns that object, registered or not, whatever the
    keywords.  Given one keyword that is not an attribute of [KurtPlugin]
    (nor one of the names every object has), it raises [AttributeError] for
    that keyword as soon as one plugin is registered, and
    [ValueError("Unknown format")] on an empty registry, where no attribute
    is read. *)
Theorem get_plugin_corner_cases (st : Kurt) (p : KurtPlugin.t)
    (kwargs : gmap string string) (k v : string) :
  k ∉ plugin_attrs → String.prefix "__" k = false →
  get_plugin st (NamePlugin p) kwargs = Ok p ∧
  get_plugin st NoName {[ k := v ]} =
    match plugins st with
    | [] => Raise (ValueError "Unknown format")
    | _ :: _ => Raise (AttributeError k)
    end.
Proof.
  intros Hk _. split; [done|].
  assert (k ≠ "extension") as Hext.
  { intros ->. apply Hk. by_computation. }
  unfold get_plugin, criteria. rewrite lookup_singleton_ne by done.
  rewrite bool_decide_eq_false_2 by apply insert_non_empty.
  rewrite map_to_list_singleton.
  destruct (plugins st) as [|[key q] l]; [done|].
  rewrite fmap_cons. cbn [scan matches snd]. by rewrite plugin_getattr_other.
Qed.

Lemma get_plugin_corner_cases_witness :
  ("colour" ∉ plugin_attrs) ∧
  get_plugin Kurt0 (NamePlugin Examples.plugin_a) ∅ = Ok Examples.plugin_a ∧
  get_plugin Kurt0 NoName {[ "colour" := "red" ]} =
    Raise (ValueError "Unknown format") ∧
  get_plugin Examples.registry_a NoName {[ "colour" := "red" ]} =
    Raise (AttributeError "colour").
Proof.
  assert ("colour" ∉ plugin_attrs) as H1 by by_computation.
  split; [exact H1|]. split_and!.
  - exact (proj1 (get_plugin_corner_cases Kurt0 Examples.plugin_a ∅
                    "colour" "red" H1 eq_refl)).
  - exact (proj2 (get_plugin_corner_cases Kurt0 Examples.plugin_a ∅
                    "colour" "red" H1 eq_refl)).
  - exact (proj2 (get_plugin_corner_cases Examples.registry_a Examples.plugin_a ∅
                    "colour" "red" H1 eq_refl)).
Defined.

(** X19.  [blocks_by_text] is a filter.  Whatever the two text-stripping
    functions, [blocks_by_text(text)] returns the blocks of [Kurt.blocks]
    that have a translation whose stripped text equals the stripped [text]:
    in the order of [Kurt.blocks], each once however many of its translations
    match, and none when there is no block. *)
Theorem blocks_by_text_filter (_strip_text : string → string)
    (stripped_text : TranslatedBlockType.t → string) (st : Kurt) (text : string) :
  blocks_by_text _strip_text stripped_text st text =
    filter (λ bt, Exists (λ tbt, stripped_text tbt = _strip_text text)
                    (map_to_list (BlockType._translations bt)).*2) (blocks st) ∧
  blocks_by_text _strip_text stripped_text st text `sublist_of` blocks st ∧
  (∀ bt, bt ∈ blocks_by_text _strip_text stripped_text st text ↔
         bt ∈ blocks st ∧
         ∃ name tbt, BlockType._translations bt !! name = Some tbt ∧
                     stripped_text tbt = _strip_text text).
Proof.
  assert (blocks_by_text _strip_text stripped_text st text =
          filter (λ bt, Exists (λ tbt, stripped_text tbt = _strip_text text)
                          (map_to_list (BlockType._translations bt)).*2)
                 (blocks st)) as Heq.
  { unfold blocks_by_text. cbv zeta. by rewrite blocks_loop_spec. }
  rewrite Heq. split; [done|]. split; [apply sublist_filter|].
  intros bt. rewrite list_elem_of_filter, Exists_exists. split.
  - intros [(tbt & ([k t] & -> & Hk%elem_of_map_to_list)%list_elem_of_fmap & Ht) Hin].
    split; [done|]. eauto.
  - intros [Hin (k & tbt & Hk & Ht)]. split; [|done].
    exists tbt. split; [|done]. apply list_elem_of_fmap. exists (k, tbt).
    split; [done|]. by apply elem_of_map_to_list.
Qed.

(** ** Resolving the features of a plugin *)

Lemma map_result_objects table (fs : list Feature.t) :
  map_result (Feature_get table) (FeatureObj <$> fs) = Ok fs.
Proof.
  induction fs as [|f fs IH]; [done|].
  rewrite fmap_cons. cbn [map_result Feature_get bind]. by rewrite IH.
Qed.

Lemma map_result_resolved table refs (fs : list Feature.t) :
  map_result (Feature_get table) refs = Ok fs →
  Forall2 (λ ref f, match ref with
                    | FeatureName s => table !! s = Some f
                    | FeatureObj g => g = f
                    end) refs fs.
Proof.
  revert fs. induction refs as [|ref refs IH]; intros fs; cbn [map_result].
  { intros [= <-]. constructor. }
  destruct (Feature_get table ref) as [f|] eqn:Hf; cbn [bind]; [|done].
  destruct (map_result (Feature_get table) refs) as [fs'|]; cbn [bind]; [|done].
  intros [= <-]. constructor; [|by apply IH].
  destruct ref as [s|g]; simpl in Hf.
  - destruct (table !! s); by simplify_eq.
  - by simplify_eq.
Qed.

Lemma add_blocks_raise bs name tbts e :
  (add_blocks bs name tbts).2 = Raise e → ∃ msg, e = ValueError msg.
Proof.
  revert bs. induction tbts as [|tbt tbts IH]; intros bs; cbn [add_blocks].
  { done. }
  destruct (merge_translation bs name tbt) as [bs'|]; [apply IH|].
  destruct (truthy_match _); [|apply IH].
  intros [= <-]. eauto.
Qed.

(** X20.  Features are resolved once.  When the features of a plugin
    resolve, each name to the feature that [Feature.FEATURES] has under it and
    each [Feature] object to itself, the plugin that [register] stores lists
    the features themselves; resolving that list again gives the same
    features whatever the table then holds, so registering the stored plugin
    again can raise the [ValueError] of an unmatched block but no
    [KeyError]. *)
Theorem register_resolves_features (plugin : KurtPlugin.t) (st : Kurt)
    (fs : list Feature.t) :
  map_result (Feature_get (FEATURES st)) (KurtPlugin.features plugin) = Ok fs →
  KurtPlugin.features (stored_plugin plugin st) = FeatureObj <$> fs ∧
  Forall2 (λ ref f, match ref with
                    | FeatureName s => FEATURES st !! s = Some f
                    | FeatureObj g => g = f
                    end) (KurtPlugin.features plugin) fs ∧
  (∀ table, map_result (Feature_get table)
              (KurtPlugin.features (stored_plugin plugin st)) = Ok fs) ∧
  (∀ st' e, (register (stored_plugin plugin st) st').2 = Raise e →
            ∃ msg, e = ValueError msg).
Proof.
  intros Hfs.
  assert (KurtPlugin.features (stored_plugin plugin st) = FeatureObj <$> fs) as Hst.
  { unfold stored_plugin. by rewrite Hfs. }
  split_and!.
  - exact Hst.
  - by apply map_result_resolved.
  - intros table. rewrite Hst. apply map_result_objects.
  - intros st' e.
    rewrite (register_blocks _ st' fs) by (rewrite Hst; apply map_result_objects).
    cbn [snd]. apply add_blocks_raise.
Qed.

Lemma register_resolves_features_witness :
  map_result (Feature_get (FEATURES Kurt0)) (KurtPlugin.features Examples.plugin_a) =
    Ok [Vector_Images] ∧
  KurtPlugin.features (stored_plugin Examples.plugin_a Kurt0) =
    [FeatureObj Vector_Images] ∧
  map_result (Feature_get ∅)
    (KurtPlugin.features (stored_plugin Examples.plugin_a Kurt0)) =
    Ok [Vector_Images] ∧
  map_result (Feature_get ∅) (KurtPlugin.features Examples.plugin_a) =
    Raise (KeyError "Vector Images").
Proof.
  assert (map_result (Feature_get (FEATURES Kurt0))
            (KurtPlugin.features Examples.plugin_a) = Ok [Vector_Images]) as H1
    by reflexivity.
  destruct (register_resolves_features Examples.plugin_a Kurt0 [Vector_Images] H1)
    as (Hstored & _ & Hagain & _).
  split; [exact H1|]. split; [exact Hstored|]. split; [exact (Hagain ∅)|].
  reflexivity.
Defined.

(** ** What the scan of [get_plugin] returns *)

Lemma matches_true p (l : list (string * string)) :
  matches p l = Ok true →
  Forall (λ kv, plugin_getattr p kv.1 = Ok (AStr kv.2)) l.
Proof.
  induction l as [|[k v] l IH]; cbn [matches]; [constructor|].
  destruct (plugin_getattr p k) as [[s|]|] eqn:Hk; cbn [bind]; [|done..].
  case_bool_decide as Hs; [|done]. subst s.
  intros H. constructor; [done|]. by apply IH.
Qed.

Lemma scan_sound ps (l : list (string * string)) p :
  scan ps l = Ok p →
  p ∈ ps ∧ Forall (λ kv, plugin_getattr p kv.1 = Ok (AStr kv.2)) l.
Proof.
  induction ps as [|q ps IH]; cbn [scan]; [done|].
  destruct (matches q l) as [[|]|] eqn:Hq; cbn [bind]; [| |done].
  - intros [= <-]. split; [by left|]. by apply matches_true.
  - intros [Hin Hall]%IH. split; [by right|done].
Qed.

(** X21.  [get_plugin] returns registered plugins that match.  Whenever
    [get_plugin], not given a plugin object, returns a plugin, that plugin is
    in [Kurt.plugins] and each of its queried attributes is a string equal to
    its criterion: its name is the name asked for, and its extension is the
    lower-cased extension asked for. *)
Theorem get_plugin_sound (st : Kurt) (name : name_arg)
    (kwargs : gmap string string) (p : KurtPlugin.t) :
  (∀ q, name ≠ NamePlugin q) →
  get_plugin st name kwargs = Ok p →
  p ∈ (plugins st).*2 ∧
  satisfies p (criteria name kwargs) ∧
  (∀ s, name = NameStr s → s ≠ EmptyString → KurtPlugin.name p = s) ∧
  (∀ e, kwargs !! "extension" = Some e → KurtPlugin.extension p = lower e).
Proof.
  intros Hname Hget.
  assert (scan (plugins st).*2 (map_to_list (criteria name kwargs)) = Ok p)
    as Hscan.
  { unfold get_plugin in Hget. destruct name as [|s|q]; [..|by destruct (Hname q)];
      by case_bool_decide. }
  apply scan_sound in Hscan as [Hin Hall].
  apply satisfies_list in Hall.
  split; [done|]. split; [done|]. split.
  - intros s -> Hs. destruct s as [|a s]; [done|].
    assert (criteria (NameStr (String a s)) kwargs !! "name" = Some (String a s))
      as Hc by (unfold criteria; apply lookup_insert_eq).
    pose proof (Hall _ _ Hc) as Hattr. by injection Hattr.
  - intros e He.
    assert (criteria name kwargs !! "extension" = Some (lower e)) as Hc
      by (by rewrite criteria_extension, He).
    pose proof (Hall _ _ Hc) as Hattr. by injection Hattr.
Qed.

Lemma get_plugin_sound_witness :
  (∀ q, NoName ≠ NamePlugin q) ∧
  get_plugin Examples.registry_ab NoName {[ "extension" := ".B" ]} =
    Ok Examples.registered_b ∧
  Examples.registered_b ∈ (plugins Examples.registry_ab).*2 ∧
  KurtPlugin.extension Examples.registered_b = ".b".
Proof.
  assert (∀ q, NoName ≠ NamePlugin q) as H1 by (intros q; discriminate).
  assert (get_plugin Examples.registry_ab NoName {[ "extension" := ".B" ]} =
          Ok Examples.registered_b) as H2 by reflexivity.
  destruct (get_plugin_sound Examples.registry_ab NoName {[ "extension" := ".B" ]}
              Examples.registered_b H1 H2) as (Hin & _ & _ & Hext).
  split; [exact H1|]. split; [exact H2|]. split; [exact Hin|].
  exact (Hext ".B" eq_refl).
Defined.

End RegistryBehaviour.

(** * Further properties of the workarounds *)

Module WorkaroundBehaviour.
Import Py Plugin WorkaroundFacts.

(** ** Projects and scriptables, field by field *)

Lemma project_eq (p q : Project.t) :
  scriptables p = scriptables q →
  Project.variables p = Project.variables q →
  Project.lists p = Project.lists q → p = q.
Proof.
  destruct p, q. unfold scriptables. simpl. by intros [= -> ->] -> ->.
Qed.

Lemma scriptable_eq (s t : Scriptable.t) :
  Scriptable.name s = Scriptable.name t →
  Scriptable.costumes s = Scriptable.costumes t →
  Scriptable.variables s = Scriptable.variables t →
  Scriptable.lists s = Scriptable.lists t → s = t.
Proof. destruct s, t. simpl. by intros -> -> -> ->. Qed.

Lemma set_image_globals img i c p :
  Project.variables (set_image img i c p) = Project.variables p ∧
  Project.lists (set_image img i c p) = Project.lists p.
Proof. by destruct i. Qed.

Lemma replace_all_globals ps p :
  Project.variables (replace_all ps p) = Project.variables p ∧
  Project.lists (replace_all ps p) = Project.lists p.
Proof.
  unfold replace_all. revert p. induction ps as [|pos ps IH]; intros p; [done|].
  cbn [foldl]. destruct (IH (set_image PLACEHOLDER pos.1 pos.2 p)) as [-> ->].
  apply set_image_globals.
Qed.

(** ** What replacing the images at some positions makes of a scriptable *)

Lemma replace_all_scriptable ps p i s :
  scriptables p !! i = Some s →
  ∃ s', scriptables (replace_all ps p) !! i = Some s' ∧
        Scriptable.name s' = Scriptable.name s ∧
        Scriptable.variables s' = Scriptable.variables s ∧
        Scriptable.lists s' = Scriptable.lists s ∧
        length (Scriptable.costumes s') = length (Scriptable.costumes s) ∧
        ∀ c co, Scriptable.costumes s !! c = Some co →
          Scriptable.costumes s' !! c =
          Some (if decide ((i, c) ∈ ps)
                then {| Costume.name := Costume.name co;
                        Costume.image := PLACEHOLDER |}
                else co).
Proof.
  unfold replace_all. revert p s.
  induction ps as [|[i0 c0] ps IH]; intros p s Hs.
  { exists s. split_and!; done. }
  cbn [foldl fst snd].
  destruct (decide (i0 = i)) as [->|Hi].
  - destruct (IH (set_image PLACEHOLDER i c0 p) (set_costume_image PLACEHOLDER c0 s))
      as (s' & Hs' & Hname & Hvars & Hlists & Hlen & Hcos).
    { by rewrite scriptables_set_image, list_lookup_alter_eq, Hs. }
    exists s'. split_and!; try done.
    + rewrite Hlen. simpl. apply length_alter.
    + intros c co Hco. destruct (decide (c0 = c)) as [->|Hc].
      * rewrite (Hcos c {| Costume.name := Costume.name co;
                           Costume.image := PLACEHOLDER |}).
        2:{ simpl. by rewrite list_lookup_alter_eq, Hco. }
        rewrite (decide_True (P := (i, c) ∈ (i, c) :: ps)) by left.
        by case_decide.
      * rewrite (Hcos c co) by (simpl; by rewrite list_lookup_alter_ne).
        destruct (decide ((i, c) ∈ ps)) as [Hin|Hin].
        -- rewrite decide_True; [done|]. by right.
        -- rewrite decide_False; [done|].
           rewrite elem_of_cons. intros [[= ?]|?]; done.
  - destruct (IH (set_image PLACEHOLDER i0 c0 p) s)
      as (s' & Hs' & Hname & Hvars & Hlists & Hlen & Hcos).
    { by rewrite scriptables_set_image, list_lookup_alter_ne. }
    exists s'. split_and!; try done.
    intros c co Hco. rewrite (Hcos c co Hco).
    destruct (decide ((i, c) ∈ ps)) as [Hin|Hin].
    + rewrite decide_True; [done|]. by right.
    + rewrite decide_False; [done|].
      rewrite elem_of_cons. intros [[= ? ?]|?]; done.
Qed.

Lemma replace_all_length ps p :
  length (scriptables (replace_all ps p)) = length (scriptables p).
Proof.
  unfold replace_all. revert p. induction ps as [|pos ps IH]; intros p; [done|].
  cbn [foldl]. rewrite IH, scriptables_set_image. apply length_alter.
Qed.

(** ** The positions of the vector costumes *)

Lemma is_svg_lookup p i c s co :
  scriptables p !! i = Some s → Scriptable.costumes s !! c = Some co →
  is_svg p i c = bool_decide (Image.format (Costume.image co) = Some "SVG").
Proof.
  intros Hs Hco. unfold is_svg, costume_at. rewrite Hs. simpl. by rewrite Hco.
Qed.

Lemma elem_of_svg_positions p i c :
  (i, c) ∈ svg_positions p ↔ is_svg p i c = true.
Proof.
  split; [apply svg_positions_in_is_svg|].
  intros Hsvg. unfold svg_positions, svg_positions_in.
  apply list_elem_of_bind. exists i.
  unfold is_svg, costume_at in Hsvg.
  destruct (scriptables p !! i) as [s|] eqn:Hs; simpl in Hsvg; [|done].
  destruct (Scriptable.costumes s !! c) as [co|] eqn:Hco; simpl in Hsvg; [|done].
  split.
  - apply list_elem_of_fmap. exists c. split; [done|].
    apply list_elem_of_filter. split.
    + by rewrite (is_svg_lookup p i c s co).
    + apply elem_of_seq. unfold costume_count. rewrite Hs. simpl.
      apply lookup_lt_Some in Hco. lia.
  - apply elem_of_seq. apply lookup_lt_Some in Hs. lia.
Qed.

Lemma svg_positions_nil p :
  (∀ i c, is_svg p i c = false) → svg_positions p = [].
Proof.
  intros Hnone. unfold svg_positions.
  generalize (seq 0 (length (scriptables p))) as scs.
  induction scs as [|i scs IH]; [done|].
  rewrite svg_positions_in_cons, IH, filter_svg_nil by done. done.
Qed.

(** ** The project that the Vector Images workaround leaves *)

Lemma scriptables_degrade p :
  scriptables (degrade p) = degrade_scriptable <$> scriptables p.
Proof. done. Qed.

Lemma replace_all_degrade p : replace_all (svg_positions p) p = degrade p.
Proof.
  apply project_eq;
    [|exact (proj1 (replace_all_globals _ p))
     |exact (proj2 (replace_all_globals _ p))].
  rewrite scriptables_degrade. apply list_eq. intros i.
  rewrite list_lookup_fmap.
  destruct (scriptables p !! i) as [s|] eqn:Hs; simpl.
  - destruct (replace_all_scriptable (svg_positions p) p i s Hs)
      as (s' & -> & Hname & Hvars & Hlists & Hlen & Hcos).
    f_equal. apply scriptable_eq; try done. simpl.
    apply list_eq. intros c. rewrite list_lookup_fmap.
    destruct (Scriptable.costumes s !! c) as [co|] eqn:Hco; simpl.
    + rewrite (Hcos c co Hco). f_equal. unfold degrade_costume.
      rewrite <- (is_svg_lookup p i c s co Hs Hco).
      destruct (is_svg p i c) eqn:Hsvg.
      * rewrite decide_True; [done|]. by apply elem_of_svg_positions.
      * rewrite decide_False; [done|]. rewrite elem_of_svg_positions. congruence.
    + apply lookup_ge_None. rewrite Hlen. by apply lookup_ge_None.
  - apply lookup_ge_None. rewrite replace_all_length. by apply lookup_ge_None.
Qed.

Lemma is_svg_degrade p i c : is_svg (degrade p) i c = false.
Proof.
  unfold is_svg, costume_at. rewrite scriptables_degrade, list_lookup_fmap.
  destruct (scriptables p !! i) as [s|]; simpl; [|done].
  rewrite list_lookup_fmap.
  destruct (Scriptable.costumes s !! c) as [co|]; simpl; [|done].
  unfold degrade_costume.
  destruct (decide (Image.format (Costume.image co) = Some "SVG")) as [Hsvg|Hsvg].
  - by rewrite (bool_decide_eq_true_2 _ Hsvg).
  - rewrite (bool_decide_eq_false_2 _ Hsvg). by apply bool_decide_eq_false_2.
Qed.

Lemma drain_vector_images p :
  drain vector_images_workaround p =
  ((λ pos, label_at p pos.1 pos.2) <$> svg_positions p, degrade p).
Proof.
  unfold drain. rewrite vector_images_trace. cbn [fst snd].
  by rewrite steps_labels, replace_all_degrade.
Qed.

Lemma drain_stage_variables p :
  drain stage_variables_workaround p = (stage_labels p, make_global p).
Proof.
  unfold drain. rewrite stage_variables_trace. cbn [fst snd].
  rewrite <- list_fmap_compose. f_equal.
  rewrite <- (list_fmap_id (stage_labels p)) at 2. by apply list_fmap_ext.
Qed.

(** X22.  What the Vector Images workaround leaves, for any project.  Taking
    every label leaves the project in which each costume whose image is a
    vector image has the placeholder for its image, and everything else is as
    it was: the names of the scriptables and of the costumes, the number and
    order of sprites and costumes, every image that is not a vector image,
    and all variables and lists.  There is one label for each vector
    costume.  (The costume objects of the project are distinct, as the model
    of the project has them: a costume object listed twice would be replaced,
    and named, once.) *)
Theorem vector_images_degrades (p : Project.t) :
  (drain vector_images_workaround p).2 = degrade p ∧
  length (drain vector_images_workaround p).1 = length (svg_positions p) ∧
  (∀ i s, scriptables p !! i = Some s →
     ∃ s', scriptables (drain vector_images_workaround p).2 !! i = Some s' ∧
           Scriptable.name s' = Scriptable.name s ∧
           Scriptable.variables s' = Scriptable.variables s ∧
           Scriptable.lists s' = Scriptable.lists s ∧
           ∀ c co, Scriptable.costumes s !! c = Some co →
             ∃ co', Scriptable.costumes s' !! c = Some co' ∧
                    Costume.name co' = Costume.name co ∧
                    Costume.image co' =
                      (if bool_decide (Image.format (Costume.image co) = Some "SVG")
                       then Image.New (32, 32)%Z (255, 0, 0)%Z
                       else Costume.image co)).
Proof.
  rewrite drain_vector_images. cbn [fst snd]. split_and!.
  - done.
  - by rewrite length_fmap.
  - intros i s Hs. exists (degrade_scriptable s). split_and!; try done.
    + by rewrite scriptables_degrade, list_lookup_fmap, Hs.
    + intros c co Hco. exists (degrade_costume co). split_and!.
      * simpl. by rewrite list_lookup_fmap, Hco.
      * unfold degrade_costume. by case_bool_decide.
      * unfold degrade_costume. by case_bool_decide.
Qed.

Lemma vector_images_degrades_witness :
  scriptables Examples.full_project !! 0%nat = Some Examples.stage_full ∧
  Scriptable.costumes Examples.stage_full !! 1%nat = Some Examples.vector_costume2 ∧
  (drain vector_images_workaround Examples.full_project).1 =
    ["Stage - costume2"; "Sprite1 - costume1"] ∧
  ∃ s', scriptables (drain vector_images_workaround Examples.full_project).2
          !! 0%nat = Some s' ∧
        Scriptable.variables s' = Scriptable.variables Examples.stage_full ∧
        ∃ co', Scriptable.costumes s' !! 1%nat = Some co' ∧
               Costume.name co' = "costume2" ∧
               Costume.image co' = PLACEHOLDER.
Proof.
  assert (scriptables Examples.full_project !! 0%nat = Some Examples.stage_full)
    as H1 by reflexivity.
  assert (Scriptable.costumes Examples.stage_full !! 1%nat =
          Some Examples.vector_costume2) as H2 by reflexivity.
  destruct (vector_images_degrades Examples.full_project) as (_ & _ & Hframe).
  destruct (Hframe 0%nat Examples.stage_full H1)
    as (s' & Hs' & _ & Hvars & _ & Hcos).
  destruct (Hcos 1%nat Examples.vector_costume2 H2) as (co' & Hco' & Hname & Himg).
  split; [exact H1|]. split; [exact H2|]. split; [reflexivity|].
  exists s'. split; [exact Hs'|]. split; [exact Hvars|].
  exists co'. split; [exact Hco'|]. split; [exact Hname|exact Himg].
Defined.

(** X23.  The Vector Images workaround is complete and idempotent, for any
    project.  After every label has been taken no costume of the project has
    a vector image; the workaround run again on the project so left yields no
    label and changes nothing; and on a project that has no vector image to
    begin with it yields no label and changes nothing. *)
Theorem vector_images_once (p : Project.t) :
  (∀ i c, is_svg (drain vector_images_workaround p).2 i c = false) ∧
  drain vector_images_workaround (drain vector_images_workaround p).2 =
    ([], (drain vector_images_workaround p).2) ∧
  ((∀ i c, is_svg p i c = false) → drain vector_images_workaround p = ([], p)).
Proof.
  assert (∀ q, (∀ i c, is_svg q i c = false) →
               drain vector_images_workaround q = ([], q)) as Hnoop.
  { intros q Hq. unfold drain. rewrite vector_images_trace.
    by rewrite (svg_positions_nil q Hq). }
  split_and!.
  - rewrite (drain_vector_images p). apply is_svg_degrade.
  - rewrite (drain_vector_images p). apply Hnoop, is_svg_degrade.
  - apply Hnoop.
Qed.

Lemma vector_images_once_witness :
  (∀ i c, is_svg Examples.hoist_project i c = false) ∧
  drain vector_images_workaround Examples.hoist_project =
    ([], Examples.hoist_project) ∧
  (drain vector_images_workaround Examples.vector_project2).1 =
    ["Sprite2 - costume1"; "Sprite2 - costume2"] ∧
  drain vector_images_workaround
    (drain vector_images_workaround Examples.vector_project2).2 =
    ([], (drain vector_images_workaround Examples.vector_project2).2).
Proof.
  assert (∀ i c, is_svg Examples.hoist_project i c = false) as H1.
  { intros [|[|i]] [|[|c]]; reflexivity. }
  destruct (vector_images_once Examples.hoist_project) as (_ & _ & Hnoop).
  destruct (vector_images_once Examples.vector_project2) as (_ & Htwice & _).
  split; [exact H1|]. split; [exact (Hnoop H1)|]. split; [reflexivity|].
  exact Htwice.
Defined.

(** X24.  What the Stage-specific Variables workaround leaves, for any
    project.  There is one label for each stage variable and each stage list.
    Once every label has been taken, a global variable (or list) is the stage
    variable (or list) of that name when there was one, and the global it was
    otherwise; the stage has no variable and no list; its name and costumes,
    and the sprites with their own variables and lists, are as they were.
    Run again on the project so left, the workaround yields no label and
    changes nothing. *)
Theorem stage_variables_merge (p : Project.t) :
  let r := drain stage_variables_workaround p in
  length r.1 =
    (size (Scriptable.variables (Project.stage p)) +
     size (Scriptable.lists (Project.stage p)))%nat ∧
  (∀ k, Project.variables r.2 !! k =
        match Scriptable.variables (Project.stage p) !! k with
        | Some v => Some v
        | None => Project.variables p !! k
        end) ∧
  (∀ k, Project.lists r.2 !! k =
        match Scriptable.lists (Project.stage p) !! k with
        | Some l => Some l
        | None => Project.lists p !! k
        end) ∧
  Scriptable.variables (Project.stage r.2) = ∅ ∧
  Scriptable.lists (Project.stage r.2) = ∅ ∧
  Scriptable.name (Project.stage r.2) = Scriptable.name (Project.stage p) ∧
  Scriptable.costumes (Project.stage r.2) = Scriptable.costumes (Project.stage p) ∧
  Project.sprites r.2 = Project.sprites p ∧
  drain stage_variables_workaround r.2 = ([], r.2).
Proof.
  cbv zeta. rewrite !drain_stage_variables. cbn [fst snd]. split_and!; try done.
  - unfold stage_labels. rewrite length_app, !length_fmap.
    by rewrite !length_map_to_list.
  - intros k. simpl. rewrite lookup_union.
    destruct (Scriptable.variables (Project.stage p) !! k) as [v|];
      by destruct (Project.variables p !! k).
  - intros k. simpl. rewrite lookup_union.
    destruct (Scriptable.lists (Project.stage p) !! k) as [v|];
      by destruct (Project.lists p !! k).
  - unfold stage_labels, make_global. simpl.
    rewrite map_to_list_empty. simpl. by rewrite !(left_id ∅ (∪)).
Qed.

Lemma stage_variables_merge_witness :
  length (drain stage_variables_workaround Examples.full_project).1 = 3%nat ∧
  Project.variables Examples.full_project !! "a" = Some (VInt 5) ∧
  Project.variables (drain stage_variables_workaround Examples.full_project).2
    !! "a" = Some (VInt 1) ∧
  Project.variables (drain stage_variables_workaround Examples.full_project).2
    !! "g" = Some (VInt 7) ∧
  Project.lists (drain stage_variables_workaround Examples.full_project).2
    !! "scores" = Some (VList []) ∧
  Project.sprites (drain stage_variables_workaround Examples.full_project).2 =
    [Examples.sprite_with_variables].
Proof.
  destruct (stage_variables_merge Examples.full_project)
    as (Hlen & Hvars & Hlists & _ & _ & _ & _ & Hsprites & _).
  split; [exact Hlen|]. split; [reflexivity|]. split; [exact (Hvars "a")|].
  split; [exact (Hvars "g")|]. split; [exact (Hlists "scores")|exact Hsprites].
Defined.

(** X25.  The two workarounds do not interfere.  For any project, taking
    every label of the Vector Images workaround and then every label of the
    Stage-specific Variables workaround leaves the same project as taking
    them in the other order, and each workaround yields the same labels
    whether it runs first or second. *)
Theorem workarounds_commute (p : Project.t) :
  (drain vector_images_workaround (drain stage_variables_workaround p).2).2 =
  (drain stage_variables_workaround (drain vector_images_workaround p).2).2 ∧
  (drain vector_images_workaround (drain stage_variables_workaround p).2).1 =
  (drain vector_images_workaround p).1 ∧
  (drain stage_variables_workaround (drain vector_images_workaround p).2).1 =
  (drain stage_variables_workaround p).1.
Proof.
  repeat (rewrite ?drain_stage_variables, ?drain_vector_images; cbn [fst snd]).
  assert (∀ i c, costume_at (make_global p) i c =
                 (λ sc, (if decide (i = 0%nat)
                         then Project.stage (make_global p) else sc.1, sc.2))
                   <$> costume_at p i c) as Hat.
  { intros [|i] c; unfold costume_at; simpl.
    - by destruct (Scriptable.costumes (Project.stage p) !! c).
    - destruct (Project.sprites p !! i) as [s|]; simpl; [|done].
      by destruct (Scriptable.costumes s !! c). }
  assert (∀ i c, is_svg (make_global p) i c = is_svg p i c) as Hsvg.
  { intros i c. unfold is_svg. rewrite Hat.
    by destruct (costume_at p i c) as [[s co]|]. }
  assert (∀ i c, label_at (make_global p) i c = label_at p i c) as Hlabel.
  { intros i c. unfold label_at. rewrite Hat.
    destruct (costume_at p i c) as [[s co]|] eqn:Hc; simpl; [|done].
    destruct i as [|i]; simpl; [|done].
    unfold costume_at in Hc. simpl in Hc.
    destruct (Scriptable.costumes (Project.stage p) !! c) as [co'|];
      simpl in Hc; [|done].
    by injection Hc as <- <-. }
  assert (svg_positions (make_global p) = svg_positions p) as Hps.
  { unfold svg_positions, svg_positions_in.
    assert (length (scriptables (make_global p)) = length (scriptables p)) as ->
      by done.
    apply list_bind_ext; [|done]. intros i. f_equal.
    assert (costume_count (make_global p) i = costume_count p i) as ->
      by by destruct i.
    apply filter_bool_ext. intros c _. apply Hsvg. }
  split_and!.
  - done.
  - rewrite Hps. apply list_fmap_ext. intros _ [i c] _. apply Hlabel.
  - done.
Qed.

Lemma workarounds_commute_witness :
  (drain vector_images_workaround
     (drain stage_variables_workaround Examples.full_project).2).2 =
  (drain stage_variables_workaround
     (drain vector_images_workaround Examples.full_project).2).2 ∧
  (drain vector_images_workaround
     (drain stage_variables_workaround Examples.full_project).2).1 =
    ["Stage - costume2"; "Sprite1 - costume1"].
Proof.
  destruct (workarounds_commute Examples.full_project) as (Hsame & Hlabels & _).
  split; [exact Hsame|]. rewrite Hlabels. reflexivity.
Defined.

End WorkaroundBehaviour.
